(** * Generation graph store and image blob cache

    A shallow embedding of [apps/web/src/lib/imageBlobStore.ts] and
    [apps/web/src/stores/flowStore.ts], and the properties of the two
    stores: admission check, LRU eviction, access-time bumping, storage
    statistics, preview confirmation, layout, cascading deletion and
    identifier freshness.

    Conventions of the embedding.
    - A JavaScript [number] is a binary64 value ([Binary64.number]) where
      the code computes on numbers that need not be integers: the seeds,
      and the coordinates that [updateConfigPosition] receives and the
      positions it computes ([FlowStore64]).  Counters, list lengths,
      clock readings, byte sizes, batch counts and the positions that
      [confirmConfig] lays out are integers and are held as [Z]; the
      statements that depend on a batch count being an integer say so,
      and [batch_indices] is the loop over a batch count that is any
      number.  On integers below [2^53] the two agree ([add_of_Z],
      [sub_of_Z], [ltb_of_Z], [updateConfigPosition_integers]).  The two
      megabyte figures, which are fractions, are exact rationals ([Q]).
    - A [string | undefined] field is an [option string]; JavaScript
      truthiness of such a field is [truthy].
    - The two IndexedDB object stores are finite maps from keys to values.
      Every [async] function of the blob module is a state transformer
      over them (the [Async] monad); [Date.now()] is an explicit argument.
      A call is run to its end before the next one starts ([runCache]);
      [overlapped_stores] is the schedule of two calls that overlap.
    - The [catch] handlers of the blob module run only when the database
      rejects a request.  [ImageBlobStore] is the module on a database
      that rejects none; [Rejecting] is the eviction path of the module
      with its [try] and [catch] blocks, on a database that rejects the
      requests an oracle names, and [refines] relates the two.
    - Record fields carry a short prefix ([meta_], [cfg_], [img_],
      [node_], ...) since several source interfaces share field names. *)

From Stdlib Require Import ZArith QArith Qround Lia.
From Stdlib Require Floats.SpecFloat.
From stdpp Require Import gmap strings list fin_maps pretty sorting.

Local Open Scope Z_scope.

(* ===================================================================== *)
(** ** JavaScript numbers *)
(* ===================================================================== *)

Module Binary64.

Import SpecFloat.

(** A [number] is an IEEE 754 binary64 value: 53 digits of precision, the
    infinities at exponent 1024, one NaN.  The operations are those of
    the standard library's specification of binary64 arithmetic, which
    round to nearest, ties to even, as JavaScript does. *)
Definition number : Type := spec_float.
Definition prec : Z := 53.
Definition emax : Z := 1024.

(** The number that an integer literal or an integer-valued variable
    holds. *)
Definition of_Z (n : Z) : number := binary_normalize prec emax n 0 false.

(** [x + y], [x - y] and [x / y] *)
Definition add (x y : number) : number := SFadd prec emax x y.
Definition sub (x y : number) : number := SFsub prec emax x y.
Definition div (x y : number) : number := SFdiv prec emax x y.

(** [x < y] *)
Definition ltb (x y : number) : bool := SFltb x y.

(** The decimal literal [m / 10^e]: the quotient of two integers that
    binary64 holds exactly, rounded once. *)
Definition decimal (m e : Z) : number := div (of_Z m) (of_Z (10 ^ e)).

End Binary64.

(* ===================================================================== *)
(** ** imageBlobStore.ts *)
(* ===================================================================== *)

Module ImageBlobStore.

(** The module on a database that rejects no request, so that no [catch]
    handler runs.  [Rejecting] has the eviction path on a database that
    does reject. *)

(** [STORAGE_LIMITS] *)
Definition MAX_IMAGES : Z := 500.
Definition MAX_STORAGE_MB : Z := 4096.
Definition WARNING_THRESHOLD_PERCENT : Z := 80.

(** A [Blob] is opaque binary data; the module only reads its [size]. *)
Record Blob : Type := mkBlob {
  blob_size : Z;
  blob_body : string;
}.

(** [interface BlobMeta] *)
Record BlobMeta : Type := mkMeta {
  meta_id : string;
  meta_size : Z;
  meta_createdAt : Z;
  meta_lastAccessedAt : Z;
}.

(** The one line the module writes with [console.log]. *)
Inductive LogLine : Type :=
  | RemovedOldestBlob (oldestId : string).

(** The database [zenith-image-blobs]: object store ['blobs'] (out-of-line
    keys), object store ['meta'] (key path ['id']), and the console. *)
Record World : Type := mkWorld {
  blobs : gmap string Blob;
  meta : gmap string BlobMeta;
  console : list LogLine;
}.

Definition emptyWorld : World :=
  {| blobs := ∅; meta := ∅; console := [] |}.

(** *** The monad of asynchronous database code *)

Definition Async (A : Type) : Type := World → A * World.

Definition ret {A : Type} (a : A) : Async A := λ w, (a, w).

Definition bind {A B : Type} (m : Async A) (k : A → Async B) : Async B :=
  λ w, let '(a, w') := m w in k a w'.

Declare Scope async_scope.
Delimit Scope async_scope with async.
Notation "x <- m ;; k" := (bind m (λ x, k))
  (at level 100, m at next level, right associativity) : async_scope.
Notation "m ;; k" := (bind m (λ _, k))
  (at level 100, right associativity) : async_scope.
Local Open Scope async_scope.

(** *** IndexedDB requests *)

(** [db.get(BLOBS_STORE, key)] *)
Definition get_blobs (key : string) : Async (option Blob) :=
  λ w, (blobs w !! key, w).

(** [db.get(META_STORE, key)] *)
Definition get_meta (key : string) : Async (option BlobMeta) :=
  λ w, (meta w !! key, w).

(** [db.put(BLOBS_STORE, blob, key)] *)
Definition put_blobs (blob : Blob) (key : string) : Async unit :=
  λ w, (tt, {| blobs := <[key := blob]> (blobs w);
               meta := meta w; console := console w |}).

(** [db.put(META_STORE, m)]: the key is read from the key path ['id']. *)
Definition put_meta (m : BlobMeta) : Async unit :=
  λ w, (tt, {| blobs := blobs w;
               meta := <[meta_id m := m]> (meta w); console := console w |}).

(** [db.delete(BLOBS_STORE, key)] *)
Definition delete_blobs (key : string) : Async unit :=
  λ w, (tt, {| blobs := delete key (blobs w);
               meta := meta w; console := console w |}).

(** [db.delete(META_STORE, key)] *)
Definition delete_meta (key : string) : Async unit :=
  λ w, (tt, {| blobs := blobs w;
               meta := delete key (meta w); console := console w |}).

(** [db.clear(BLOBS_STORE)] and [db.clear(META_STORE)] *)
Definition clear_blobs : Async unit :=
  λ w, (tt, {| blobs := ∅; meta := meta w; console := console w |}).
Definition clear_meta : Async unit :=
  λ w, (tt, {| blobs := blobs w; meta := ∅; console := console w |}).

(** [db.count(META_STORE)] *)
Definition count_meta : Async Z :=
  λ w, (Z.of_nat (size (meta w)), w).

(** [db.getAll(META_STORE)] *)
Definition getAll_meta : Async (list BlobMeta) :=
  λ w, ((map_to_list (meta w)).*2, w).

(** Order of the records in the index ['lastAccessedAt']: by index key,
    then by primary key. *)
Definition index_before (a b : BlobMeta) : bool :=
  (meta_lastAccessedAt a <? meta_lastAccessedAt b)
  || ((meta_lastAccessedAt a =? meta_lastAccessedAt b)
      && String.leb (meta_id a) (meta_id b)).

Fixpoint index_first (records : list BlobMeta) : option BlobMeta :=
  match records with
  | [] => None
  | r :: rest =>
      match index_first rest with
      | None => Some r
      | Some best => if index_before r best then Some r else Some best
      end
  end.

(** [index.openCursor()] on the index ['lastAccessedAt']: the value under
    the cursor, or [None] for the null cursor of an empty store. *)
Definition openCursor_lastAccessedAt : Async (option BlobMeta) :=
  λ w, (index_first (map_to_list (meta w)).*2, w).

(** [console.log(`Removed oldest blob: ${oldestId}`)] *)
Definition console_log (l : LogLine) : Async unit :=
  λ w, (tt, {| blobs := blobs w; meta := meta w;
               console := console w ++ [l] |}).

(** *** The exported functions *)

Definition getBlobCount : Async Z := count_meta.

Definition getTotalStorageSize : Async Z :=
  allMeta <- getAll_meta ;;
  ret (foldl (λ sum m, sum + meta_size m) 0 allMeta).

(** [Math.round]: the nearest integer, halves rounded up. *)
Definition Math_round (q : Q) : Z := Qfloor (q + (1 # 2))%Q.

(** [Math.round((totalSize / 1024 / 1024) * 10) / 10] *)
Definition sizeMB (totalSize : Z) : Q :=
  (inject_Z (Math_round ((inject_Z totalSize / 1024 / 1024) * 10)) / 10)%Q.

(** ['count' | 'size'] *)
Inductive Reason : Type := reason_count | reason_size.

(** Result object of [checkStorageLimit]. *)
Record LimitCheck : Type := mkLimitCheck {
  needsCleanup : bool;
  reason : option Reason;
  currentCount : Z;
  currentSizeMB : Q;
}.

Definition checkStorageLimit (newBlobSize : Z) : Async (option LimitCheck) :=
  count <- getBlobCount ;;
  totalSize <- getTotalStorageSize ;;
  let totalSizeMB := sizeMB totalSize in
  let maxStorageBytes := MAX_STORAGE_MB * 1024 * 1024 in
  if MAX_IMAGES <=? count then
    ret (Some {| needsCleanup := true; reason := Some reason_count;
                 currentCount := count; currentSizeMB := totalSizeMB |})
  else if maxStorageBytes <? totalSize + newBlobSize then
    ret (Some {| needsCleanup := true; reason := Some reason_size;
                 currentCount := count; currentSizeMB := totalSizeMB |})
  else ret None.

Definition deleteBlob (id : string) : Async unit :=
  delete_blobs id ;;
  delete_meta id.

Definition removeOldestBlob : Async bool :=
  cursor <- openCursor_lastAccessedAt ;;
  match cursor with
  | Some value =>
      let oldestId := meta_id value in
      deleteBlob oldestId ;;
      console_log (RemovedOldestBlob oldestId) ;;
      ret true
  | None => ret false
  end.

(** The [while] loop of [cleanupForNewBlob].  One unit of [fuel] pays for
    one evaluation of the loop body; [None] means the fuel ran out before
    the loop was left. *)
Fixpoint cleanupLoop (fuel : nat) (maxStorageBytes newBlobSize : Z)
    (count totalSize : Z) : Async (option unit) :=
  if (MAX_IMAGES <=? count) || (maxStorageBytes <? totalSize + newBlobSize)
  then
    match fuel with
    | O => ret None
    | S fuel' =>
        removed <- removeOldestBlob ;;
        if negb removed then ret (Some tt)
        else
          count <- getBlobCount ;;
          totalSize <- getTotalStorageSize ;;
          cleanupLoop fuel' maxStorageBytes newBlobSize count totalSize
    end
  else ret (Some tt).

Definition cleanupForNewBlob (fuel : nat) (newBlobSize : Z)
    : Async (option bool) :=
  let maxStorageBytes := MAX_STORAGE_MB * 1024 * 1024 in
  count <- getBlobCount ;;
  totalSize <- getTotalStorageSize ;;
  done <- cleanupLoop fuel maxStorageBytes newBlobSize count totalSize ;;
  match done with
  | Some _ => ret (Some true)
  | None => ret None
  end.

(** [storeBlob]: [Date.now()] is read twice, for [createdAt] and for
    [lastAccessedAt]. *)
Definition storeBlob (id : string) (blob : Blob) (now1 now2 : Z)
    : Async (option string) :=
  put_blobs blob id ;;
  let m := {| meta_id := id; meta_size := blob_size blob;
              meta_createdAt := now1; meta_lastAccessedAt := now2 |} in
  put_meta m ;;
  ret (Some id).

Inductive StoreResult : Type :=
  | stored (r : option string)
  | cleanup_needed.

Definition storeBlobWithCleanup (id : string) (blob : Blob) (now1 now2 : Z)
    : Async StoreResult :=
  limitCheck <- checkStorageLimit (blob_size blob) ;;
  match limitCheck with
  | Some c =>
      if needsCleanup c then ret cleanup_needed
      else r <- storeBlob id blob now1 now2 ;; ret (stored r)
  | None => r <- storeBlob id blob now1 now2 ;; ret (stored r)
  end.

(** [getBlob]: a stored [Blob] is an object, hence truthy. *)
Definition getBlob (id : string) (now : Z) : Async (option Blob) :=
  blob <- get_blobs id ;;
  match blob with
  | Some _ =>
      m <- get_meta id ;;
      match m with
      | Some m =>
          put_meta {| meta_id := meta_id m; meta_size := meta_size m;
                      meta_createdAt := meta_createdAt m;
                      meta_lastAccessedAt := now |}
      | None => ret tt
      end
  | None => ret tt
  end ;;
  ret blob.

(** [deleteBlobs]: one transaction over both stores. *)
Fixpoint deleteBlobs (ids : list string) : Async unit :=
  match ids with
  | [] => ret tt
  | id :: ids' =>
      delete_blobs id ;;
      delete_meta id ;;
      deleteBlobs ids'
  end.

Definition clearAllBlobs : Async unit :=
  clear_blobs ;;
  clear_meta.

(** Result object of [getStorageInfo]. *)
Record StorageInfo : Type := mkStorageInfo {
  info_count : Z;
  info_totalSizeMB : Q;
  info_maxImages : Z;
  info_maxStorageMB : Z;
  info_isNearLimit : bool;
}.

Definition getStorageInfo : Async StorageInfo :=
  count <- getBlobCount ;;
  totalSize <- getTotalStorageSize ;;
  let totalSizeMB := sizeMB totalSize in
  let countPercent := ((inject_Z count / inject_Z MAX_IMAGES) * 100)%Q in
  let sizePercent := ((totalSizeMB / inject_Z MAX_STORAGE_MB) * 100)%Q in
  ret {| info_count := count;
         info_totalSizeMB := totalSizeMB;
         info_maxImages := MAX_IMAGES;
         info_maxStorageMB := MAX_STORAGE_MB;
         info_isNearLimit :=
           Qle_bool (inject_Z WARNING_THRESHOLD_PERCENT) countPercent
           || Qle_bool (inject_Z WARNING_THRESHOLD_PERCENT) sizePercent |}.

End ImageBlobStore.

(* ===================================================================== *)
(** ** imageBlobStore.ts: the eviction path with its catch handlers *)
(* ===================================================================== *)

Module Rejecting.

Import ImageBlobStore.

(** The IndexedDB requests that [cleanupForNewBlob] and its callees
    issue. *)
Inductive Request : Type :=
  | req_openDB
  | req_count
  | req_getAll
  | req_openCursor
  | req_delete_blobs
  | req_delete_meta.

(** The messages that the catch handlers pass to [console.error]. *)
Inductive ErrorLine : Type :=
  | FailedToGetBlobCount
  | FailedToGetTotalStorageSize
  | FailedToDeleteBlob
  | FailedToRemoveOldestBlob
  | FailedToCleanupBlobs.

(** The database and what goes wrong with it.  [rejects r n] tells whether
    the request [r] is rejected when it is the [n]-th request issued;
    [dbInstance] is the module variable of that name ([true]: set);
    [errors] collects the [console.error] lines. *)
Record Db : Type := mkDb {
  world : World;
  dbInstance : bool;
  rejects : Request → nat → bool;
  issued : nat;
  errors : list ErrorLine;
}.

(** A promise settles: it is fulfilled with a value or rejected. *)
Inductive Settled (A : Type) : Type :=
  | fulfilled (a : A)
  | rejected.
Arguments fulfilled {A}.
Arguments rejected {A}.

Definition Promise (A : Type) : Type := Db → Settled A * Db.

Definition resolve {A : Type} (a : A) : Promise A := λ d, (fulfilled a, d).

(** [await m] followed by [k]: a rejection of [m] is thrown on. *)
Definition await {A B : Type} (m : Promise A) (k : A → Promise B)
    : Promise B :=
  λ d, let '(r, d') := m d in
       match r with
       | fulfilled a => k a d'
       | rejected => (rejected, d')
       end.

(** [try { body } catch (e) { handler }] *)
Definition try_catch {A : Type} (body handler : Promise A) : Promise A :=
  λ d, let '(r, d') := body d in
       match r with
       | fulfilled a => (fulfilled a, d')
       | rejected => handler d'
       end.

Declare Scope promise_scope.
Delimit Scope promise_scope with promise.
Notation "x <- m ;; k" := (await m (λ x, k))
  (at level 100, m at next level, right associativity) : promise_scope.
Notation "m ;; k" := (await m (λ _, k))
  (at level 100, right associativity) : promise_scope.
Local Open Scope promise_scope.

(** One request: rejected when the database says so, else it does to the
    stores what the request does. *)
Definition request {A : Type} (r : Request) (op : Async A) : Promise A :=
  λ d, if rejects d r (issued d)
       then (rejected,
             {| world := world d; dbInstance := dbInstance d;
                rejects := rejects d; issued := S (issued d);
                errors := errors d |})
       else let '(a, w') := op (world d) in
            (fulfilled a,
             {| world := w'; dbInstance := dbInstance d;
                rejects := rejects d; issued := S (issued d);
                errors := errors d |}).

(** [console.log(...)]: no request. *)
Definition console_log (l : LogLine) : Promise unit :=
  λ d, (fulfilled tt,
        {| world := (ImageBlobStore.console_log l (world d)).2;
           dbInstance := dbInstance d; rejects := rejects d;
           issued := issued d; errors := errors d |}).

(** [console.error(message, e)] *)
Definition console_error (l : ErrorLine) : Promise unit :=
  λ d, (fulfilled tt,
        {| world := world d; dbInstance := dbInstance d;
           rejects := rejects d; issued := issued d;
           errors := errors d ++ [l] |}).

(** [getDB]: the instance if there is one, else [openDB] is awaited and
    its result kept. *)
Definition getDB : Promise unit :=
  λ d, if dbInstance d then (fulfilled tt, d)
       else
         let '(r, d') := request req_openDB (ImageBlobStore.ret tt) d in
         match r with
         | fulfilled _ =>
             (fulfilled tt,
              {| world := world d'; dbInstance := true;
                 rejects := rejects d'; issued := issued d';
                 errors := errors d' |})
         | rejected => (rejected, d')
         end.

Definition getBlobCount : Promise Z :=
  try_catch
    (getDB ;; request req_count count_meta)
    (console_error FailedToGetBlobCount ;; resolve 0).

Definition getTotalStorageSize : Promise Z :=
  try_catch
    (getDB ;;
     allMeta <- request req_getAll getAll_meta ;;
     resolve (foldl (λ sum m, sum + meta_size m) 0 allMeta))
    (console_error FailedToGetTotalStorageSize ;; resolve 0).

(** [deleteBlob] swallows a rejection: its promise is always fulfilled. *)
Definition deleteBlob (id : string) : Promise unit :=
  try_catch
    (getDB ;;
     request req_delete_blobs (delete_blobs id) ;;
     request req_delete_meta (delete_meta id))
    (console_error FailedToDeleteBlob).

Definition removeOldestBlob : Promise bool :=
  try_catch
    (getDB ;;
     cursor <- request req_openCursor openCursor_lastAccessedAt ;;
     match cursor with
     | Some value =>
         let oldestId := meta_id value in
         deleteBlob oldestId ;;
         console_log (RemovedOldestBlob oldestId) ;;
         resolve true
     | None => resolve false
     end)
    (console_error FailedToRemoveOldestBlob ;; resolve false).

(** The [while] loop of [cleanupForNewBlob]; [None] means that the fuel
    ran out before the loop was left. *)
Fixpoint cleanupLoop (fuel : nat) (maxStorageBytes newBlobSize : Z)
    (count totalSize : Z) : Promise (option unit) :=
  if (MAX_IMAGES <=? count) || (maxStorageBytes <? totalSize + newBlobSize)
  then
    match fuel with
    | O => resolve None
    | S fuel' =>
        removed <- removeOldestBlob ;;
        if negb removed then resolve (Some tt)
        else
          count <- getBlobCount ;;
          totalSize <- getTotalStorageSize ;;
          cleanupLoop fuel' maxStorageBytes newBlobSize count totalSize
    end
  else resolve (Some tt).

Definition cleanupForNewBlob (fuel : nat) (newBlobSize : Z)
    : Promise (option bool) :=
  try_catch
    (let maxStorageBytes := MAX_STORAGE_MB * 1024 * 1024 in
     count <- getBlobCount ;;
     totalSize <- getTotalStorageSize ;;
     done <- cleanupLoop fuel maxStorageBytes newBlobSize count totalSize ;;
     match done with
     | Some _ => resolve (Some true)
     | None => resolve None
     end)
    (console_error FailedToCleanupBlobs ;; resolve (Some false)).

End Rejecting.

(* ===================================================================== *)
(** ** flowStore.ts *)
(* ===================================================================== *)

Module FlowStore.

Import ImageBlobStore Binary64.

(** [LAYOUT] *)
Definition FIRST_CONFIG_X : Z := 100.
Definition FIRST_CONFIG_Y : Z := 100.
Definition CONFIG_SPACING : Z := 350.
Definition IMAGE_OFFSET_Y : Z := 220.
Definition IMAGE_SPACING_Y : Z := 280.

(** [interface ConfigData] *)
Record ConfigData : Type := mkConfigData {
  cfg_id : string;
  cfg_prompt : string;
  cfg_width : Z;
  cfg_height : Z;
  cfg_batchCount : Z;
  cfg_seed : number;
  cfg_timestamp : Z;
  cfg_isPreview : bool;
}.

(** [interface PreviewConfigInput] *)
Record PreviewConfigInput : Type := mkPreviewConfigInput {
  in_prompt : string;
  in_width : Z;
  in_height : Z;
  in_batchCount : Z;
  in_seed : number;
}.

(** [interface ImageData] *)
Record ImageData : Type := mkImageData {
  img_id : string;
  img_configId : string;
  img_prompt : string;
  img_width : Z;
  img_height : Z;
  img_seed : number;
  img_imageUrl : option string;
  img_imageBlobId : option string;
  img_duration : option string;
  img_isLoading : bool;
  img_error : option string;
}.

(** [interface StorageLimitState] *)
Record StorageLimitState : Type := mkStorageLimitState {
  sl_needsCleanup : bool;
  sl_reason : option Reason;
  sl_currentCount : Z;
  sl_currentSizeMB : Q;
  sl_pendingImageId : option string;
  sl_pendingBlob : option Blob;
}.

(** The part of [Node<D>] of [@xyflow/react] that the store fills in. *)
Record Position : Type := mkPosition { pos_x : Z; pos_y : Z }.

Inductive NodeType : Type := configNode | imageNode.

Record Node (D : Type) : Type := mkNode {
  node_id : string;
  node_type : NodeType;
  node_position : Position;
  node_data : D;
  node_draggable : bool;
}.
Arguments mkNode {D}.
Arguments node_id {D}.
Arguments node_type {D}.
Arguments node_position {D}.
Arguments node_data {D}.
Arguments node_draggable {D}.

(** The data fields of [interface FlowState]. *)
Record FlowState : Type := mkFlowState {
  configNodes : list (Node ConfigData);
  imageNodes : list (Node ImageData);
  previewConfig : option ConfigData;
  editingConfigId : option string;
  isEditingModified : bool;
  lightboxImageId : option string;
  storageLimitState : option StorageLimitState;
  nodeIdCounter : Z;
  _hasHydrated : bool;
}.

(** The state the store is created with. *)
Definition initialState : FlowState :=
  {| configNodes := []; imageNodes := []; previewConfig := None;
     editingConfigId := None; isEditingModified := false;
     lightboxImageId := None; storageLimitState := None;
     nodeIdCounter := 0; _hasHydrated := false |}.

(** Calls into the blob module that an action starts and does not await. *)
Inductive CacheCall : Type :=
  | call_deleteBlobs (ids : list string)
  | call_clearAllBlobs.

Definition runCacheCall (c : CacheCall) : Async unit :=
  match c with
  | call_deleteBlobs ids => deleteBlobs ids
  | call_clearAllBlobs => clearAllBlobs
  end.

(** Truthiness of a value of type [string | undefined]. *)
Definition truthy (s : option string) : bool :=
  match s with
  | Some s => negb (String.eqb s "")
  | None => false
  end.

(** [x as string], applied to values that passed the truthiness test. *)
Definition as_string (s : option string) : string := default "" s.

(** *** Actions *)

Definition getNextConfigPosition (state : FlowState) : Position :=
  let confirmedCount := Z.of_nat (length (configNodes state)) in
  {| pos_x := FIRST_CONFIG_X + confirmedCount * CONFIG_SPACING;
     pos_y := FIRST_CONFIG_Y |}.

Definition setPreviewConfig (config : option PreviewConfigInput) (now : Z)
    (state : FlowState) : FlowState :=
  match config with
  | None =>
      {| configNodes := configNodes state; imageNodes := imageNodes state;
         previewConfig := None;
         editingConfigId := editingConfigId state;
         isEditingModified := isEditingModified state;
         lightboxImageId := lightboxImageId state;
         storageLimitState := storageLimitState state;
         nodeIdCounter := nodeIdCounter state;
         _hasHydrated := _hasHydrated state |}
  | Some config =>
      {| configNodes := configNodes state; imageNodes := imageNodes state;
         previewConfig :=
           Some {| cfg_prompt := in_prompt config;
                   cfg_width := in_width config;
                   cfg_height := in_height config;
                   cfg_batchCount := in_batchCount config;
                   cfg_seed := in_seed config;
                   cfg_id := "preview-" +:+ pretty (nodeIdCounter state + 1);
                   cfg_timestamp := now;
                   cfg_isPreview := true |};
         editingConfigId := editingConfigId state;
         isEditingModified := isEditingModified state;
         lightboxImageId := lightboxImageId state;
         storageLimitState := storageLimitState state;
         nodeIdCounter := nodeIdCounter state;
         _hasHydrated := _hasHydrated state |}
  end.

(** The configuration node that [confirmConfig] builds. *)
Definition newConfigNode (state : FlowState) (configToConfirm : ConfigData)
    : Node ConfigData :=
  let newConfigId := "config-" +:+ pretty (nodeIdCounter state + 1) in
  let position := getNextConfigPosition state in
  {| node_id := newConfigId;
     node_type := configNode;
     node_position := position;
     node_data :=
       {| cfg_id := newConfigId;
          cfg_prompt := cfg_prompt configToConfirm;
          cfg_width := cfg_width configToConfirm;
          cfg_height := cfg_height configToConfirm;
          cfg_batchCount := cfg_batchCount configToConfirm;
          cfg_seed := cfg_seed configToConfirm;
          cfg_timestamp := cfg_timestamp configToConfirm;
          cfg_isPreview := false |};
     node_draggable := true |}.

(** The body of the [for] loop of [confirmConfig] at index [i].  The loop
    counter is an integer; [seed + i] is an addition of numbers, since
    the seed is whatever number the caller put in the preview. *)
Definition newImageNode (state : FlowState) (configToConfirm : ConfigData)
    (i : Z) : Node ImageData :=
  let newConfigId := "config-" +:+ pretty (nodeIdCounter state + 1) in
  let position := getNextConfigPosition state in
  let imageId := "image-" +:+ pretty (nodeIdCounter state + 2 + i) in
  {| node_id := imageId;
     node_type := imageNode;
     node_position :=
       {| pos_x := pos_x position;
          pos_y := pos_y position + IMAGE_OFFSET_Y + i * IMAGE_SPACING_Y |};
     node_data :=
       {| img_id := imageId;
          img_configId := newConfigId;
          img_prompt := cfg_prompt configToConfirm;
          img_width := cfg_width configToConfirm;
          img_height := cfg_height configToConfirm;
          img_seed := add (cfg_seed configToConfirm) (of_Z i);
          img_imageUrl := None;
          img_imageBlobId := None;
          img_duration := None;
          img_isLoading := true;
          img_error := None |};
     node_draggable := false |}.

(** [for (let i = 0; i < configToConfirm.batchCount; i++)] over an integer
    batch count: the indices 0, 1, ... below [batchCount], none when
    [batchCount <= 0] ([batch_indices_integer]). *)
Definition newImageNodes (state : FlowState) (configToConfirm : ConfigData)
    : list (Node ImageData) :=
  map (newImageNode state configToConfirm)
      (seqZ 0 (cfg_batchCount configToConfirm)).

Definition confirmConfig (state : FlowState) : option string * FlowState :=
  match previewConfig state with
  | None => (None, state)
  | Some configToConfirm =>
      let newConfigId := "config-" +:+ pretty (nodeIdCounter state + 1) in
      (Some newConfigId,
       {| configNodes :=
            configNodes state ++ [newConfigNode state configToConfirm];
          imageNodes :=
            imageNodes state ++ newImageNodes state configToConfirm;
          previewConfig := None;
          editingConfigId := None;
          isEditingModified := false;
          lightboxImageId := lightboxImageId state;
          storageLimitState := storageLimitState state;
          nodeIdCounter :=
            nodeIdCounter state + 1 + cfg_batchCount configToConfirm;
          _hasHydrated := _hasHydrated state |})
  end.

Definition loadConfigForEditing (configId : string) (state : FlowState)
    : option ConfigData * FlowState :=
  match find (λ n, String.eqb (node_id n) configId) (configNodes state) with
  | None => (None, state)
  | Some cn =>
      (Some (node_data cn),
       {| configNodes := configNodes state; imageNodes := imageNodes state;
          previewConfig := None;
          editingConfigId := Some configId;
          isEditingModified := false;
          lightboxImageId := lightboxImageId state;
          storageLimitState := storageLimitState state;
          nodeIdCounter := nodeIdCounter state;
          _hasHydrated := _hasHydrated state |})
  end.

Definition clearEditing (state : FlowState) : FlowState :=
  {| configNodes := configNodes state; imageNodes := imageNodes state;
     previewConfig := previewConfig state;
     editingConfigId := None;
     isEditingModified := false;
     lightboxImageId := lightboxImageId state;
     storageLimitState := storageLimitState state;
     nodeIdCounter := nodeIdCounter state;
     _hasHydrated := _hasHydrated state |}.

Definition setEditingModified (modified : bool) (state : FlowState)
    : FlowState :=
  {| configNodes := configNodes state; imageNodes := imageNodes state;
     previewConfig := previewConfig state;
     editingConfigId := editingConfigId state;
     isEditingModified := modified;
     lightboxImageId := lightboxImageId state;
     storageLimitState := storageLimitState state;
     nodeIdCounter := nodeIdCounter state;
     _hasHydrated := _hasHydrated state |}.

(** [{ ...n, position: p }] *)
Definition with_position {D : Type} (n : Node D) (p : Position) : Node D :=
  {| node_id := node_id n; node_type := node_type n; node_position := p;
     node_data := node_data n; node_draggable := node_draggable n |}.

(** [{ ...n, data: d }] *)
Definition with_data {D : Type} (n : Node D) (d : D) : Node D :=
  {| node_id := node_id n; node_type := node_type n;
     node_position := node_position n;
     node_data := d; node_draggable := node_draggable n |}.

(** [set({ configNodes, imageNodes })] *)
Definition set_nodes (state : FlowState)
    (cs : list (Node ConfigData)) (ims : list (Node ImageData)) : FlowState :=
  {| configNodes := cs; imageNodes := ims;
     previewConfig := previewConfig state;
     editingConfigId := editingConfigId state;
     isEditingModified := isEditingModified state;
     lightboxImageId := lightboxImageId state;
     storageLimitState := storageLimitState state;
     nodeIdCounter := nodeIdCounter state;
     _hasHydrated := _hasHydrated state |}.

(** [updateConfigPosition] on integer coordinates, where no sum is
    rounded.  [FlowStore64.updateConfigPosition] is the function on
    numbers; the two agree on integers that leave room for the sums
    ([updateConfigPosition_integers]). *)
Definition updateConfigPosition (configId : string) (x y : Z)
    (state : FlowState) : FlowState :=
  match find (λ n, String.eqb (node_id n) configId) (configNodes state) with
  | None => state
  | Some cn =>
      let deltaX := x - pos_x (node_position cn) in
      let deltaY := y - pos_y (node_position cn) in
      let updatedConfigNodes :=
        map (λ n, if String.eqb (node_id n) configId
                  then with_position n {| pos_x := x; pos_y := y |}
                  else n) (configNodes state) in
      let updatedImageNodes :=
        map (λ n, if String.eqb (img_configId (node_data n)) configId
                  then with_position n
                         {| pos_x := pos_x (node_position n) + deltaX;
                            pos_y := pos_y (node_position n) + deltaY |}
                  else n) (imageNodes state) in
      set_nodes state updatedConfigNodes updatedImageNodes
  end.

Definition updateImageGenerated (imageId url duration : string)
    (blobId : option string) (state : FlowState) : FlowState :=
  set_nodes state (configNodes state)
    (map (λ n, if String.eqb (node_id n) imageId
               then with_data n
                      {| img_id := img_id (node_data n);
                         img_configId := img_configId (node_data n);
                         img_prompt := img_prompt (node_data n);
                         img_width := img_width (node_data n);
                         img_height := img_height (node_data n);
                         img_seed := img_seed (node_data n);
                         img_imageUrl := Some url;
                         img_imageBlobId := blobId;
                         img_duration := Some duration;
                         img_isLoading := false;
                         img_error := img_error (node_data n) |}
               else n) (imageNodes state)).

Definition updateImageError (imageId error : string) (state : FlowState)
    : FlowState :=
  set_nodes state (configNodes state)
    (map (λ n, if String.eqb (node_id n) imageId
               then with_data n
                      {| img_id := img_id (node_data n);
                         img_configId := img_configId (node_data n);
                         img_prompt := img_prompt (node_data n);
                         img_width := img_width (node_data n);
                         img_height := img_height (node_data n);
                         img_seed := img_seed (node_data n);
                         img_imageUrl := img_imageUrl (node_data n);
                         img_imageBlobId := img_imageBlobId (node_data n);
                         img_duration := img_duration (node_data n);
                         img_isLoading := false;
                         img_error := Some error |}
               else n) (imageNodes state)).

Definition setLightboxImage (imageId : option string) (state : FlowState)
    : FlowState :=
  {| configNodes := configNodes state; imageNodes := imageNodes state;
     previewConfig := previewConfig state;
     editingConfigId := editingConfigId state;
     isEditingModified := isEditingModified state;
     lightboxImageId := imageId;
     storageLimitState := storageLimitState state;
     nodeIdCounter := nodeIdCounter state;
     _hasHydrated := _hasHydrated state |}.

Definition setStorageLimitState (s : option StorageLimitState)
    (state : FlowState) : FlowState :=
  {| configNodes := configNodes state; imageNodes := imageNodes state;
     previewConfig := previewConfig state;
     editingConfigId := editingConfigId state;
     isEditingModified := isEditingModified state;
     lightboxImageId := lightboxImageId state;
     storageLimitState := s;
     nodeIdCounter := nodeIdCounter state;
     _hasHydrated := _hasHydrated state |}.

Definition clearStorageLimitState (state : FlowState) : FlowState :=
  setStorageLimitState None state.

(** The [blobIds] that [deleteConfig] collects. *)
Definition blobIdsOf (configId : string) (state : FlowState) : list string :=
  map (λ n, as_string (img_imageBlobId (node_data n)))
    (List.filter
       (λ n, String.eqb (img_configId (node_data n)) configId
             && truthy (img_imageBlobId (node_data n)))
       (imageNodes state)).

Definition deleteConfig (configId : string) (state : FlowState)
    : FlowState * list CacheCall :=
  let blobIds := blobIdsOf configId state in
  let calls :=
    if (0 <? length blobIds)%nat then [call_deleteBlobs blobIds] else [] in
  (set_nodes state
     (List.filter (λ n, negb (String.eqb (node_id n) configId))
        (configNodes state))
     (List.filter
        (λ n, negb (String.eqb (img_configId (node_data n)) configId))
        (imageNodes state)),
   calls).

Definition clearAll (state : FlowState) : FlowState * list CacheCall :=
  ({| configNodes := []; imageNodes := [];
      previewConfig := None;
      editingConfigId := None;
      isEditingModified := false;
      lightboxImageId := None;
      storageLimitState := storageLimitState state;
      nodeIdCounter := 0;
      _hasHydrated := _hasHydrated state |},
   [call_clearAllBlobs]).

(** *** Derived views *)

(** [Node[]] holds nodes of both families; [className] is set on the
    preview node only. *)
Inductive NodeData : Type :=
  | data_config (d : ConfigData)
  | data_image (d : ImageData).

Record AnyNode : Type := mkAnyNode {
  any_id : string;
  any_type : NodeType;
  any_position : Position;
  any_data : NodeData;
  any_draggable : bool;
  any_className : option string;
}.

(** A [Node<ConfigData>] and a [Node<ImageData>] as elements of [Node[]]. *)
Definition of_config (n : Node ConfigData) : AnyNode :=
  {| any_id := node_id n; any_type := node_type n;
     any_position := node_position n; any_data := data_config (node_data n);
     any_draggable := node_draggable n; any_className := None |}.

Definition of_image (n : Node ImageData) : AnyNode :=
  {| any_id := node_id n; any_type := node_type n;
     any_position := node_position n; any_data := data_image (node_data n);
     any_draggable := node_draggable n; any_className := None |}.

Definition getAllNodes (state : FlowState) : list AnyNode :=
  let nodes :=
    map of_config (configNodes state) ++ map of_image (imageNodes state) in
  match previewConfig state with
  | Some preview =>
      let position := getNextConfigPosition state in
      nodes ++ [ {| any_id := cfg_id preview;
                    any_type := configNode;
                    any_position := position;
                    any_data := data_config preview;
                    any_draggable := false;
                    any_className := Some "preview-node" |} ]
  | None => nodes
  end.

(** The fields of [Edge] that [getAllEdges] fills in. *)
Record Edge : Type := mkEdge {
  edge_id : string;
  edge_source : string;
  edge_target : string;
  edge_type : string;
  edge_stroke : string;
  edge_strokeWidth : Q;
}.

Definition getAllEdges (state : FlowState) : list Edge :=
  map (λ imageNode,
         {| edge_id :=
              "edge-" +:+ img_configId (node_data imageNode)
              +:+ "-" +:+ node_id imageNode;
            edge_source := img_configId (node_data imageNode);
            edge_target := node_id imageNode;
            edge_type := "smoothstep";
            edge_stroke := "#3f3f46";
            edge_strokeWidth := 1.5%Q |})
      (imageNodes state).

End FlowStore.

(* ===================================================================== *)
(** ** flowStore.ts: positions and batch counts as the numbers they are *)
(* ===================================================================== *)

(** [FlowStore] holds positions as integers: that is what [confirmConfig]
    computes from list lengths and loop counters.  The coordinates that
    [updateConfigPosition] receives come from the canvas and are fractions
    in general, and the function computes on them.  This module has the
    state with its positions as binary64 numbers and
    [updateConfigPosition] on it; [of_state] embeds the states of
    [FlowStore].  It also has the loop of [confirmConfig] over a batch
    count that is any number. *)

Module FlowStore64.

Import Binary64.

Record Position : Type := mkPosition { pos_x : number; pos_y : number }.

Record Node (D : Type) : Type := mkNode {
  node_id : string;
  node_type : FlowStore.NodeType;
  node_position : Position;
  node_data : D;
  node_draggable : bool;
}.
Arguments mkNode {D}.
Arguments node_id {D}.
Arguments node_type {D}.
Arguments node_position {D}.
Arguments node_data {D}.
Arguments node_draggable {D}.

Record FlowState : Type := mkFlowState {
  configNodes : list (Node FlowStore.ConfigData);
  imageNodes : list (Node FlowStore.ImageData);
  previewConfig : option FlowStore.ConfigData;
  editingConfigId : option string;
  isEditingModified : bool;
  lightboxImageId : option string;
  storageLimitState : option FlowStore.StorageLimitState;
  nodeIdCounter : Z;
  _hasHydrated : bool;
}.

(** [{ ...n, position: p }] *)
Definition with_position {D : Type} (n : Node D) (p : Position) : Node D :=
  {| node_id := node_id n; node_type := node_type n; node_position := p;
     node_data := node_data n; node_draggable := node_draggable n |}.

(** [set({ configNodes, imageNodes })] *)
Definition set_nodes (state : FlowState)
    (cs : list (Node FlowStore.ConfigData))
    (ims : list (Node FlowStore.ImageData)) : FlowState :=
  {| configNodes := cs; imageNodes := ims;
     previewConfig := previewConfig state;
     editingConfigId := editingConfigId state;
     isEditingModified := isEditingModified state;
     lightboxImageId := lightboxImageId state;
     storageLimitState := storageLimitState state;
     nodeIdCounter := nodeIdCounter state;
     _hasHydrated := _hasHydrated state |}.

Definition updateConfigPosition (configId : string) (x y : number)
    (state : FlowState) : FlowState :=
  match find (λ n, String.eqb (node_id n) configId) (configNodes state) with
  | None => state
  | Some cn =>
      let deltaX := sub x (pos_x (node_position cn)) in
      let deltaY := sub y (pos_y (node_position cn)) in
      let updatedConfigNodes :=
        map (λ n, if String.eqb (node_id n) configId
                  then with_position n {| pos_x := x; pos_y := y |}
                  else n) (configNodes state) in
      let updatedImageNodes :=
        map (λ n, if String.eqb
                       (FlowStore.img_configId (node_data n)) configId
                  then with_position n
                         {| pos_x := add (pos_x (node_position n)) deltaX;
                            pos_y := add (pos_y (node_position n)) deltaY |}
                  else n) (imageNodes state) in
      set_nodes state updatedConfigNodes updatedImageNodes
  end.

(** [for (let i = 0; i < configToConfirm.batchCount; i++)] of
    [confirmConfig] with [batchCount] any number: the values that [i] takes
    from [i] on, [None] when the loop makes more than [fuel] passes. *)
Fixpoint batch_indices (fuel : nat) (i batchCount : number)
    : option (list number) :=
  if ltb i batchCount then
    match fuel with
    | O => None
    | S fuel' =>
        option_map (cons i) (batch_indices fuel' (add i (of_Z 1)) batchCount)
    end
  else Some [].

(** The states of [FlowStore] among these. *)
Definition of_position (p : FlowStore.Position) : Position :=
  {| pos_x := of_Z (FlowStore.pos_x p); pos_y := of_Z (FlowStore.pos_y p) |}.

Definition of_node {D : Type} (n : FlowStore.Node D) : Node D :=
  {| node_id := FlowStore.node_id n;
     node_type := FlowStore.node_type n;
     node_position := of_position (FlowStore.node_position n);
     node_data := FlowStore.node_data n;
     node_draggable := FlowStore.node_draggable n |}.

Definition of_state (state : FlowStore.FlowState) : FlowState :=
  {| configNodes := map of_node (FlowStore.configNodes state);
     imageNodes := map of_node (FlowStore.imageNodes state);
     previewConfig := FlowStore.previewConfig state;
     editingConfigId := FlowStore.editingConfigId state;
     isEditingModified := FlowStore.isEditingModified state;
     lightboxImageId := FlowStore.lightboxImageId state;
     storageLimitState := FlowStore.storageLimitState state;
     nodeIdCounter := FlowStore.nodeIdCounter state;
     _hasHydrated := FlowStore._hasHydrated state |}.

End FlowStore64.

(* ===================================================================== *)
(** ** The lightbox: navigation over the images of the store *)
(* ===================================================================== *)

Module Lightbox.

Import ImageBlobStore FlowStore.

(** [n.id === lightboxImageId], the latter a [string | null]. *)
Definition is_id (lightboxImageId : option string) (n : Node ImageData)
    : bool :=
  match lightboxImageId with
  | Some id => String.eqb (node_id n) id
  | None => false
  end.

(** [Array.prototype.findIndex]: the first index that passes, or -1. *)
Fixpoint findIndex {A : Type} (p : A → bool) (l : list A) : Z :=
  match l with
  | [] => -1
  | a :: l' => if p a then 0 else
               let i := findIndex p l' in if i <? 0 then -1 else i + 1
  end.

(** [array[i]] for a number [i]: [undefined] out of range. *)
Definition at_index {A : Type} (l : list A) (i : Z) : option A :=
  if i <? 0 then None else l !! Z.to_nat i.

(** [imageNodes.find((n) => n.id === lightboxImageId)] *)
Definition currentImage (state : FlowState) : option (Node ImageData) :=
  find (is_id (lightboxImageId state)) (imageNodes state).

(** [imageNodes.filter((n) => n.data.imageUrl || n.data.imageBlobId)] *)
Definition imagesWithUrls (state : FlowState) : list (Node ImageData) :=
  List.filter
    (λ n, truthy (img_imageUrl (node_data n))
          || truthy (img_imageBlobId (node_data n)))
    (imageNodes state).

Definition handleClose (state : FlowState) : FlowState :=
  setLightboxImage None state.

(** [handlePrev] and [handleNext] return [None] where the source would
    raise a [TypeError] by reading [.id] of [undefined]. *)
Definition handlePrev (state : FlowState) : option FlowState :=
  let imgs := imagesWithUrls state in
  let len := Z.of_nat (length imgs) in
  if len <=? 1 then Some state
  else
    let currentIdx := findIndex (is_id (lightboxImageId state)) imgs in
    let prevIdx := Z.rem (currentIdx - 1 + len) len in
    match at_index imgs prevIdx with
    | Some n => Some (setLightboxImage (Some (node_id n)) state)
    | None => None
    end.

Definition handleNext (state : FlowState) : option FlowState :=
  let imgs := imagesWithUrls state in
  let len := Z.of_nat (length imgs) in
  if len <=? 1 then Some state
  else
    let currentIdx := findIndex (is_id (lightboxImageId state)) imgs in
    let nextIdx := Z.rem (currentIdx + 1) len in
    match at_index imgs nextIdx with
    | Some n => Some (setLightboxImage (Some (node_id n)) state)
    | None => None
    end.




End Lightbox.

(* ===================================================================== *)
(** ** Specification vocabulary *)
(* ===================================================================== *)

Import Binary64 ImageBlobStore FlowStore.
Local Open Scope async_scope.

(** *** Blob cache *)

(** The records of the ['meta'] store. *)
Definition records (w : World) : list BlobMeta := (map_to_list (meta w)).*2.

(** Number of entries and number of stored bytes of a cache state. *)
Definition entry_count (w : World) : Z := Z.of_nat (size (meta w)).
Definition total_bytes (w : World) : Z :=
  foldr (λ m sum, meta_size m + sum) 0 (records w).

Definition max_bytes : Z := 4096 * 1024 * 1024.

(** Key path ['id']: a record of ['meta'] is stored under its own [id]. *)
Definition keyed (w : World) : Prop :=
  ∀ k m, meta w !! k = Some m → meta_id m = k.

(** A ceiling stands in the way of a candidate of [k] bytes. *)
Definition over_limit (k : Z) (w : World) : Prop :=
  500 ≤ entry_count w ∨ max_bytes < total_bytes w + k.

(** [m] is a stored record and none was accessed earlier. *)
Definition oldest (w : World) (m : BlobMeta) : Prop :=
  meta w !! meta_id m = Some m
  ∧ ∀ k m', meta w !! k = Some m' →
            meta_lastAccessedAt m ≤ meta_lastAccessedAt m'.

(** Removal of one entry, binary and metadata, with its log line. *)
Definition evict (m : BlobMeta) (w : World) : World :=
  {| blobs := delete (meta_id m) (blobs w);
     meta := delete (meta_id m) (meta w);
     console := console w ++ [RemovedOldestBlob (meta_id m)] |}.

(** The eviction protocol in the words of the specification: while a
    ceiling is exceeded and an entry is left, remove an oldest one. *)
Inductive eviction (k : Z) : World → list BlobMeta → World → Prop :=
  | eviction_stop w :
      ¬ over_limit k w ∨ meta w = ∅ → eviction k w [] w
  | eviction_next w m ms w' :
      over_limit k w → oldest w m → eviction k (evict m w) ms w' →
      eviction k w (m :: ms) w'.

Definition accessed_le (a b : BlobMeta) : Prop :=
  meta_lastAccessedAt a ≤ meta_lastAccessedAt b.


(** Successive [getBlob] calls, each with the clock reading it observes. *)
Definition getBlobs (calls : list (string * Z)) (w : World) : World :=
  foldl (λ w c, (getBlob c.1 c.2 w).2) w calls.

(** The state invariant of the cache: key path, and one metadata record
    for each binary and conversely. *)
Definition consistent (w : World) : Prop :=
  keyed w ∧ dom (blobs w) = dom (meta w).




(** *** Capacity of the cache *)






(** *** Calls that overlap *)



(** *** A database that rejects requests *)

(** The database that holds [w], is not open yet and rejects the requests
    that [rej] says. *)
Definition database (w : World) (rej : Rejecting.Request → nat → bool)
    : Rejecting.Db :=
  {| Rejecting.world := w; Rejecting.dbInstance := false;
     Rejecting.rejects := rej; Rejecting.issued := 0;
     Rejecting.errors := [] |}.

(** No request is rejected. *)
Definition never_rejects (r : Rejecting.Request) (n : nat) : bool := false.

Definition quiet (d : Rejecting.Db) : Prop :=
  ∀ r n, Rejecting.rejects d r n = false.

(** Every delete request is rejected; every other request is served. *)
Definition deletes_fail (r : Rejecting.Request) (n : nat) : bool :=
  match r with
  | Rejecting.req_delete_blobs | Rejecting.req_delete_meta => true
  | _ => false
  end.

Definition rejects_deletes (d : Rejecting.Db) : Prop :=
  ∀ r n, Rejecting.rejects d r n = deletes_fail r n.

(** On a database that rejects nothing, the promise [p] is fulfilled with
    the value of [c], does to the stores what [c] does, and logs no
    error. *)
Definition refines {A : Type} (p : Rejecting.Promise A) (c : Async A)
    : Prop :=
  ∀ d, quiet d →
    ∃ d', p d = (Rejecting.fulfilled (c (Rejecting.world d)).1, d')
          ∧ Rejecting.world d' = (c (Rejecting.world d)).2
          ∧ quiet d'
          ∧ Rejecting.errors d' = Rejecting.errors d.

(** *** Example cache states *)

Definition blob_of_size (n : Z) : Blob :=
  {| blob_size := n; blob_body := "" |}.

(** One entry stored at time 1. *)
Definition one_entry : World :=
  (storeBlob "a" (blob_of_size 7) 1 1 emptyWorld).2.

(** Three entries; ["b"] was accessed first, then ["c"], then ["a"]. *)
Definition three_entries : World :=
  (storeBlob "c" (blob_of_size 30) 3 5
     (storeBlob "b" (blob_of_size 20) 2 2
        (storeBlob "a" (blob_of_size 10) 1 9 emptyWorld).2).2).2.

(** The blobs of the images ["image-3"] and ["image-5"]. *)
Definition two_blobs : World :=
  (storeBlob "image-5" (blob_of_size 50) 4 4
     (storeBlob "image-3" (blob_of_size 30) 3 3 emptyWorld).2).2.

(** 500 entries of one byte each. *)
Definition full_cache : World :=
  foldr (λ i w, (storeBlob ("image-" +:+ pretty i) (blob_of_size 1) i i w).2)
    emptyWorld (seqZ 1 500).



(** *** Runs of the graph store *)

(** The calls a client can make on the store. *)
Inductive Action : Type :=
  | SetPreviewConfig (config : option PreviewConfigInput) (now : Z)
  | ConfirmConfig
  | LoadConfigForEditing (configId : string)
  | ClearEditing
  | SetEditingModified (modified : bool)
  | UpdateConfigPosition (configId : string) (x y : Z)
  | UpdateImageGenerated (imageId url duration : string)
      (blobId : option string)
  | UpdateImageError (imageId error : string)
  | SetLightboxImage (imageId : option string)
  | SetStorageLimitState (s : option StorageLimitState)
  | ClearStorageLimitState
  | DeleteConfig (configId : string)
  | ClearAll.

(** One call: the next state and the cache calls it started. *)
Definition step (a : Action) (state : FlowState)
    : FlowState * list CacheCall :=
  match a with
  | SetPreviewConfig config now => (setPreviewConfig config now state, [])
  | ConfirmConfig => ((confirmConfig state).2, [])
  | LoadConfigForEditing c => ((loadConfigForEditing c state).2, [])
  | ClearEditing => (clearEditing state, [])
  | SetEditingModified m => (setEditingModified m state, [])
  | UpdateConfigPosition c x y => (updateConfigPosition c x y state, [])
  | UpdateImageGenerated i u d b => (updateImageGenerated i u d b state, [])
  | UpdateImageError i e => (updateImageError i e state, [])
  | SetLightboxImage i => (setLightboxImage i state, [])
  | SetStorageLimitState s => (setStorageLimitState s state, [])
  | ClearStorageLimitState => (clearStorageLimitState state, [])
  | DeleteConfig c => deleteConfig c state
  | ClearAll => clearAll state
  end.

Definition run (actions : list Action) (state : FlowState) : FlowState :=
  foldl (λ st a, (step a st).1) state actions.

(** The image nodes built by the [confirmConfig] calls of a run. *)
Fixpoint created (actions : list Action) (state : FlowState)
    : list (Node ImageData) :=
  match actions with
  | [] => []
  | a :: rest =>
      match a, previewConfig state with
      | ConfirmConfig, Some c => newImageNodes state c
      | _, _ => []
      end ++ created rest (step a state).1
  end.

(** The previews that the [confirmConfig] calls of a run confirmed. *)
Fixpoint confirmed (actions : list Action) (state : FlowState)
    : list ConfigData :=
  match actions with
  | [] => []
  | a :: rest =>
      match a, previewConfig state with
      | ConfirmConfig, Some c => [c]
      | _, _ => []
      end ++ confirmed rest (step a state).1
  end.

(** *** Graph store *)

Definition config_ids (st : FlowState) : list string :=
  map node_id (configNodes st).
Definition image_ids (st : FlowState) : list string :=
  map node_id (imageNodes st).

(** The identifiers of all nodes of the graph. *)
Definition node_ids (st : FlowState) : list string :=
  config_ids st ++ image_ids st.

(** The owning configuration of an image node. *)
Definition owner (n : Node ImageData) : string := img_configId (node_data n).

(** Every image node is owned by a configuration node of the graph. *)
Definition owners_present (st : FlowState) : Prop :=
  ∀ n, n ∈ imageNodes st → owner n ∈ config_ids st.

(** An image node holds the blob reference [s]: its [imageBlobId] is the
    string [s] and passes the truthiness test by which the application
    tells a reference from its absence. *)
Definition holds_blob (n : Node ImageData) (s : string) : Prop :=
  img_imageBlobId (node_data n) = Some s ∧ s ≠ "".

(** The cache once the calls that were started have run. *)
Definition runCalls (calls : list CacheCall) (w : World) : World :=
  foldl (λ w c, (runCacheCall c w).2) w calls.

Definition sum_batchCount (cs : list ConfigData) : Z :=
  foldr (λ c sum, cfg_batchCount c + sum) 0 cs.

(** Calls that preview a non-negative batch count (or preview nothing). *)
Definition batch_ok (a : Action) : Prop :=
  match a with
  | SetPreviewConfig (Some c) _ => 0 ≤ in_batchCount c
  | _ => True
  end.

(** Calls other than drags. *)
Definition no_drag (a : Action) : Prop :=
  match a with
  | UpdateConfigPosition _ _ _ => False
  | _ => True
  end.

(** Calls that delete no node. *)
Definition keeps_nodes (a : Action) : Prop :=
  match a with
  | DeleteConfig _ | ClearAll => False
  | _ => True
  end.

(** Calls other than [confirmConfig], [deleteConfig] and [clearAll] keep
    the ids of the nodes. *)
Definition keeps_ids (a : Action) : Prop :=
  match a with
  | ConfirmConfig | DeleteConfig _ | ClearAll => False
  | _ => True
  end.

(** [s] is the id with the given prefix minted from a counter value
    between 1 and [counter]. *)
Definition minted (prefix : string) (counter : Z) (s : string) : Prop :=
  ∃ k, s = prefix +:+ pretty k ∧ 0 < k ≤ counter.

(** The invariant behind the distinctness of the ids. *)
Definition fresh (st : FlowState) : Prop :=
  0 ≤ nodeIdCounter st
  ∧ NoDup (config_ids st) ∧ NoDup (image_ids st)
  ∧ Forall (minted "config-" (nodeIdCounter st)) (config_ids st)
  ∧ Forall (minted "image-" (nodeIdCounter st)) (image_ids st)
  ∧ ∀ cfg, previewConfig st = Some cfg → 0 ≤ cfg_batchCount cfg.

(** Two nodes that differ at most in their position. *)
Definition same_but_position {D : Type} (n n' : Node D) : Prop :=
  node_id n' = node_id n ∧ node_type n' = node_type n
  ∧ node_data n' = node_data n ∧ node_draggable n' = node_draggable n.

(** Two states that differ at most in their node lists. *)
Definition same_but_nodes (st st' : FlowState) : Prop :=
  previewConfig st' = previewConfig st
  ∧ editingConfigId st' = editingConfigId st
  ∧ isEditingModified st' = isEditingModified st
  ∧ lightboxImageId st' = lightboxImageId st
  ∧ storageLimitState st' = storageLimitState st
  ∧ nodeIdCounter st' = nodeIdCounter st
  ∧ _hasHydrated st' = _hasHydrated st.

(** *** Families of nodes *)

(** Image node [n] is the child of index [i] of configuration node [cn]:
    its id follows the id of [cn] by [1 + i], its seed is the seed of [cn]
    plus [i], it sits in the column of [cn], [220 + i * 280] below it, and
    it copies the prompt and the size of [cn]. *)
Definition child_of (cn : Node ConfigData) (n : Node ImageData) (i : Z)
    : Prop :=
  0 ≤ i < cfg_batchCount (node_data cn)
  ∧ (∃ k, node_id cn = "config-" +:+ pretty k
          ∧ node_id n = "image-" +:+ pretty (k + 1 + i))
  ∧ owner n = node_id cn
  ∧ img_id (node_data n) = node_id n
  ∧ img_seed (node_data n) = add (cfg_seed (node_data cn)) (of_Z i)
  ∧ node_position n
    = {| pos_x := pos_x (node_position cn);
         pos_y := pos_y (node_position cn) + 220 + i * 280 |}
  ∧ img_prompt (node_data n) = cfg_prompt (node_data cn)
  ∧ img_width (node_data n) = cfg_width (node_data cn)
  ∧ img_height (node_data n) = cfg_height (node_data cn).

(** Every image node has its owner among the configuration nodes and sits
    in the owner's column, [220 + i * 280] below it, for a batch index
    [0 <= i < batchCount]. *)
Definition beneath (st : FlowState) : Prop :=
  ∀ n, n ∈ imageNodes st →
    ∃ cn i,
      cn ∈ configNodes st ∧ node_id cn = owner n
      ∧ 0 ≤ i < cfg_batchCount (node_data cn)
      ∧ node_position n
        = {| pos_x := pos_x (node_position cn);
             pos_y := pos_y (node_position cn) + 220 + i * 280 |}.

(** Every image node is a child of a configuration node of the graph, and
    the configuration nodes are confirmed ones. *)
Definition families (st : FlowState) : Prop :=
  (∀ cn, cn ∈ configNodes st →
         cfg_id (node_data cn) = node_id cn
         ∧ cfg_isPreview (node_data cn) = false
         ∧ node_type cn = configNode)
  ∧ ∀ n, n ∈ imageNodes st →
         node_type n = imageNode
         ∧ ∃ cn i, cn ∈ configNodes st ∧ child_of cn n i.

(** The preview carries the number the next configuration will get. *)
Definition preview_numbered (st : FlowState) : Prop :=
  ∀ cfg, previewConfig st = Some cfg →
         cfg_id cfg = "preview-" +:+ pretty (nodeIdCounter st + 1)
         ∧ cfg_isPreview cfg = true.

(** The ids of the image nodes owned by [c], in the order of the list. *)
Definition children_ids (c : string) (st : FlowState) : list string :=
  map node_id (List.filter (λ n, String.eqb (owner n) c) (imageNodes st)).

(** Every configuration node has its whole batch: the image nodes it owns
    are those numbered [1 + i] after it, for [i] from 0 up to its batch
    count, in that order. *)
Definition whole_batches (st : FlowState) : Prop :=
  ∀ cn k, cn ∈ configNodes st → node_id cn = "config-" +:+ pretty k →
          0 ≤ cfg_batchCount (node_data cn)
          ∧ children_ids (node_id cn) st
            = map (λ i, "image-" +:+ pretty (k + 1 + i))
                (seqZ 0 (cfg_batchCount (node_data cn))).

(** No hyphen occurs in the string. *)
Fixpoint no_dash (s : string) : Prop :=
  match s with
  | EmptyString => True
  | String ch s' => String ch EmptyString ≠ "-" ∧ no_dash s'
  end.

(** Two states that differ at most in [storageLimitState] and in
    [_hasHydrated], the two fields that [clearAll] leaves alone. *)
Definition same_graph (st st' : FlowState) : Prop :=
  configNodes st' = configNodes st ∧ imageNodes st' = imageNodes st
  ∧ previewConfig st' = previewConfig st
  ∧ editingConfigId st' = editingConfigId st
  ∧ isEditingModified st' = isEditingModified st
  ∧ lightboxImageId st' = lightboxImageId st
  ∧ nodeIdCounter st' = nodeIdCounter st.

(** The image id [s] has been minted and no node with that id is
    loading. *)
Definition settled (s : string) (st : FlowState) : Prop :=
  minted "image-" (nodeIdCounter st) s
  ∧ ∀ n, n ∈ imageNodes st → node_id n = s →
         img_isLoading (node_data n) = false.

(** *** Positions as numbers *)

(** Every coordinate of the state is at most [b] in absolute value. *)
Definition within (b : Z) (st : FlowState) : Prop :=
  (∀ n, n ∈ configNodes st →
        Z.abs (pos_x (node_position n)) ≤ b
        ∧ Z.abs (pos_y (node_position n)) ≤ b)
  ∧ (∀ n, n ∈ imageNodes st →
          Z.abs (pos_x (node_position n)) ≤ b
          ∧ Z.abs (pos_y (node_position n)) ≤ b).

(** Two nodes that differ at most in their position. *)
Definition same_but_position64 {D : Type} (n n' : FlowStore64.Node D)
    : Prop :=
  FlowStore64.node_id n' = FlowStore64.node_id n
  ∧ FlowStore64.node_type n' = FlowStore64.node_type n
  ∧ FlowStore64.node_data n' = FlowStore64.node_data n
  ∧ FlowStore64.node_draggable n' = FlowStore64.node_draggable n.

(** Two states that differ at most in their node lists. *)
Definition same_but_nodes64 (st st' : FlowStore64.FlowState) : Prop :=
  FlowStore64.previewConfig st' = FlowStore64.previewConfig st
  ∧ FlowStore64.editingConfigId st' = FlowStore64.editingConfigId st
  ∧ FlowStore64.isEditingModified st' = FlowStore64.isEditingModified st
  ∧ FlowStore64.lightboxImageId st' = FlowStore64.lightboxImageId st
  ∧ FlowStore64.storageLimitState st' = FlowStore64.storageLimitState st
  ∧ FlowStore64.nodeIdCounter st' = FlowStore64.nodeIdCounter st
  ∧ FlowStore64._hasHydrated st' = FlowStore64._hasHydrated st.

(** The owning configuration of an image node. *)
Definition owner64 (n : FlowStore64.Node ImageData) : string :=
  img_configId (FlowStore64.node_data n).

(** The x coordinates of the node lists. *)
Definition config_xs (st : FlowStore64.FlowState) : list number :=
  map (λ n, FlowStore64.pos_x (FlowStore64.node_position n))
    (FlowStore64.configNodes st).
Definition image_xs (st : FlowStore64.FlowState) : list number :=
  map (λ n, FlowStore64.pos_x (FlowStore64.node_position n))
    (FlowStore64.imageNodes st).

(** *** Example graph states *)

Definition preview_of (batchCount seed : Z) : PreviewConfigInput :=
  {| in_prompt := "a lighthouse at dusk"; in_width := 1024;
     in_height := 768; in_batchCount := batchCount;
     in_seed := of_Z seed |}.

(** A preview with [batchCount = 3] and [seed = 10] on the empty graph. *)
Definition previewed : FlowState :=
  setPreviewConfig (Some (preview_of 3 10)) 1700000000000 initialState.

(** A preview with [batchCount = 3] and [seed = 2^53]. *)
Definition previewed_large_seed : FlowState :=
  setPreviewConfig (Some (preview_of 3 (2 ^ 53))) 1700000000000 initialState.

(** One configuration with two images, the second with a stored blob,
    followed by a second configuration with one image. *)
Definition two_configs : list Action :=
  [ SetPreviewConfig (Some (preview_of 2 10)) 1700000000000;
    ConfirmConfig;
    UpdateImageGenerated "image-3" "blob:3" "1.2s" (Some "image-3");
    SetPreviewConfig (Some (preview_of 1 50)) 1700000000500;
    ConfirmConfig;
    UpdateImageGenerated "image-5" "blob:5" "0.9s" (Some "image-5") ].

(** One configuration dragged to the origin, with its two images. *)
Definition at_origin : list Action :=
  [ SetPreviewConfig (Some (preview_of 2 10)) 1700000000000;
    ConfirmConfig;
    UpdateConfigPosition "config-1" 0 0 ].

(** A preview with [batchCount = -1] and one with [batchCount = 3], each
    confirmed. *)
Definition negative_then_three : list Action :=
  [ SetPreviewConfig (Some (preview_of (-1) 10)) 1700000000000;
    ConfirmConfig;
    SetPreviewConfig (Some (preview_of 3 20)) 1700000000500;
    ConfirmConfig ].


(** Calls that neither delete nor drag a configuration. *)
Definition keeps_row (a : Action) : Prop :=
  match a with
  | DeleteConfig _ | UpdateConfigPosition _ _ _ => False
  | _ => True
  end.

(** The configuration nodes stand in a row: the one at index [j] of the
    list is at [(100 + 350 * j, 100)]. *)
Definition in_row (st : FlowState) : Prop :=
  ∀ (j : nat) cn, configNodes st !! j = Some cn →
    node_position cn
    = {| pos_x := 100 + Z.of_nat j * 350; pos_y := 100 |}.

(** Two configurations confirmed, the first deleted, a third confirmed. *)
Definition confirm_after_delete : list Action :=
  [ SetPreviewConfig (Some (preview_of 1 10)) 1700000000000; ConfirmConfig;
    SetPreviewConfig (Some (preview_of 1 20)) 1700000000500; ConfirmConfig;
    DeleteConfig "config-1";
    SetPreviewConfig (Some (preview_of 1 30)) 1700000001000; ConfirmConfig ].

(* ===================================================================== *)
(** ** Arithmetic on numbers that hold integers *)
(* ===================================================================== *)

Section Binary64Arithmetic.

Import SpecFloat.

(** The number of binary digits. *)
Lemma digits2_pos_bounds (p : positive) :
  2 ^ (Zpos (digits2_pos p) - 1) ≤ Zpos p < 2 ^ Zpos (digits2_pos p).
Proof.
  induction p as [p IH|p IH|]; cbn [digits2_pos].
  - rewrite Pos2Z.inj_succ.
    replace (Z.succ (Z.pos (digits2_pos p)) - 1)
      with (Z.succ (Z.pos (digits2_pos p) - 1)) by lia.
    rewrite !Z.pow_succ_r by lia. lia.
  - rewrite Pos2Z.inj_succ.
    replace (Z.succ (Z.pos (digits2_pos p)) - 1)
      with (Z.succ (Z.pos (digits2_pos p) - 1)) by lia.
    rewrite !Z.pow_succ_r by lia. lia.
  - cbn. lia.
Qed.

Lemma digits2_pos_unique (p : positive) (d : Z) :
  2 ^ (d - 1) ≤ Zpos p < 2 ^ d → Zpos (digits2_pos p) = d.
Proof.
  intros [Hlo Hhi]. pose proof (digits2_pos_bounds p) as [Hlo' Hhi'].
  assert (0 < d).
  { destruct (Z.lt_trichotomy d 0) as [?|[->|?]]; [|cbn in Hhi; lia|done].
    rewrite Z.pow_neg_r in Hhi by done. lia. }
  destruct (Z.lt_trichotomy (Zpos (digits2_pos p)) d) as [Hlt|[->|Hgt]];
    [|done|].
  - assert (2 ^ Zpos (digits2_pos p) ≤ 2 ^ (d - 1))
      by (apply Z.pow_le_mono_r; lia).
    lia.
  - assert (2 ^ d ≤ 2 ^ (Zpos (digits2_pos p) - 1))
      by (apply Z.pow_le_mono_r; lia).
    lia.
Qed.

Lemma digits2_pos_shift (m M : positive) (r : Z) :
  0 ≤ r → Zpos m = Zpos M * 2 ^ r →
  Zpos (digits2_pos m) = Zpos (digits2_pos M) + r.
Proof.
  intros Hr E. apply digits2_pos_unique.
  pose proof (digits2_pos_bounds M) as [Hlo Hhi].
  rewrite E.
  replace (Zpos (digits2_pos M) + r - 1)
    with (Zpos (digits2_pos M) - 1 + r) by lia.
  rewrite !Z.pow_add_r by lia.
  assert (0 < 2 ^ r) by (apply Z.pow_pos_nonneg; lia).
  nia.
Qed.

Lemma iter_xO_pow (p k : positive) :
  Zpos (Pos.iter xO p k) = Zpos p * 2 ^ Zpos k.
Proof.
  induction k as [|k IH] using Pos.peano_ind.
  - cbn. lia.
  - rewrite Pos.iter_succ, Pos2Z.inj_succ, Z.pow_succ_r by lia.
    rewrite Pos2Z.inj_xO, IH. lia.
Qed.

Lemma iter_pos_iter {A : Type} (f : A → A) (n : positive) (x : A) :
  SpecFloat.iter_pos f n x = Pos.iter f x n.
Proof.
  revert x. induction n as [n IH|n IH|]; intros x; cbn.
  - rewrite !IH. by rewrite <- !Pos.iter_swap.
  - by rewrite !IH.
  - done.
Qed.

Lemma shr_exact (M r : positive) :
  SpecFloat.iter_pos shr_1 r {| shr_m := Zpos (Pos.iter xO M r);
                     shr_r := false; shr_s := false |}
  = {| shr_m := Zpos M; shr_r := false; shr_s := false |}.
Proof.
  rewrite iter_pos_iter.
  induction r as [|r IH] using Pos.peano_ind.
  - done.
  - rewrite (Pos.iter_succ r _ xO M), Pos.iter_succ_r. cbn. exact IH.
Qed.


Lemma round_normal (s : bool) (M : positive) (E : Z) :
  Zpos (digits2_pos M) = 53 → -1074 ≤ E ≤ 971 →
  binary_round_aux prec emax s (Zpos M) E loc_Exact = S754_finite s M E.
Proof.
  intros Hd HE. unfold binary_round_aux, shr_fexp.
  cbn [Zdigits2 shr_record_of_loc]. rewrite Hd.
  unfold fexp, emin, prec, emax.
  replace (Z.max (53 + E - 53) (3 - 1024 - 53) - E) with 0 by lia.
  cbn [shr shr_m loc_of_shr_record round_nearest_even Zdigits2
         shr_record_of_loc].
  rewrite Hd.
  replace (Z.max (53 + E - 53) (3 - 1024 - 53) - E) with 0 by lia.
  cbn [shr shr_m].
  destruct (Z.leb_spec E (1024 - 53)); [done|lia].
Qed.

(** A mantissa with more than 53 digits whose low digits are zero. *)
Lemma round_down (s : bool) (m M : positive) (E r : Z) :
  Zpos (digits2_pos M) = 53 → -1074 ≤ E ≤ 971 → 0 ≤ r →
  Zpos m = Zpos M * 2 ^ r →
  binary_round prec emax s m (E - r) = S754_finite s M E.
Proof.
  intros Hd HE Hr Hm.
  pose proof (digits2_pos_shift m M r Hr Hm) as Hdm. rewrite Hd in Hdm.
  unfold binary_round. rewrite Hdm.
  unfold fexp at 1, emin, prec, emax.
  replace (Z.max (53 + r + (E - r) - 53) (3 - 1024 - 53)) with E by lia.
  unfold shl_align.
  destruct r as [|r|r]; [| |lia].
  - replace (E - (E - 0)) with 0 by lia. cbn [shl_align].
    replace (E - 0) with E by lia.
    assert (m = M) as -> by lia. by apply round_normal.
  - replace (E - (E - Zpos r)) with (Zpos r) by lia.
    assert (m = Pos.iter xO M r) as ->.
    { apply Pos2Z.inj. by rewrite iter_xO_pow. }
    unfold binary_round_aux, shr_fexp. cbn [Zdigits2 shr_record_of_loc].
    rewrite Hdm. unfold fexp, emin, prec, emax.
    replace (Z.max (53 + Zpos r + (E - Zpos r) - 53) (3 - 1024 - 53)
             - (E - Zpos r)) with (Zpos r) by lia.
    cbn [shr]. rewrite shr_exact.
    cbn [shr_m loc_of_shr_record round_nearest_even Zdigits2
           shr_record_of_loc].
    rewrite Hd.
    replace (E - Zpos r + Zpos r) with E by lia.
    replace (Z.max (53 + E - 53) (3 - 1024 - 53) - E) with 0 by lia.
    cbn [shr shr_m].
    destruct (Z.leb_spec E (1024 - 53)); [done|lia].
Qed.

(** A mantissa with fewer than 53 digits. *)
Lemma round_up (s : bool) (m : positive) (E t : Z) :
  0 < t → Zpos (digits2_pos m) + t = 53 → -1074 ≤ E ≤ 971 →
  binary_round prec emax s m (E + t)
  = S754_finite s (Pos.iter xO m (Z.to_pos t)) E.
Proof.
  intros Ht Hd HE. unfold binary_round.
  unfold fexp at 1, emin, prec, emax.
  replace (Z.max (Zpos (digits2_pos m) + (E + t) - 53) (3 - 1024 - 53))
    with E by lia.
  unfold shl_align. destruct t as [|t|t]; [lia| |lia].
  replace (E - (E + Zpos t)) with (Zneg t) by lia. cbn [Z.to_pos].
  apply round_normal; [|done].
  rewrite (digits2_pos_shift _ m (Zpos t)); [lia|lia|apply iter_xO_pow].
Qed.


Lemma digits2_pos_le_53 (N : positive) :
  Zpos N < 2 ^ 53 → Zpos (digits2_pos N) ≤ 53.
Proof.
  intros HN. pose proof (digits2_pos_bounds N) as [Hlo _].
  destruct (Z.le_gt_cases (Zpos (digits2_pos N)) 53) as [?|Hgt]; [done|].
  assert (2 ^ 53 ≤ 2 ^ (Zpos (digits2_pos N) - 1))
    by (apply Z.pow_le_mono_r; lia).
  lia.
Qed.

(** The binary64 value of a positive integer below 2^53: a mantissa of 53
    digits and an exponent between -52 and 0. *)
Lemma round_integer (N : positive) :
  Zpos N < 2 ^ 53 →
  ∃ M E,
    (∀ s, binary_round prec emax s N 0 = S754_finite s M E)
    ∧ Zpos (digits2_pos M) = 53 ∧ -52 ≤ E ≤ 0
    ∧ Zpos M = Zpos N * 2 ^ (- E).
Proof.
  intros HN. pose proof (digits2_pos_le_53 N HN) as Hd.
  destruct (decide (Zpos (digits2_pos N) = 53)) as [E53|Hne].
  - exists N, 0. split; [|split; [done|split; [lia|cbn; lia]]].
    intros s. apply (round_down s N N 0 0); [done|lia|lia|cbn; lia].
  - exists (Pos.iter xO N (Z.to_pos (53 - Zpos (digits2_pos N)))),
      (Zpos (digits2_pos N) - 53).
    assert (Ht : 0 < 53 - Zpos (digits2_pos N)) by lia.
    split; [|split; [|split; [lia|]]].
    + intros s.
      pose proof (round_up s N (Zpos (digits2_pos N) - 53)
                    (53 - Zpos (digits2_pos N))) as H.
      replace (Zpos (digits2_pos N) - 53 + (53 - Zpos (digits2_pos N)))
        with 0 in H by lia.
      apply H; lia.
    + rewrite (digits2_pos_shift _ N (53 - Zpos (digits2_pos N))); [lia|lia|].
      rewrite iter_xO_pow, Z2Pos.id by lia. done.
    + rewrite iter_xO_pow, Z2Pos.id by lia. f_equal. f_equal. lia.
Qed.

(** An integer below 2^53 written with trailing zero digits rounds to
    itself. *)
Lemma round_shifted (s : bool) (q N : positive) (k : Z) :
  Zpos N < 2 ^ 53 → 0 ≤ k ≤ 900 → Zpos q = Zpos N * 2 ^ k →
  binary_round prec emax s q (- k) = binary_round prec emax s N 0.
Proof.
  intros HN Hk Hq.
  destruct (round_integer N HN) as (M & E & Hform & HdM & HE & HM).
  rewrite Hform.
  destruct (Z.le_gt_cases (- E) k) as [Hle|Hgt].
  - replace (- k) with (E - (k + E)) by lia.
    apply round_down; [done|lia|lia|].
    rewrite Hq, HM, <- Z.mul_assoc, <- Z.pow_add_r by lia.
    f_equal. f_equal. lia.
  - replace (- k) with (E + (- E - k)) by lia.
    rewrite round_up; [|lia| |lia].
    + f_equal. apply Pos2Z.inj.
      rewrite iter_xO_pow, Z2Pos.id, Hq, HM by lia.
      rewrite <- Z.mul_assoc, <- Z.pow_add_r by lia. f_equal. f_equal. lia.
    + pose proof (digits2_pos_shift q N k ltac:(lia) Hq) as Hdq.
      pose proof (digits2_pos_shift M N (- E) ltac:(lia) HM) as HdM'.
      lia.
Qed.

Lemma normalize_shifted (n k : Z) :
  Z.abs n < 2 ^ 53 → 0 ≤ k ≤ 900 →
  binary_normalize prec emax (n * 2 ^ k) (- k) false = of_Z n.
Proof.
  intros Hn Hk. assert (Hp : 0 < 2 ^ k) by (apply Z.pow_pos_nonneg; lia).
  unfold of_Z. destruct n as [|N|N]; [done|..].
  - destruct (Zpos N * 2 ^ k) as [|q|q] eqn:Hq; [lia| |lia].
    cbn [binary_normalize]. apply round_shifted; [lia|done|done].
  - destruct (Zneg N * 2 ^ k) as [|q|q] eqn:Hq; [lia|lia|].
    cbn [binary_normalize]. apply round_shifted; [lia|done|lia].
Qed.

(** The shape of the binary64 value of a non-zero integer below 2^53. *)
Lemma of_Z_finite (n : Z) :
  n ≠ 0 → Z.abs n < 2 ^ 53 →
  ∃ s M E,
    of_Z n = S754_finite s M E ∧ -52 ≤ E ≤ 0
    ∧ cond_Zopp s (Zpos M) = n * 2 ^ (- E).
Proof.
  intros Hn0 Hn. unfold of_Z. destruct n as [|N|N]; [done|..].
  - destruct (round_integer N ltac:(lia)) as (M & E & Hform & _ & HE & HM).
    exists false, M, E. cbn [binary_normalize cond_Zopp]. by rewrite Hform.
  - destruct (round_integer N ltac:(lia)) as (M & E & Hform & _ & HE & HM).
    exists true, M, E. cbn [binary_normalize cond_Zopp]. rewrite Hform.
    split; [done|]. split; [done|]. lia.
Qed.

Lemma of_Z_opp (n : Z) :
  n ≠ 0 → Z.abs n < 2 ^ 53 → of_Z (- n) = SFopp (of_Z n).
Proof.
  intros Hn0 Hn. unfold of_Z. destruct n as [|N|N]; [done|..].
  - destruct (round_integer N) as (M & E & Hform & _); [lia|].
    unfold binary_normalize, Z.opp. rewrite !Hform. reflexivity.
  - destruct (round_integer N) as (M & E & Hform & _); [lia|].
    unfold binary_normalize, Z.opp. rewrite !Hform. reflexivity.
Qed.

Lemma shl_align_fst (M : positive) (E ez : Z) :
  ez ≤ E → Zpos (fst (shl_align M E ez)) = Zpos M * 2 ^ (E - ez).
Proof.
  intros Hle. unfold shl_align. destruct (ez - E) as [|d|d] eqn:Hd.
  - replace (E - ez) with 0 by lia. cbn. lia.
  - lia.
  - cbn [fst]. rewrite iter_xO_pow. f_equal. f_equal. lia.
Qed.

Lemma aligned (s : bool) (M : positive) (E ez n : Z) :
  -52 ≤ E ≤ 0 → ez ≤ E → -52 ≤ ez →
  cond_Zopp s (Zpos M) = n * 2 ^ (- E) →
  cond_Zopp s (Zpos (fst (shl_align M E ez))) = n * 2 ^ (- ez).
Proof.
  intros HE Hle Hez Hn. rewrite shl_align_fst by done.
  replace (- ez) with (- E + (E - ez)) by lia.
  rewrite Z.pow_add_r, Z.mul_assoc, <- Hn by lia.
  destruct s; cbn [cond_Zopp]; lia.
Qed.

(** Additions and subtractions of integers are exact as long as the
    operands and the result are below 2^53 in absolute value. *)
Theorem add_of_Z (a b : Z) :
  Z.abs a < 2 ^ 53 → Z.abs b < 2 ^ 53 → Z.abs (a + b) < 2 ^ 53 →
  add (of_Z a) (of_Z b) = of_Z (a + b).
Proof.
  intros Ha Hb Hab.
  destruct (decide (a = 0)) as [->|Ha0].
  { rewrite Z.add_0_l. destruct (decide (b = 0)) as [->|Hb0]; [done|].
    destruct (of_Z_finite b Hb0 Hb) as (s & M & E & -> & _). done. }
  destruct (decide (b = 0)) as [->|Hb0].
  { rewrite Z.add_0_r.
    destruct (of_Z_finite a Ha0 Ha) as (s & M & E & -> & _). done. }
  destruct (of_Z_finite a Ha0 Ha) as (sa & Ma & Ea & -> & HEa & HMa).
  destruct (of_Z_finite b Hb0 Hb) as (sb & Mb & Eb & -> & HEb & HMb).
  unfold add. cbn [SFadd].
  rewrite (aligned sa Ma Ea (Z.min Ea Eb) a) by (done || lia).
  rewrite (aligned sb Mb Eb (Z.min Ea Eb) b) by (done || lia).
  rewrite <- Z.mul_add_distr_r.
  pose proof (normalize_shifted (a + b) (- Z.min Ea Eb)) as H.
  rewrite Z.opp_involutive in H. apply H; lia.
Qed.

Theorem sub_of_Z (a b : Z) :
  Z.abs a < 2 ^ 53 → Z.abs b < 2 ^ 53 → Z.abs (a - b) < 2 ^ 53 →
  sub (of_Z a) (of_Z b) = of_Z (a - b).
Proof.
  intros Ha Hb Hab.
  destruct (decide (b = 0)) as [->|Hb0].
  { rewrite Z.sub_0_r. destruct (decide (a = 0)) as [->|Ha0]; [done|].
    destruct (of_Z_finite a Ha0 Ha) as (s & M & E & -> & _). done. }
  destruct (of_Z_finite b Hb0 Hb) as (sb & Mb & Eb & Eqb & HEb & HMb).
  destruct (decide (a = 0)) as [->|Ha0].
  { rewrite Z.sub_0_l, of_Z_opp, Eqb by done. done. }
  destruct (of_Z_finite a Ha0 Ha) as (sa & Ma & Ea & -> & HEa & HMa).
  rewrite Eqb. unfold sub. cbn [SFsub].
  rewrite (aligned sa Ma Ea (Z.min Ea Eb) a) by (done || lia).
  rewrite (aligned sb Mb Eb (Z.min Ea Eb) b) by (done || lia).
  rewrite <- Z.mul_sub_distr_r.
  pose proof (normalize_shifted (a - b) (- Z.min Ea Eb)) as H.
  rewrite Z.opp_involutive in H. apply H; lia.
Qed.


(** *** Comparison of integers *)

Lemma of_Z_forms (N : positive) :
  Zpos N < 2 ^ 53 →
  ∃ M E,
    of_Z (Zpos N) = S754_finite false M E
    ∧ of_Z (Zneg N) = S754_finite true M E
    ∧ 2 ^ 52 ≤ Zpos M < 2 ^ 53 ∧ -52 ≤ E ≤ 0
    ∧ Zpos M = Zpos N * 2 ^ (- E).
Proof.
  intros HN.
  destruct (round_integer N HN) as (M & E & Hform & Hd & HE & HM).
  exists M, E. unfold of_Z. cbn [binary_normalize]. rewrite !Hform.
  pose proof (digits2_pos_bounds M) as Hb. rewrite Hd in Hb.
  repeat split; (done || lia).
Qed.

Lemma compare_forms (N1 N2 M1 M2 : positive) (E1 E2 : Z) :
  2 ^ 52 ≤ Zpos M1 < 2 ^ 53 → 2 ^ 52 ≤ Zpos M2 < 2 ^ 53 →
  E1 ≤ 0 → E2 ≤ 0 →
  Zpos M1 = Zpos N1 * 2 ^ (- E1) → Zpos M2 = Zpos N2 * 2 ^ (- E2) →
  match E1 ?= E2 with
  | Lt => Lt
  | Gt => Gt
  | Eq => Pos.compare_cont Eq M1 M2
  end = (Zpos N1 ?= Zpos N2).
Proof.
  intros HM1 HM2 HE1 HE2 H1 H2.
  assert (Hlt : ∀ (n1 n2 m1 m2 e1 e2 : Z),
            m1 < 2 ^ 53 → 2 ^ 52 ≤ m2 → e2 ≤ 0 → e1 < e2 →
            0 < n1 → 0 < n2 →
            m1 = n1 * 2 ^ (- e1) → m2 = n2 * 2 ^ (- e2) → n1 < n2).
  { intros n1 n2 m1 m2 e1 e2 Hm1 Hm2 He2 He Hn1 Hn2 E1' E2'.
    replace (- e1) with (- e2 + (e2 - e1)) in E1' by lia.
    rewrite Z.pow_add_r in E1' by lia.
    assert (HA : 0 < 2 ^ (- e2)) by (apply Z.pow_pos_nonneg; lia).
    assert (HB : 2 ^ 1 ≤ 2 ^ (e2 - e1)) by (apply Z.pow_le_mono_r; lia).
    change (2 ^ 1) with 2 in HB.
    assert (H53 : 2 ^ 53 = 2 * 2 ^ 52) by done.
    destruct (Z.lt_ge_cases n1 n2) as [?|Hge]; [done|].
    assert (n2 * 2 ^ (- e2) ≤ n1 * 2 ^ (- e2)) by nia.
    assert (2 ^ 52 * 2 ≤ n1 * 2 ^ (- e2) * 2 ^ (e2 - e1)) by nia.
    lia. }
  destruct (Z.compare_spec E1 E2) as [->|He|He].
  - change (Pos.compare_cont Eq M1 M2) with (Zpos M1 ?= Zpos M2).
    rewrite H1, H2.
    assert (0 < 2 ^ (- E2)) by (apply Z.pow_pos_nonneg; lia).
    destruct (Z.compare_spec (Zpos N1 * 2 ^ (- E2)) (Zpos N2 * 2 ^ (- E2)));
      destruct (Z.compare_spec (Zpos N1) (Zpos N2)); (done || nia).
  - symmetry. apply Z.compare_lt_iff.
    apply (Hlt _ _ (Zpos M1) (Zpos M2) E1 E2); (done || lia).
  - symmetry. apply Z.compare_gt_iff.
    apply (Hlt _ _ (Zpos M2) (Zpos M1) E2 E1); (done || lia).
Qed.

(** On integers below [2^53] the comparison of binary64 numbers is the
    comparison of the integers. *)
Lemma compare_of_Z (a b : Z) :
  Z.abs a < 2 ^ 53 → Z.abs b < 2 ^ 53 →
  SFcompare (of_Z a) (of_Z b) = Some (a ?= b).
Proof.
  intros Ha Hb.
  destruct a as [|A|A]; destruct b as [|B|B]; try done;
    try (destruct (of_Z_forms A ltac:(lia))
           as (MA & EA & HpA & HnA & HMA & HEA & HA));
    try (destruct (of_Z_forms B ltac:(lia))
           as (MB & EB & HpB & HnB & HMB & HEB & HB));
    rewrite ?HpA, ?HnA, ?HpB, ?HnB; try done.
  - cbn [SFcompare]. f_equal.
    apply (compare_forms A B MA MB EA EB); (done || lia).
  - cbn [SFcompare]. f_equal.
    change (Zneg A ?= Zneg B) with (CompOpp (Zpos A ?= Zpos B)).
    rewrite <- (compare_forms A B MA MB EA EB) by (done || lia).
    by destruct (EA ?= EB).
Qed.

Theorem ltb_of_Z (a b : Z) :
  Z.abs a < 2 ^ 53 → Z.abs b < 2 ^ 53 → ltb (of_Z a) (of_Z b) = (a <? b).
Proof.
  intros Ha Hb. unfold ltb, SFltb, Z.ltb. by rewrite compare_of_Z.
Qed.

(** The loop of [confirmConfig] over an integer batch count makes a pass
    for each of 0, 1, ... below it, and none when it is negative. *)
Lemma batch_indices_integer (fuel : nat) (i b : Z) :
  0 ≤ i → Z.abs b < 2 ^ 53 → i ≤ Z.max b 0 → b - i ≤ Z.of_nat fuel →
  FlowStore64.batch_indices fuel (of_Z i) (of_Z b)
  = Some (map of_Z (seqZ i (b - i))).
Proof.
  revert i. induction fuel as [|fuel IH]; intros i Hi Hb Hib Hf.
  - cbn. rewrite ltb_of_Z by lia.
    destruct (Z.ltb_spec i b); [lia|].
    by rewrite seqZ_nil by lia.
  - cbn [FlowStore64.batch_indices]. rewrite ltb_of_Z by lia.
    destruct (Z.ltb_spec i b) as [Hlt|Hge].
    + rewrite add_of_Z by lia. rewrite IH by lia.
      rewrite (seqZ_cons i (b - i)) by lia. cbn.
      do 4 f_equal; lia.
    + by rewrite seqZ_nil by lia.
Qed.

End Binary64Arithmetic.

(* ===================================================================== *)
(** ** Properties of the blob cache *)
(* ===================================================================== *)

Section BlobCache.

Implicit Types (w : World) (m : BlobMeta) (k : Z).

Lemma keyed_empty : keyed emptyWorld.
Proof. intros k m H. cbn in H. by rewrite lookup_empty in H. Qed.

Lemma keyed_put_meta w m : keyed w → keyed (put_meta m w).2.
Proof.
  intros Hk key m' H. cbn in H.
  destruct (decide (meta_id m = key)) as [<-|Hne].
  - rewrite lookup_insert_eq in H. by inversion H.
  - rewrite lookup_insert_ne in H by done. by apply Hk.
Qed.

Lemma keyed_delete w id b c :
  keyed w → keyed {| blobs := b; meta := delete id (meta w); console := c |}.
Proof.
  intros Hk key m' H. cbn in H.
  apply lookup_delete_Some in H as [_ H]. by apply Hk.
Qed.

Lemma keyed_storeBlob w id blob t1 t2 :
  keyed w → keyed (storeBlob id blob t1 t2 w).2.
Proof.
  intros Hk. unfold storeBlob, bind, ret. cbn.
  intros key m' H. cbn in H.
  destruct (decide (id = key)) as [<-|Hne].
  - rewrite lookup_insert_eq in H. by inversion H.
  - rewrite lookup_insert_ne in H by done. by apply Hk.
Qed.

Lemma getTotalStorageSize_eq w : getTotalStorageSize w = (total_bytes w, w).
Proof.
  unfold getTotalStorageSize, getAll_meta, bind, ret, total_bytes, records.
  f_equal.
  generalize ((map_to_list (meta w)).*2) as l.
  assert (G : ∀ (l : list BlobMeta) a,
             foldl (λ sum m, sum + meta_size m) a l
             = a + foldr (λ m sum, meta_size m + sum) 0 l).
  { induction l as [|x l IH]; intros a; cbn; [lia|]. rewrite IH. lia. }
  intros l. by rewrite G.
Qed.

Lemma getBlobCount_eq w : getBlobCount w = (entry_count w, w).
Proof. reflexivity. Qed.


Lemma elem_of_records w m :
  m ∈ records w ↔ ∃ key, meta w !! key = Some m.
Proof.
  unfold records. rewrite list_elem_of_fmap. split.
  - intros [[key m'] [-> H]]. exists key. by apply elem_of_map_to_list.
  - intros [key H]. exists (key, m). split; [done|].
    by apply elem_of_map_to_list.
Qed.

Lemma index_first_None (l : list BlobMeta) : index_first l = None → l = [].
Proof.
  destruct l as [|x l]; [done|]. cbn.
  destruct (index_first l) as [b|]; [|discriminate].
  by destruct (index_before x b).
Qed.

Lemma index_before_false (a b : BlobMeta) :
  index_before a b = false → accessed_le b a.
Proof.
  unfold index_before, accessed_le. intros H.
  apply orb_false_iff in H as [H _]. lia.
Qed.

Lemma index_before_true (a b : BlobMeta) :
  index_before a b = true → accessed_le a b.
Proof.
  unfold index_before, accessed_le. intros H.
  apply orb_true_iff in H as [H|H]; [lia|].
  apply andb_true_iff in H as [H _]. lia.
Qed.

Lemma index_first_Some (l : list BlobMeta) m :
  index_first l = Some m → m ∈ l ∧ ∀ m', m' ∈ l → accessed_le m m'.
Proof.
  revert m. induction l as [|x l IH]; intros m H; [done|].
  cbn in H. destruct (index_first l) as [b|] eqn:Hb.
  - destruct (IH b eq_refl) as [Hin Hmin].
    destruct (index_before x b) eqn:Hxb; inversion H; subst m; clear H.
    + split; [left|]. intros m' Hm'.
      apply elem_of_cons in Hm' as [->|Hm']; [unfold accessed_le; lia|].
      apply index_before_true in Hxb. specialize (Hmin _ Hm').
      unfold accessed_le in *. lia.
    + split; [by right|]. intros m' Hm'.
      apply elem_of_cons in Hm' as [->|Hm']; [|by apply Hmin].
      by apply index_before_false.
  - inversion H; subst m. apply index_first_None in Hb as ->.
    split; [left|]. intros m' Hm'.
    apply elem_of_cons in Hm' as [->|Hm']; [unfold accessed_le; lia|].
    by apply elem_of_nil in Hm'.
Qed.

(** What one call of [removeOldestBlob] does. *)
Lemma removeOldestBlob_spec w :
  keyed w →
  (meta w = ∅ ∧ removeOldestBlob w = (false, w))
  ∨ (∃ m, oldest w m ∧ removeOldestBlob w = (true, evict m w)).
Proof.
  intros Hk. unfold removeOldestBlob, openCursor_lastAccessedAt, bind.
  fold (records w).
  destruct (index_first (records w)) as [m|] eqn:Hf.
  - right. exists m. split; [|reflexivity].
    apply index_first_Some in Hf as [Hin Hmin].
    apply elem_of_records in Hin as [key Hkey].
    pose proof (Hk _ _ Hkey) as <-. split; [done|].
    intros k' m' Hm'. apply Hmin, elem_of_records. by exists k'.
  - left. split; [|reflexivity].
    apply index_first_None in Hf. unfold records in Hf.
    apply fmap_nil_inv in Hf. by apply map_to_list_empty_iff.
Qed.

Lemma bind_eq {A B : Type} (c : Async A) (f : A → Async B) w a w' :
  c w = (a, w') → bind c f w = f a w'.
Proof. intros H. unfold bind. by rewrite H. Qed.

Lemma over_limit_test k w :
  (MAX_IMAGES <=? entry_count w) || (max_bytes <? total_bytes w + k) = true
  ↔ over_limit k w.
Proof.
  unfold over_limit, MAX_IMAGES. rewrite orb_true_iff.
  rewrite Z.leb_le, Z.ltb_lt. done.
Qed.

Lemma keyed_evict w m : keyed w → keyed (evict m w).
Proof. apply keyed_delete. Qed.

Lemma size_evict w m :
  oldest w m → size (meta (evict m w)) = pred (size (meta w)).
Proof. intros [H _]. cbn. by apply map_size_delete_Some. Qed.

Lemma oldest_nonempty w m : oldest w m → (0 < size (meta w))%nat.
Proof.
  intros [H _]. destruct (size (meta w)) eqn:E; [|lia].
  apply map_size_empty_iff in E. rewrite E in H. by rewrite lookup_empty in H.
Qed.

(** The loop follows the eviction protocol, and fuel beyond the number of
    entries is never used up. *)
Lemma cleanupLoop_eviction fuel k w :
  keyed w → (size (meta w) < fuel)%nat →
  ∃ ms w',
    cleanupLoop fuel max_bytes k (entry_count w) (total_bytes w) w
    = (Some tt, w')
    ∧ eviction k w ms w'.
Proof.
  revert w. induction fuel as [|fuel IH]; intros w Hk Hf; [lia|].
  cbn [cleanupLoop].
  destruct ((MAX_IMAGES <=? entry_count w)
            || (max_bytes <? total_bytes w + k)) eqn:Hc.
  - apply over_limit_test in Hc.
    destruct (removeOldestBlob_spec w Hk) as [[He Hr]|[m [Ho Hr]]].
    + rewrite (bind_eq _ _ _ _ _ Hr). cbn.
      exists [], w. split; [done|]. constructor. by right.
    + rewrite (bind_eq _ _ _ _ _ Hr). cbn [negb].
      rewrite (bind_eq _ _ _ _ _ (getBlobCount_eq _)).
      rewrite (bind_eq _ _ _ _ _ (getTotalStorageSize_eq _)).
      destruct (IH (evict m w)) as (ms & w' & Hrun & Hev).
      * by apply keyed_evict.
      * rewrite size_evict by done. apply oldest_nonempty in Ho. lia.
      * exists (m :: ms), w'. split; [done|]. by econstructor.
  - exists [], w. split; [done|]. constructor. left.
    intros Ho. apply over_limit_test in Ho. congruence.
Qed.

Lemma cleanupForNewBlob_eviction fuel k w :
  keyed w → (size (meta w) < fuel)%nat →
  ∃ ms w',
    cleanupForNewBlob fuel k w = (Some true, w') ∧ eviction k w ms w'.
Proof.
  intros Hk Hf.
  destruct (cleanupLoop_eviction fuel k w Hk Hf) as (ms & w' & Hrun & Hev).
  exists ms, w'. split; [|done].
  unfold cleanupForNewBlob.
  rewrite (bind_eq _ _ _ _ _ (getBlobCount_eq _)).
  rewrite (bind_eq _ _ _ _ _ (getTotalStorageSize_eq _)).
  change (MAX_STORAGE_MB * 1024 * 1024) with max_bytes.
  by rewrite (bind_eq _ _ _ _ _ Hrun).
Qed.

(** Consequences of the protocol. *)

Lemma eviction_size k w ms w' :
  eviction k w ms w' → (length ms + size (meta w') = size (meta w))%nat.
Proof.
  induction 1 as [w _|w m ms w' _ Ho _ IH]; [done|].
  cbn [length]. rewrite size_evict in IH by done.
  apply oldest_nonempty in Ho. lia.
Qed.

Lemma eviction_final k w ms w' :
  eviction k w ms w' → ¬ over_limit k w' ∨ meta w' = ∅.
Proof. induction 1; done. Qed.

Lemma eviction_stored k w ms w' :
  eviction k w ms w' → ∀ m, m ∈ ms → ∃ key, meta w !! key = Some m.
Proof.
  induction 1 as [w _|w m ms w' _ Ho _ IH]; intros x Hx.
  - by apply elem_of_nil in Hx.
  - apply elem_of_cons in Hx as [->|Hx]; [exists (meta_id m); apply Ho|].
    destruct (IH _ Hx) as [key Hkey]. exists key. cbn in Hkey.
    by apply lookup_delete_Some in Hkey as [_ ?].
Qed.

Lemma eviction_sorted k w ms w' :
  eviction k w ms w' → StronglySorted accessed_le ms.
Proof.
  induction 1 as [w _|w m ms w' _ Ho Hev IH]; constructor; [done|].
  apply Forall_forall. intros x Hx.
  destruct (eviction_stored _ _ _ _ Hev _ Hx) as [key Hkey].
  cbn in Hkey. apply lookup_delete_Some in Hkey as [_ Hkey].
  destruct Ho as [_ Hmin]. by apply (Hmin key).
Qed.

Lemma eviction_console k w ms w' :
  eviction k w ms w' →
  console w' = console w ++ map (λ m, RemovedOldestBlob (meta_id m)) ms.
Proof.
  induction 1 as [w _|w m ms w' _ _ _ IH]; cbn.
  - by rewrite app_nil_r.
  - rewrite IH. cbn. by rewrite <- app_assoc.
Qed.




(** *** The state invariant *)



Lemma deleteBlob_eq id w :
  deleteBlob id w
  = (tt, {| blobs := delete id (blobs w); meta := delete id (meta w);
            console := console w |}).
Proof. reflexivity. Qed.


Lemma deleteBlobs_cons id ids w :
  deleteBlobs (id :: ids) w = deleteBlobs ids (deleteBlob id w).2.
Proof. reflexivity. Qed.





(** [getBlob] on a present binary with a metadata record, and otherwise. *)
Lemma getBlob_hit id now w blob m :
  blobs w !! id = Some blob → meta w !! id = Some m →
  getBlob id now w
  = (Some blob,
     {| blobs := blobs w;
        meta := <[meta_id m :=
                   {| meta_id := meta_id m; meta_size := meta_size m;
                      meta_createdAt := meta_createdAt m;
                      meta_lastAccessedAt := now |}]> (meta w);
        console := console w |}).
Proof.
  intros Hb Hm. unfold getBlob, get_blobs, get_meta, bind, ret.
  by rewrite Hb, Hm.
Qed.

Lemma getBlob_no_meta id now w blob :
  blobs w !! id = Some blob → meta w !! id = None →
  getBlob id now w = (Some blob, w).
Proof.
  intros Hb Hm. unfold getBlob, get_blobs, get_meta, bind, ret.
  by rewrite Hb, Hm.
Qed.

Lemma getBlob_miss id now w :
  blobs w !! id = None → getBlob id now w = (None, w).
Proof.
  intros Hb. unfold getBlob, get_blobs, get_meta, bind, ret. by rewrite Hb.
Qed.

Lemma consistent_getBlob id now w :
  consistent w → consistent (getBlob id now w).2.
Proof.
  intros [Hk Hd].
  destruct (blobs w !! id) as [blob|] eqn:Hb;
    [|by rewrite getBlob_miss].
  destruct (meta w !! id) as [m|] eqn:Hm;
    [|by rewrite (getBlob_no_meta _ _ _ blob)].
  rewrite (getBlob_hit _ _ _ blob m) by done. cbn.
  pose proof (Hk _ _ Hm) as Hid. split.
  - intros key m' H. cbn in H. rewrite Hid in H.
    destruct (decide (id = key)) as [<-|Hne].
    + rewrite lookup_insert_eq in H. inversion H. by cbn.
    + rewrite lookup_insert_ne in H by done. by apply Hk.
  - cbn. rewrite Hid, Hd. symmetry. by apply dom_insert_lookup_L.
Qed.

Lemma consistent_getBlobs calls w :
  consistent w → consistent (getBlobs calls w).
Proof.
  revert w. induction calls as [|c calls IH]; intros w H; [done|].
  cbn. by apply IH, consistent_getBlob.
Qed.







(** Every call keeps the state invariant, so every cache state that the
    module can produce from the empty database satisfies it. *)



(** *** Admission check *)

Lemma checkStorageLimit_eq k w :
  checkStorageLimit k w
  = (if 500 <=? entry_count w then
       Some {| needsCleanup := true; reason := Some reason_count;
               currentCount := entry_count w;
               currentSizeMB := sizeMB (total_bytes w) |}
     else if max_bytes <? total_bytes w + k then
       Some {| needsCleanup := true; reason := Some reason_size;
               currentCount := entry_count w;
               currentSizeMB := sizeMB (total_bytes w) |}
     else None, w).
Proof.
  unfold checkStorageLimit.
  rewrite (bind_eq _ _ _ _ _ (getBlobCount_eq _)).
  rewrite (bind_eq _ _ _ _ _ (getTotalStorageSize_eq _)).
  change (MAX_STORAGE_MB * 1024 * 1024) with max_bytes.
  change MAX_IMAGES with 500.
  destruct (500 <=? entry_count w); [done|].
  by destruct (max_bytes <? total_bytes w + k).
Qed.



(** The scenario of a full cache: the 501st entry is refused with reason
    ['count'] until the eviction has run, which removes the entry accessed
    first. *)
Example full_cache_scenario :
  let candidate := blob_of_size 1 in
  (∃ c, (checkStorageLimit 1 full_cache).1 = Some c
        ∧ needsCleanup c = true ∧ reason c = Some reason_count
        ∧ currentCount c = 500)
  ∧ storeBlobWithCleanup "image-501" candidate 501 501 full_cache
    = (cleanup_needed, full_cache)
  ∧ let w := (cleanupForNewBlob 501 1 full_cache).2 in
    console w = [RemovedOldestBlob "image-1"]
    ∧ entry_count w = 499
    ∧ (storeBlobWithCleanup "image-501" candidate 501 501 w).1
      = stored (Some "image-501").
Proof.
  cbv zeta. split; [eexists; split; [vm_compute; reflexivity|done]|].
  split; [|vm_compute; done].
  unfold storeBlobWithCleanup.
  rewrite (bind_eq _ _ _ _ _ (checkStorageLimit_eq _ _)).
  assert (E : (500 <=? entry_count full_cache) = true)
    by (vm_compute; reflexivity).
  by rewrite E.
Qed.

(** *** Storage statistics *)






Lemma getStorageInfo_eq w :
  getStorageInfo w
  = ({| info_count := entry_count w;
        info_totalSizeMB := sizeMB (total_bytes w);
        info_maxImages := 500;
        info_maxStorageMB := 4096;
        info_isNearLimit :=
          Qle_bool (inject_Z WARNING_THRESHOLD_PERCENT)
            ((inject_Z (entry_count w) / inject_Z MAX_IMAGES) * 100)%Q
          || Qle_bool (inject_Z WARNING_THRESHOLD_PERCENT)
               ((sizeMB (total_bytes w) / inject_Z MAX_STORAGE_MB) * 100)%Q
     |}, w).
Proof.
  unfold getStorageInfo.
  rewrite (bind_eq _ _ _ _ _ (getBlobCount_eq _)).
  by rewrite (bind_eq _ _ _ _ _ (getTotalStorageSize_eq _)).
Qed.






(** *** Eviction *)





(** The eviction on three entries: ["b"] (accessed at 2) goes first, then
    ["c"] (accessed at 5); ["a"] (accessed at 9) fits and stays. *)
Example cleanupForNewBlob_three_entries :
  console (cleanupForNewBlob 4 4294967280 three_entries).2
  = [RemovedOldestBlob "b"; RemovedOldestBlob "c"]
  ∧ (cleanupForNewBlob 4 4294967280 three_entries).1 = Some true
  ∧ records (cleanupForNewBlob 4 4294967280 three_entries).2
    = [mkMeta "a" 10 1 9].
Proof. vm_compute. done. Qed.

(** *** Reading a blob *)




End BlobCache.

(* ===================================================================== *)
(** ** The eviction on a database that rejects requests *)
(* ===================================================================== *)

Section Rejections.

Implicit Types (w : World) (d : Rejecting.Db) (k : Z).

(** *** Without rejections the catch handlers do not run *)

Lemma refines_ext {A : Type} (p : Rejecting.Promise A) (c c' : Async A) :
  (∀ w, c w = c' w) → refines p c → refines p c'.
Proof.
  intros E Hp d Hq. destruct (Hp d Hq) as (d' & H). exists d'.
  by rewrite <- E.
Qed.

Lemma refines_resolve {A : Type} (a : A) :
  refines (Rejecting.resolve a) (ret a).
Proof. intros d Hq. by exists d. Qed.

Lemma refines_await {A B : Type} (p : Rejecting.Promise A) (c : Async A)
    (q : A → Rejecting.Promise B) (f : A → Async B) :
  refines p c → (∀ a, refines (q a) (f a)) →
  refines (Rejecting.await p q) (bind c f).
Proof.
  intros Hp Hq d Hd. destruct (Hp d Hd) as (d1 & E1 & Hw1 & Hq1 & He1).
  destruct (Hq (c (Rejecting.world d)).1 d1 Hq1)
    as (d2 & E2 & Hw2 & Hq2 & He2).
  exists d2. unfold Rejecting.await, bind. rewrite E1, E2.
  rewrite Hw1 in *. destruct (c (Rejecting.world d)) as [a w'].
  cbn [fst snd] in *. split; [done|]. split; [done|]. split; [done|].
  congruence.
Qed.

Lemma refines_try {A : Type} (p h : Rejecting.Promise A) (c : Async A) :
  refines p c → refines (Rejecting.try_catch p h) c.
Proof.
  intros Hp d Hd. destruct (Hp d Hd) as (d1 & E1 & H). exists d1.
  unfold Rejecting.try_catch. by rewrite E1.
Qed.

Lemma refines_request {A : Type} (r : Rejecting.Request) (op : Async A) :
  refines (Rejecting.request r op) op.
Proof.
  intros d Hd. unfold Rejecting.request. rewrite Hd.
  destruct (op (Rejecting.world d)) as [a w'].
  eexists. split; [reflexivity|]. done.
Qed.

Lemma refines_getDB : refines Rejecting.getDB (ret tt).
Proof.
  intros d Hd. unfold Rejecting.getDB.
  destruct (Rejecting.dbInstance d); [by exists d|].
  unfold Rejecting.request. rewrite Hd. cbn.
  eexists. split; [reflexivity|]. done.
Qed.

Lemma refines_console_log (l : LogLine) :
  refines (Rejecting.console_log l) (console_log l).
Proof. intros d Hd. eexists. split; [reflexivity|]. done. Qed.

Lemma refines_getBlobCount : refines Rejecting.getBlobCount getBlobCount.
Proof.
  apply refines_try.
  apply (refines_ext _ (bind (ret tt) (λ _, count_meta))); [done|].
  apply refines_await; [apply refines_getDB|].
  intros _. apply refines_request.
Qed.

Lemma refines_getTotalStorageSize :
  refines Rejecting.getTotalStorageSize getTotalStorageSize.
Proof.
  apply refines_try.
  apply (refines_ext _ (bind (ret tt) (λ _, getTotalStorageSize)));
    [done|].
  apply refines_await; [apply refines_getDB|]. intros _.
  apply refines_await; [apply refines_request|]. intros allMeta.
  apply refines_resolve.
Qed.

Lemma refines_deleteBlob (id : string) :
  refines (Rejecting.deleteBlob id) (deleteBlob id).
Proof.
  apply refines_try.
  apply (refines_ext _ (bind (ret tt) (λ _, deleteBlob id))); [done|].
  apply refines_await; [apply refines_getDB|]. intros _.
  apply refines_await; [apply refines_request|]. intros _.
  apply refines_request.
Qed.

Lemma refines_removeOldestBlob :
  refines Rejecting.removeOldestBlob removeOldestBlob.
Proof.
  apply refines_try.
  apply (refines_ext _ (bind (ret tt) (λ _, removeOldestBlob))); [done|].
  apply refines_await; [apply refines_getDB|]. intros _.
  apply refines_await; [apply refines_request|]. intros [value|].
  - apply refines_await; [apply refines_deleteBlob|]. intros _.
    apply refines_await; [apply refines_console_log|]. intros _.
    apply refines_resolve.
  - apply refines_resolve.
Qed.

Lemma refines_cleanupLoop fuel mx k c t :
  refines (Rejecting.cleanupLoop fuel mx k c t) (cleanupLoop fuel mx k c t).
Proof.
  revert c t. induction fuel as [|fuel IH]; intros c t;
    cbn [Rejecting.cleanupLoop cleanupLoop];
    destruct ((MAX_IMAGES <=? c) || (mx <? t + k));
    try apply refines_resolve.
  apply refines_await; [apply refines_removeOldestBlob|]. intros removed.
  destruct (negb removed); [apply refines_resolve|].
  apply refines_await; [apply refines_getBlobCount|]. intros c'.
  apply refines_await; [apply refines_getTotalStorageSize|]. intros t'.
  apply IH.
Qed.

Lemma refines_cleanupForNewBlob fuel k :
  refines (Rejecting.cleanupForNewBlob fuel k) (cleanupForNewBlob fuel k).
Proof.
  apply refines_try. cbv zeta.
  apply refines_await; [apply refines_getBlobCount|]. intros c.
  apply refines_await; [apply refines_getTotalStorageSize|]. intros t.
  apply refines_await; [apply refines_cleanupLoop|]. intros [[]|];
    apply refines_resolve.
Qed.

(** *** With rejected deletes the loop makes no progress *)

Lemma reads_getBlobCount d :
  rejects_deletes d →
  ∃ d', Rejecting.getBlobCount d
        = (Rejecting.fulfilled (entry_count (Rejecting.world d)), d')
        ∧ Rejecting.world d' = Rejecting.world d
        ∧ rejects_deletes d'
        ∧ Rejecting.errors d' = Rejecting.errors d.
Proof.
  intros Hr.
  unfold Rejecting.getBlobCount, Rejecting.try_catch, Rejecting.await,
    Rejecting.getDB, Rejecting.request.
  destruct (Rejecting.dbInstance d); rewrite ?Hr; cbn; rewrite ?Hr; cbn;
    eexists; (split; [reflexivity|]); done.
Qed.

Lemma reads_getTotalStorageSize d :
  rejects_deletes d →
  ∃ d', Rejecting.getTotalStorageSize d
        = (Rejecting.fulfilled (total_bytes (Rejecting.world d)), d')
        ∧ Rejecting.world d' = Rejecting.world d
        ∧ rejects_deletes d'
        ∧ Rejecting.errors d' = Rejecting.errors d.
Proof.
  intros Hr.
  pose proof (getTotalStorageSize_eq (Rejecting.world d)) as E.
  unfold getTotalStorageSize, bind, ret, getAll_meta in E.
  injection E as E.
  unfold Rejecting.getTotalStorageSize, Rejecting.try_catch,
    Rejecting.await, Rejecting.getDB, Rejecting.request, getAll_meta,
    Rejecting.resolve.
  destruct (Rejecting.dbInstance d); rewrite ?Hr; cbn; rewrite ?Hr; cbn;
    rewrite E; eexists; (split; [reflexivity|]); done.
Qed.

Lemma swallowed_deleteBlob (id : string) d :
  rejects_deletes d →
  ∃ d', Rejecting.deleteBlob id d = (Rejecting.fulfilled tt, d')
        ∧ Rejecting.world d' = Rejecting.world d
        ∧ rejects_deletes d'
        ∧ Rejecting.errors d'
          = Rejecting.errors d ++ [Rejecting.FailedToDeleteBlob].
Proof.
  intros Hr.
  unfold Rejecting.deleteBlob, Rejecting.try_catch, Rejecting.await,
    Rejecting.getDB, Rejecting.request, Rejecting.console_error.
  destruct (Rejecting.dbInstance d); rewrite ?Hr; cbn; rewrite ?Hr; cbn;
    eexists; (split; [reflexivity|]); done.
Qed.

Lemma records_nonempty w : meta w ≠ ∅ → index_first (records w) ≠ None.
Proof.
  intros Hne Hf. apply index_first_None in Hf. apply Hne.
  unfold records in Hf. apply fmap_nil_inv in Hf.
  by apply map_to_list_empty_iff.
Qed.

Lemma idle_removeOldestBlob d :
  rejects_deletes d → meta (Rejecting.world d) ≠ ∅ →
  ∃ d', Rejecting.removeOldestBlob d = (Rejecting.fulfilled true, d')
        ∧ blobs (Rejecting.world d') = blobs (Rejecting.world d)
        ∧ meta (Rejecting.world d') = meta (Rejecting.world d)
        ∧ rejects_deletes d'
        ∧ Rejecting.errors d'
          = Rejecting.errors d ++ [Rejecting.FailedToDeleteBlob].
Proof.
  intros Hr Hne.
  destruct (index_first (records (Rejecting.world d))) as [value|] eqn:Hf;
    [|by apply records_nonempty in Hf].
  unfold Rejecting.removeOldestBlob, Rejecting.try_catch.
  unfold Rejecting.await at 1. unfold Rejecting.getDB, Rejecting.request.
  destruct (Rejecting.dbInstance d) eqn:Hopen.
  - unfold Rejecting.await at 1. unfold Rejecting.request.
    rewrite Hr. cbn [deletes_fail]. unfold openCursor_lastAccessedAt.
    fold (records (Rejecting.world d)). rewrite Hf.
    unfold Rejecting.await at 1.
    match goal with
    | |- context [Rejecting.deleteBlob ?i ?x] =>
        destruct (swallowed_deleteBlob i x) as (d1 & E1 & Hw1 & Hr1 & He1);
          [exact Hr|rewrite E1]
    end.
    cbn. eexists. split; [reflexivity|]. cbn. rewrite Hw1, He1. done.
  - rewrite Hr. cbn [deletes_fail ret].
    unfold Rejecting.await at 1. unfold Rejecting.request.
    cbn [Rejecting.rejects Rejecting.world Rejecting.issued].
    rewrite Hr. cbn [deletes_fail]. unfold openCursor_lastAccessedAt.
    fold (records (Rejecting.world d)). rewrite Hf.
    unfold Rejecting.await at 1.
    match goal with
    | |- context [Rejecting.deleteBlob ?i ?x] =>
        destruct (swallowed_deleteBlob i x) as (d1 & E1 & Hw1 & Hr1 & He1);
          [exact Hr|rewrite E1]
    end.
    cbn. eexists. split; [reflexivity|]. cbn. rewrite Hw1, He1. done.
Qed.

Lemma over_limit_meta k w w' :
  meta w' = meta w → over_limit k w → over_limit k w'.
Proof.
  unfold over_limit, entry_count, total_bytes, records. by intros ->.
Qed.

Lemma spinning_cleanupLoop fuel k d :
  rejects_deletes d → meta (Rejecting.world d) ≠ ∅ →
  over_limit k (Rejecting.world d) →
  ∃ d', Rejecting.cleanupLoop fuel max_bytes k
          (entry_count (Rejecting.world d))
          (total_bytes (Rejecting.world d)) d
        = (Rejecting.fulfilled None, d')
        ∧ blobs (Rejecting.world d') = blobs (Rejecting.world d)
        ∧ meta (Rejecting.world d') = meta (Rejecting.world d)
        ∧ length (Rejecting.errors d')
          = (length (Rejecting.errors d) + fuel)%nat.
Proof.
  revert d. induction fuel as [|fuel IH]; intros d Hr Hne Ho;
    cbn [Rejecting.cleanupLoop];
    rewrite (proj2 (over_limit_test k (Rejecting.world d)) Ho).
  { exists d. split; [done|]. split; [done|]. split; [done|]. lia. }
  destruct (idle_removeOldestBlob d Hr Hne)
    as (d1 & E1 & Hb1 & Hm1 & Hr1 & He1).
  destruct (reads_getBlobCount d1 Hr1) as (d2 & E2 & Hw2 & Hr2 & He2).
  destruct (reads_getTotalStorageSize d2 Hr2)
    as (d3 & E3 & Hw3 & Hr3 & He3).
  destruct (IH d3) as (d' & E' & Hb' & Hm' & He'); [done|..].
  { by rewrite Hw3, Hw2, Hm1. }
  { apply (over_limit_meta k (Rejecting.world d)); [|done].
    by rewrite Hw3, Hw2, Hm1. }
  exists d'. unfold Rejecting.await. rewrite E1. cbn [negb].
  rewrite E2, E3.
  assert (Ec : entry_count (Rejecting.world d1)
               = entry_count (Rejecting.world d3)).
  { unfold entry_count. by rewrite Hw3, Hw2. }
  assert (Et : total_bytes (Rejecting.world d2)
               = total_bytes (Rejecting.world d3)).
  { by rewrite Hw3. }
  rewrite Ec, Et, E'. split; [done|].
  rewrite Hb', Hm', Hw3, Hw2. split; [done|]. split; [done|].
  rewrite He', He3, He2, He1, length_app. cbn. lia.
Qed.

(** C5, on a database that rejects the delete requests and serves the
    others.  [deleteBlob] swallows the rejection, so [removeOldestBlob]
    logs a removal and returns [true] although the entry is still stored;
    the count and the total that the loop of [cleanupForNewBlob] reads
    next are the same, and the loop goes round again.  With an entry in
    the store and a ceiling in the way the call does not return, whatever
    fuel its loop is given: after [fuel] rounds the loop has not been
    left, no entry has been removed and [fuel] failed deletes have been
    logged. *)
Theorem cleanupForNewBlob_never_returns (k : Z) (d : Rejecting.Db)
    (fuel : nat) :
  rejects_deletes d → meta (Rejecting.world d) ≠ ∅ →
  over_limit k (Rejecting.world d) →
  (∃ d1, Rejecting.removeOldestBlob d = (Rejecting.fulfilled true, d1)
         ∧ blobs (Rejecting.world d1) = blobs (Rejecting.world d)
         ∧ meta (Rejecting.world d1) = meta (Rejecting.world d))
  ∧ ∃ d', Rejecting.cleanupForNewBlob fuel k d
          = (Rejecting.fulfilled None, d')
          ∧ blobs (Rejecting.world d') = blobs (Rejecting.world d)
          ∧ meta (Rejecting.world d') = meta (Rejecting.world d)
          ∧ length (Rejecting.errors d')
            = (length (Rejecting.errors d) + fuel)%nat.
Proof.
  intros Hr Hne Ho. split.
  - destruct (idle_removeOldestBlob d Hr Hne) as (d1 & E1 & Hb1 & Hm1 & _).
    by exists d1.
  - destruct (reads_getBlobCount d Hr) as (d1 & E1 & Hw1 & Hr1 & He1).
    destruct (reads_getTotalStorageSize d1 Hr1)
      as (d2 & E2 & Hw2 & Hr2 & He2).
    destruct (spinning_cleanupLoop fuel k d2) as (d' & E' & Hb' & Hm' & He');
      [done|by rewrite Hw2, Hw1|by rewrite Hw2, Hw1|].
    exists d'. unfold Rejecting.cleanupForNewBlob, Rejecting.try_catch.
    cbv zeta. unfold Rejecting.await. rewrite E1, E2.
    change (MAX_STORAGE_MB * 1024 * 1024) with max_bytes.
    rewrite <- Hw1, <- Hw2 at 1. rewrite <- Hw2, E'.
    split; [done|]. rewrite Hb', Hm', He', Hw2, Hw1, He2, He1. done.
Qed.

Lemma cleanupForNewBlob_never_returns_witness :
  ∃ d', Rejecting.cleanupForNewBlob 1000 4294967297
          (database one_entry deletes_fail)
        = (Rejecting.fulfilled None, d')
        ∧ meta (Rejecting.world d') = meta one_entry
        ∧ length (Rejecting.errors d') = 1000%nat.
Proof.
  destruct (cleanupForNewBlob_never_returns 4294967297
              (database one_entry deletes_fail) 1000)
    as (_ & d' & E & _ & Hm & He).
  - intros r n. reflexivity.
  - cbn. apply insert_non_empty.
  - right. vm_compute. reflexivity.
  - exists d'. split; [exact E|]. split; [exact Hm|exact He].
Defined.

(** *** Without rejections the eviction returns *)

(** X29.  On a database that rejects no request, every run of
    [cleanupForNewBlob] whose loop is given more fuel than there are
    entries returns [true] after removing entries one at a time, each an
    oldest entry of the store at that moment, so that the removed entries
    come in non-decreasing [lastAccessedAt] order; it removes at most as
    many entries as the store held, removes one only while a ceiling
    stands in the way, stops with both ceilings satisfied or with the
    store empty, and logs no error. *)
Theorem cleanupForNewBlob_returns_without_rejections (k : Z)
    (d : Rejecting.Db) (fuel : nat) :
  quiet d → keyed (Rejecting.world d) →
  (size (meta (Rejecting.world d)) < fuel)%nat →
  ∃ removed d',
    Rejecting.cleanupForNewBlob fuel k d
    = (Rejecting.fulfilled (Some true), d')
    ∧ eviction k (Rejecting.world d) removed (Rejecting.world d')
    ∧ Sorted accessed_le removed
    ∧ (length removed + size (meta (Rejecting.world d'))
       = size (meta (Rejecting.world d)))%nat
    ∧ console (Rejecting.world d')
      = console (Rejecting.world d)
        ++ map (λ m, RemovedOldestBlob (meta_id m)) removed
    ∧ (¬ over_limit k (Rejecting.world d')
       ∨ meta (Rejecting.world d') = ∅)
    ∧ Rejecting.errors d' = Rejecting.errors d.
Proof.
  intros Hq Hk Hf.
  destruct (cleanupForNewBlob_eviction fuel k (Rejecting.world d) Hk Hf)
    as (ms & w' & Hrun & Hev).
  destruct (refines_cleanupForNewBlob fuel k d Hq)
    as (d' & E & Hw & _ & He).
  rewrite Hrun in E, Hw. cbn [fst snd] in E, Hw.
  exists ms, d'. rewrite Hw. split; [done|]. split; [done|].
  pose proof (eviction_size _ _ _ _ Hev) as Hsize.
  split; [by eapply StronglySorted_Sorted, eviction_sorted|].
  split; [done|].
  split; [by eapply eviction_console|]. split; [by eapply eviction_final|].
  done.
Qed.

Lemma cleanupForNewBlob_returns_without_rejections_witness :
  ∃ removed d',
    Rejecting.cleanupForNewBlob 4 4294967280
      (database three_entries never_rejects)
    = (Rejecting.fulfilled (Some true), d')
    ∧ console (Rejecting.world d')
      = map (λ m, RemovedOldestBlob (meta_id m)) removed
    ∧ Sorted accessed_le removed
    ∧ Rejecting.errors d' = [].
Proof.
  destruct (cleanupForNewBlob_returns_without_rejections 4294967280
              (database three_entries never_rejects) 4)
    as (removed & d' & E & _ & Hs & _ & Hc & _ & He).
  - intros r n. reflexivity.
  - do 3 apply keyed_storeBlob. apply keyed_empty.
  - vm_compute. lia.
  - exists removed, d'. split; [exact E|]. split; [exact Hc|].
    split; [exact Hs|exact He].
Defined.

End Rejections.

(* ===================================================================== *)
(** ** Properties of the graph store *)
(* ===================================================================== *)

Section GraphStore.

Implicit Types (st : FlowState) (cfg : ConfigData) (c : string).

(** *** Confirming a preview *)

Lemma confirmConfig_Some st cfg :
  previewConfig st = Some cfg →
  confirmConfig st
  = (Some ("config-" +:+ pretty (nodeIdCounter st + 1)),
     {| configNodes := configNodes st ++ [newConfigNode st cfg];
        imageNodes := imageNodes st ++ newImageNodes st cfg;
        previewConfig := None;
        editingConfigId := None;
        isEditingModified := false;
        lightboxImageId := lightboxImageId st;
        storageLimitState := storageLimitState st;
        nodeIdCounter := nodeIdCounter st + 1 + cfg_batchCount cfg;
        _hasHydrated := _hasHydrated st |}).
Proof. intros H. unfold confirmConfig. by rewrite H. Qed.

Lemma confirmConfig_None st :
  previewConfig st = None → confirmConfig st = (None, st).
Proof. intros H. unfold confirmConfig. by rewrite H. Qed.

Lemma length_newImageNodes st cfg :
  length (newImageNodes st cfg) = Z.to_nat (cfg_batchCount cfg).
Proof. unfold newImageNodes. by rewrite length_map, length_seqZ. Qed.

Lemma lookup_newImageNodes st cfg (i : nat) n :
  newImageNodes st cfg !! i = Some n ↔
  n = newImageNode st cfg (Z.of_nat i) ∧ Z.of_nat i < cfg_batchCount cfg.
Proof.
  unfold newImageNodes. change (map ?f ?l) with (f <$> l).
  rewrite list_lookup_fmap. split.
  - intros H. apply fmap_Some in H as (j & Hj & ->).
    apply lookup_seqZ in Hj as [-> Hlt]. by rewrite Z.add_0_l.
  - intros [-> Hlt].
    assert (E : seqZ 0 (cfg_batchCount cfg) !! i = Some (Z.of_nat i)).
    { apply lookup_seqZ. split; [lia|done]. }
    by rewrite E.
Qed.

(** One call of a run and the image nodes it builds. *)
Lemma step_imageNodes_length a st :
  keeps_nodes a →
  length (imageNodes (step a st).1)
  = (length (imageNodes st)
     + length (match a, previewConfig st with
               | ConfirmConfig, Some c => newImageNodes st c
               | _, _ => []
               end))%nat.
Proof.
  intros Hk.
  destruct a; try done; cbn [step fst snd];
    try (destruct (previewConfig st); cbn; lia).
  - destruct config; destruct (previewConfig st); cbn; lia.
  - destruct (previewConfig st) as [cfg|] eqn:Hp.
    + rewrite (confirmConfig_Some _ cfg) by done. cbn. by rewrite length_app.
    + rewrite confirmConfig_None by done. cbn. lia.
  - unfold loadConfigForEditing.
    destruct (find _ _); destruct (previewConfig st); cbn; lia.
  - unfold updateConfigPosition.
    destruct (find _ _); destruct (previewConfig st); cbn;
      rewrite ?length_map; lia.
  - destruct (previewConfig st); cbn; rewrite length_map; lia.
  - destruct (previewConfig st); cbn; rewrite length_map; lia.
Qed.

Lemma run_cons a acts st : run (a :: acts) st = run acts (step a st).1.
Proof. reflexivity. Qed.

Lemma run_imageNodes_length acts st :
  Forall keeps_nodes acts →
  length (imageNodes (run acts st))
  = (length (imageNodes st) + length (created acts st))%nat.
Proof.
  revert st. induction acts as [|a acts IH]; intros st Hk.
  - cbn. lia.
  - apply Forall_cons in Hk as [Ha Hk].
    rewrite run_cons, IH by done. cbn [created].
    rewrite length_app, step_imageNodes_length by done. lia.
Qed.

Lemma created_length acts st :
  Forall (λ cfg, 0 ≤ cfg_batchCount cfg) (confirmed acts st) →
  Z.of_nat (length (created acts st)) = sum_batchCount (confirmed acts st).
Proof.
  revert st. induction acts as [|a acts IH]; intros st H; [done|].
  cbn [created confirmed] in *. apply Forall_app in H as [Ha H].
  rewrite length_app, Nat2Z.inj_add, IH by done.
  unfold sum_batchCount. rewrite foldr_app. fold (sum_batchCount).
  destruct a; try (cbn; lia).
  destruct (previewConfig st) as [cfg|]; [|cbn; lia].
  apply Forall_cons in Ha as [Ha _]. cbn.
  rewrite length_newImageNodes. fold (sum_batchCount (confirmed acts
    (confirmConfig st).2)). lia.
Qed.

(** C1, as the code has it.  With a preview whose batch count is an
    integer [b >= 0] and whose seed is [s], [confirmConfig] appends one
    configuration node and exactly [b] image nodes; image [i] is owned by
    the new configuration id and its seed is the binary64 sum of [s] and
    [i], which is the integer [s + i] whenever [s] is an integer with
    [|s| + b <= 2^53]; the preview is cleared and the new configuration id
    is returned.  Without a preview it returns [null] and the state is
    unchanged.  Over a run in which every confirmed preview has a
    non-negative integer batch count, the number of image nodes built
    equals the sum of the confirmed batch counts, and when no call deletes
    nodes that many image nodes were added to the graph.  The batch count
    is an integer in all of this: on the binary64 number [b], an integer
    with [0 <= b < 2^53], the loop [for (let i = 0; i < b; i++)] takes [i]
    through 0, 1, ..., [b - 1]. *)
Theorem confirmConfig_creates_batch :
  (∀ st cfg,
     previewConfig st = Some cfg → 0 ≤ cfg_batchCount cfg →
     let newId := "config-" +:+ pretty (nodeIdCounter st + 1) in
     let st' := (confirmConfig st).2 in
     (confirmConfig st).1 = Some newId
     ∧ previewConfig st' = None
     ∧ ∃ cnode inodes,
         configNodes st' = configNodes st ++ [cnode]
         ∧ node_id cnode = newId
         ∧ imageNodes st' = imageNodes st ++ inodes
         ∧ Z.of_nat (length inodes) = cfg_batchCount cfg
         ∧ ∀ (i : nat) n, inodes !! i = Some n →
             owner n = newId
             ∧ img_seed (node_data n)
               = add (cfg_seed cfg) (of_Z (Z.of_nat i))
             ∧ ∀ s, cfg_seed cfg = of_Z s →
                    Z.abs s + cfg_batchCount cfg ≤ 2 ^ 53 →
                    img_seed (node_data n) = of_Z (s + Z.of_nat i))
  ∧ (∀ st, previewConfig st = None → confirmConfig st = (None, st))
  ∧ (∀ acts st,
       Forall (λ cfg, 0 ≤ cfg_batchCount cfg) (confirmed acts st) →
       Z.of_nat (length (created acts st))
       = sum_batchCount (confirmed acts st)
       ∧ (Forall keeps_nodes acts →
          length (imageNodes (run acts st))
          = (length (imageNodes st) + length (created acts st))%nat))
  ∧ (∀ b fuel,
       0 ≤ b < 2 ^ 53 → b ≤ Z.of_nat fuel →
       FlowStore64.batch_indices fuel (of_Z 0) (of_Z b)
       = Some (map of_Z (seqZ 0 b))).
Proof.
  split; [|split; [|split]].
  - intros st cfg Hp Hb. cbv zeta.
    rewrite (confirmConfig_Some _ cfg) by done. cbn [fst snd].
    split; [done|]. split; [done|].
    exists (newConfigNode st cfg), (newImageNodes st cfg).
    cbn [configNodes imageNodes]. repeat (split; [done|]).
    split; [rewrite length_newImageNodes; lia|].
    intros i n Hn. apply lookup_newImageNodes in Hn as [-> Hi].
    split; [done|]. split; [done|].
    intros s Hs Hsafe. cbn [newImageNode node_data img_seed]. rewrite Hs.
    apply add_of_Z; lia.
  - apply confirmConfig_None.
  - intros acts st H. split; [by apply created_length|].
    apply run_imageNodes_length.
  - intros b fuel Hb Hf.
    rewrite (batch_indices_integer fuel 0 b) by lia.
    by rewrite Z.sub_0_r.
Qed.

Lemma confirmConfig_creates_batch_witness :
  (confirmConfig previewed).1 = Some "config-1"
  ∧ length (imageNodes (confirmConfig previewed).2) = 3%nat
  ∧ map (λ n, img_seed (node_data n))
      (imageNodes (confirmConfig previewed).2)
    = [of_Z 10; of_Z 11; of_Z 12]
  ∧ confirmConfig initialState = (None, initialState)
  ∧ Z.of_nat (length (created two_configs initialState)) = 3
  ∧ FlowStore64.batch_indices 3 (of_Z 0) (of_Z 3)
    = Some [of_Z 0; of_Z 1; of_Z 2].
Proof.
  destruct confirmConfig_creates_batch as (Hone & Hnone & Hrun & Hloop).
  destruct (Hone previewed
              {| cfg_id := "preview-1"; cfg_prompt := "a lighthouse at dusk";
                 cfg_width := 1024; cfg_height := 768; cfg_batchCount := 3;
                 cfg_seed := of_Z 10; cfg_timestamp := 1700000000000;
                 cfg_isPreview := true |})
    as (Hid & _ & cnode & inodes & _ & _ & Himg & Hlen & _).
  { reflexivity. }
  { cbn. lia. }
  split; [exact Hid|].
  split; [vm_compute; reflexivity|]. split; [vm_compute; reflexivity|].
  split; [by apply Hnone|].
  destruct (Hrun two_configs initialState) as [E _].
  { vm_compute. repeat constructor; discriminate. }
  split; [rewrite E; vm_compute; reflexivity|].
  apply (Hloop 3 3%nat); [split; [lia|reflexivity]|lia].
Defined.

(** C1, as the specification words it, fails.  With the seed 2^53 and a
    batch of three, the images 0 and 1 carry the same seed, 2^53, and
    image 2 carries 2^53 + 2: binary64 has no number between the two,
    so the seeds are not [s], [s + 1], [s + 2].  With the batch count 2.5
    the loop makes three passes, for [i] = 0, 1 and 2: three image nodes
    are built, not 2.5.  And the loop makes no pass for a negative batch
    count: the run that confirms the batch counts -1 and 3 builds 3 image
    nodes, while the batch counts sum to 2. *)
Lemma confirmConfig_creates_batch_counterexample :
  map (λ n, img_seed (node_data n))
    (imageNodes (confirmConfig previewed_large_seed).2)
  = [of_Z (2 ^ 53); of_Z (2 ^ 53); of_Z (2 ^ 53 + 2)]
  ∧ of_Z (2 ^ 53) ≠ of_Z (2 ^ 53 + 2)
  ∧ FlowStore64.batch_indices 4 (of_Z 0) (decimal 25 1)
    = Some [of_Z 0; of_Z 1; of_Z 2]
  ∧ length (created negative_then_three initialState) = 3%nat
  ∧ sum_batchCount (confirmed negative_then_three initialState) = 2.
Proof.
  split; [vm_compute; reflexivity|]. split; [vm_compute; discriminate|].
  split; [vm_compute; reflexivity|]. split; vm_compute; reflexivity.
Qed.

(** *** Layout *)

(** C6.  When [confirmConfig] confirms a preview in a graph of [n]
    configuration nodes, the new configuration node is placed at
    [(100 + n * 350, 100)] and its image node [i], for [0 <= i <
    batchCount], at [(configX, configY + 220 + i * 280)]; for a batch of
    three these are [configY + 220], [configY + 500] and [configY + 780]. *)
Theorem confirmConfig_layout (st : FlowState) (cfg : ConfigData) :
  previewConfig st = Some cfg →
  let n := Z.of_nat (length (configNodes st)) in
  let st' := (confirmConfig st).2 in
  ∃ cnode,
    configNodes st' = configNodes st ++ [cnode]
    ∧ node_position cnode = {| pos_x := 100 + n * 350; pos_y := 100 |}
    ∧ (∀ i, 0 ≤ i < cfg_batchCount cfg →
         ∃ inode,
           imageNodes st' !! (length (imageNodes st) + Z.to_nat i)%nat
           = Some inode
           ∧ owner inode = node_id cnode
           ∧ node_position inode
             = {| pos_x := pos_x (node_position cnode);
                  pos_y := pos_y (node_position cnode) + 220 + i * 280 |})
    ∧ (cfg_batchCount cfg = 3 →
       map node_position (drop (length (imageNodes st)) (imageNodes st'))
       = [ {| pos_x := pos_x (node_position cnode);
              pos_y := pos_y (node_position cnode) + 220 |};
           {| pos_x := pos_x (node_position cnode);
              pos_y := pos_y (node_position cnode) + 500 |};
           {| pos_x := pos_x (node_position cnode);
              pos_y := pos_y (node_position cnode) + 780 |} ]).
Proof.
  intros Hp. cbv zeta. rewrite (confirmConfig_Some _ cfg) by done.
  cbn [fst snd configNodes imageNodes].
  exists (newConfigNode st cfg). split; [done|]. split; [done|]. split.
  - intros i Hi. exists (newImageNode st cfg i).
    split; [|done].
    rewrite lookup_app_r by lia.
    replace (length (imageNodes st) + Z.to_nat i - length (imageNodes st))%nat
      with (Z.to_nat i) by lia.
    apply lookup_newImageNodes. rewrite Z2Nat.id by lia. split; [done|lia].
  - intros Hb. rewrite drop_app_length. unfold newImageNodes. rewrite Hb.
    cbn. repeat f_equal; lia.
Qed.

Lemma confirmConfig_layout_witness :
  map node_position (configNodes (confirmConfig previewed).2)
  = [ {| pos_x := 100; pos_y := 100 |} ]
  ∧ map node_position (imageNodes (confirmConfig previewed).2)
    = [ {| pos_x := 100; pos_y := 320 |};
        {| pos_x := 100; pos_y := 600 |};
        {| pos_x := 100; pos_y := 880 |} ].
Proof.
  destruct (confirmConfig_layout previewed
              {| cfg_id := "preview-1"; cfg_prompt := "a lighthouse at dusk";
                 cfg_width := 1024; cfg_height := 768; cfg_batchCount := 3;
                 cfg_seed := of_Z 10; cfg_timestamp := 1700000000000;
                 cfg_isPreview := true |} eq_refl)
    as (cnode & Hc & Hpos & _ & Hthree).
  split.
  - rewrite Hc. cbn. by rewrite Hpos.
  - specialize (Hthree eq_refl). rewrite Hpos in Hthree. exact Hthree.
Defined.

(** *** Dragging a configuration *)

Lemma find_first {A : Type} (p : A → bool) (pre : list A) (a : A) post :
  p a = true → (∀ b, b ∈ pre → p b = false) →
  find p (pre ++ a :: post) = Some a.
Proof.
  intros Ha. induction pre as [|b pre IH]; intros Hpre; cbn.
  - by rewrite Ha.
  - rewrite (Hpre b) by left. apply IH. intros b' Hb'. apply Hpre. by right.
Qed.

Lemma find_none {A : Type} (p : A → bool) (l : list A) :
  (∀ b, b ∈ l → p b = false) → find p l = None.
Proof.
  induction l as [|b l IH]; intros H; cbn; [done|].
  rewrite (H b) by left. apply IH. intros b' Hb'. apply H. by right.
Qed.

Lemma eqb_false_iff (a b : string) : String.eqb a b = false ↔ a ≠ b.
Proof. apply String.eqb_neq. Qed.

(** *** How a call changes the node lists *)

Lemma bool_filter_eq {A : Type} (p : A → bool) (P : A → Prop)
    `{∀ a, Decision (P a)} (l : list A) :
  (∀ a, p a = true ↔ P a) → List.filter p l = filter P l.
Proof.
  intros Hp. induction l as [|a l IH]; [done|].
  rewrite filter_cons, <- IH. cbn [List.filter].
  destruct (p a) eqn:E; case_decide as HP; try done.
  - by apply Hp in E.
  - apply Hp in HP. congruence.
Qed.

Lemma bool_filter_id {A : Type} (p : A → bool) (l : list A) :
  (∀ a, a ∈ l → p a = true) → List.filter p l = l.
Proof.
  induction l as [|a l IH]; intros H; [done|].
  cbn. rewrite (H a) by left. f_equal. apply IH.
  intros b Hb. apply H. by right.
Qed.

Lemma elem_of_map_filter {A B : Type} (f : A → B) p (l : list A) b :
  b ∈ map f (List.filter p l) → b ∈ map f l.
Proof.
  induction l as [|a l IH]; [done|]. cbn.
  destruct (p a); cbn; rewrite ?elem_of_cons; [intros [?|?]|]; auto.
Qed.

Lemma NoDup_map_filter {A B : Type} (f : A → B) p (l : list A) :
  NoDup (map f l) → NoDup (map f (List.filter p l)).
Proof.
  induction l as [|a l IH]; [done|]. cbn. rewrite NoDup_cons.
  intros [Hin Hnd]. destruct (p a); cbn; [|by apply IH].
  apply NoDup_cons. split; [|by apply IH].
  intros Hf. by apply Hin, (elem_of_map_filter f p).
Qed.

Lemma map_if_same {A B : Type} (f : A → B) (b : A → bool) (g : A → A)
    (l : list A) :
  (∀ a, f (g a) = f a) →
  map f (map (λ a, if b a then g a else a) l) = map f l.
Proof.
  intros Hg. rewrite map_map. apply map_ext. intros a.
  by destruct (b a).
Qed.

Lemma set_nodes_same st : set_nodes st (configNodes st) (imageNodes st) = st.
Proof. by destruct st. Qed.

Lemma step_keeps_ids a st :
  keeps_ids a →
  config_ids (step a st).1 = config_ids st
  ∧ image_ids (step a st).1 = image_ids st
  ∧ map owner (imageNodes (step a st).1) = map owner (imageNodes st)
  ∧ nodeIdCounter (step a st).1 = nodeIdCounter st.
Proof.
  intros Hk. unfold config_ids, image_ids.
  destruct a; try done; cbn [step fst snd].
  - by destruct config.
  - unfold loadConfigForEditing. by destruct (find _ _).
  - unfold updateConfigPosition. destruct (find _ _); [|done].
    cbn [set_nodes configNodes imageNodes nodeIdCounter].
    by rewrite !map_if_same.
  - cbn [updateImageGenerated set_nodes configNodes imageNodes
           nodeIdCounter].
    by rewrite !map_if_same.
  - cbn [updateImageError set_nodes configNodes imageNodes nodeIdCounter].
    by rewrite !map_if_same.
Qed.

Lemma step_preview a st cfg :
  previewConfig (step a st).1 = Some cfg →
  previewConfig st = Some cfg
  ∨ ∃ input now, a = SetPreviewConfig (Some input) now
                 ∧ cfg_batchCount cfg = in_batchCount input.
Proof.
  destruct a; cbn [step fst snd]; try (by left).
  - destruct config as [input|]; [|done].
    intros H. right. exists input, now. split; [done|].
    cbn in H. by inversion H.
  - unfold confirmConfig.
    destruct (previewConfig st) eqn:E; cbn; [done|]. intros H. congruence.
  - unfold loadConfigForEditing. destruct (find _ _); [done|by left].
  - unfold updateConfigPosition. destruct (find _ _); by left.
Qed.

(** *** Owners *)

Lemma owners_present_alt st :
  owners_present st
  ↔ Forall (λ o, o ∈ config_ids st) (map owner (imageNodes st)).
Proof.
  unfold owners_present. rewrite Forall_forall. split.
  - intros H o Ho. change (map ?f ?l) with (f <$> l) in Ho.
    apply list_elem_of_fmap in Ho as (n & -> & Hn). by apply H.
  - intros H n Hn. apply H. change (map ?f ?l) with (f <$> l).
    by apply list_elem_of_fmap_2.
Qed.

Lemma owners_present_step a st :
  owners_present st → owners_present (step a st).1.
Proof.
  intros Ho.
  assert (Hkeep : keeps_ids a → owners_present (step a st).1).
  { intros Hk. apply owners_present_alt. apply owners_present_alt in Ho.
    destruct (step_keeps_ids a st Hk) as (-> & _ & -> & _). done. }
  destruct a; try (by apply Hkeep); clear Hkeep; cbn [step fst snd].
  - destruct (previewConfig st) as [cfg|] eqn:Hp;
      [rewrite (confirmConfig_Some _ cfg) by done
      |by rewrite confirmConfig_None].
    cbn [fst snd]. intros n Hn. unfold config_ids.
    cbn [configNodes imageNodes] in *. rewrite map_app.
    apply elem_of_app in Hn as [Hn|Hn].
    + apply elem_of_app. left. by apply Ho.
    + apply elem_of_app. right. cbn.
      apply list_elem_of_lookup in Hn as [i Hi].
      apply lookup_newImageNodes in Hi as [-> _]. left.
  - intros n Hn. cbn [deleteConfig fst snd set_nodes imageNodes] in Hn.
    apply list_elem_of_In, filter_In in Hn as [Hn Hne].
    apply list_elem_of_In in Hn. specialize (Ho n Hn).
    unfold config_ids in *. cbn [deleteConfig fst set_nodes configNodes].
    change (map ?f ?l) with (f <$> l) in *.
    apply list_elem_of_fmap in Ho as (cn & E & Hcn).
    apply list_elem_of_fmap. exists cn. split; [done|].
    apply list_elem_of_In, filter_In. split; [by apply list_elem_of_In|].
    rewrite <- E. exact Hne.
  - intros n Hn. cbn in Hn. by apply elem_of_nil in Hn.
Qed.

Lemma owners_present_run acts st :
  owners_present st → owners_present (run acts st).
Proof.
  revert st. induction acts as [|a acts IH]; intros st H; [done|].
  rewrite run_cons. by apply IH, owners_present_step.
Qed.

Lemma owners_present_initial : owners_present initialState.
Proof. intros n Hn. cbn in Hn. by apply elem_of_nil in Hn. Qed.

(** *** Deleting a configuration *)

Lemma deleteBlobs_lookup ids w :
  (∀ s, blobs (deleteBlobs ids w).2 !! s
        = if decide (s ∈ ids) then None else blobs w !! s)
  ∧ (∀ s, meta (deleteBlobs ids w).2 !! s
          = if decide (s ∈ ids) then None else meta w !! s)
  ∧ console (deleteBlobs ids w).2 = console w.
Proof.
  revert w. induction ids as [|id ids IH]; intros w.
  - cbn. done.
  - rewrite deleteBlobs_cons.
    destruct (IH (deleteBlob id w).2) as (Hb & Hm & Hc).
    rewrite deleteBlob_eq in *. cbn [snd blobs meta console] in *.
    split; [|split; [|done]]; intros s; rewrite ?Hb, ?Hm;
      (destruct (decide (s = id)) as [->|Hne];
       [rewrite lookup_delete_eq, (decide_True (P := id ∈ id :: ids))
          by left; by case_decide
       |rewrite lookup_delete_ne by done;
        destruct (decide (s ∈ ids)) as [Hin|Hin];
        [rewrite decide_True by (by right)
        |rewrite decide_False by (rewrite elem_of_cons; tauto)]; done]).
Qed.

Lemma elem_of_blobIdsOf c st s :
  s ∈ blobIdsOf c st
  ↔ ∃ n, n ∈ imageNodes st ∧ owner n = c ∧ holds_blob n s.
Proof.
  unfold blobIdsOf, holds_blob, owner.
  change (map ?f ?l) with (f <$> l). rewrite list_elem_of_fmap. split.
  - intros (n & -> & Hn). apply list_elem_of_In, filter_In in Hn as [Hn Hp].
    exists n. split; [by apply list_elem_of_In|].
    apply andb_true_iff in Hp as [Ho Ht]. apply String.eqb_eq in Ho.
    split; [done|].
    destruct (img_imageBlobId (node_data n)) as [s|]; [|done].
    cbn in *. split; [done|]. intros ->. done.
  - intros (n & Hn & Ho & Hs & Hne). exists n. split; [by rewrite Hs|].
    apply list_elem_of_In, filter_In. split; [by apply list_elem_of_In|].
    apply andb_true_iff. split; [by apply String.eqb_eq|].
    rewrite Hs. cbn. apply negb_true_iff. by apply String.eqb_neq.
Qed.

(** C2.  [deleteConfig c] keeps exactly the configuration nodes whose id is
    not [c] and exactly the image nodes whose owner is not [c], and leaves
    the rest of the state alone.  The one cache call it starts is
    [deleteBlobs] on the blob references held by the removed image nodes
    (no call when there is none); once that call has run, the binaries and
    records under exactly those references are gone and every other entry
    is as before.  In a graph where every image node has its owner among
    the configuration nodes, a [c] that is not the id of a configuration
    node leaves the graph and the cache unchanged; every graph that the
    store reaches from its initial state is of that kind. *)
Theorem deleteConfig_cascade (c : string) (st : FlowState) (w : World) :
  let st' := (deleteConfig c st).1 in
  let calls := (deleteConfig c st).2 in
  let w' := runCalls calls w in
  configNodes st' = filter (λ n, node_id n ≠ c) (configNodes st)
  ∧ imageNodes st' = filter (λ n, owner n ≠ c) (imageNodes st)
  ∧ same_but_nodes st st'
  ∧ (∃ ids,
       (∀ s, s ∈ ids
             ↔ ∃ n, n ∈ imageNodes st ∧ owner n = c ∧ holds_blob n s)
       ∧ calls = match ids with [] => [] | _ => [call_deleteBlobs ids] end
       ∧ (∀ s, blobs w' !! s
               = if decide (s ∈ ids) then None else blobs w !! s)
       ∧ (∀ s, meta w' !! s
               = if decide (s ∈ ids) then None else meta w !! s))
  ∧ (owners_present st → c ∉ config_ids st →
     st' = st ∧ calls = [] ∧ w' = w)
  ∧ (∀ acts, owners_present (run acts initialState)).
Proof.
  cbv zeta. unfold deleteConfig. cbn [fst snd set_nodes configNodes
    imageNodes].
  split; [|split; [|split; [done|split; [|split]]]];
    [| | | |intros acts; apply owners_present_run, owners_present_initial].
  - apply bool_filter_eq. intros n.
    rewrite negb_true_iff. apply String.eqb_neq.
  - apply bool_filter_eq. intros n.
    rewrite negb_true_iff. apply String.eqb_neq.
  - exists (blobIdsOf c st). split; [apply elem_of_blobIdsOf|].
    destruct (blobIdsOf c st) as [|id ids] eqn:E; cbn [length Nat.ltb
      Nat.leb runCalls foldl runCacheCall].
    + split; [done|]. split; intros s; case_decide as Hs; try done;
        by apply elem_of_nil in Hs.
    + split; [done|].
      destruct (deleteBlobs_lookup (id :: ids) w) as (Hb & Hm & _). done.
  - intros Ho Hc.
    assert (Hnone : ∀ n, n ∈ imageNodes st → owner n ≠ c).
    { intros n Hn E. apply Hc. rewrite <- E. by apply Ho. }
    assert (Hids : blobIdsOf c st = []).
    { destruct (blobIdsOf c st) as [|s ids] eqn:E; [done|].
      assert (Hs : s ∈ blobIdsOf c st) by (rewrite E; left).
      apply elem_of_blobIdsOf in Hs as (n & Hn & Hown & _).
      by destruct (Hnone n Hn). }
    rewrite Hids. cbn. split; [|done].
    rewrite !bool_filter_id; [apply set_nodes_same| |].
    + intros n Hn. by apply negb_true_iff, String.eqb_neq, Hnone.
    + intros n Hn. apply negb_true_iff, String.eqb_neq.
      intros E. apply Hc. rewrite <- E. unfold config_ids.
      change (map ?f ?l) with (f <$> l). by apply list_elem_of_fmap_2.
Qed.

Lemma deleteConfig_cascade_witness :
  let st := run two_configs initialState in
  config_ids (deleteConfig "config-1" st).1 = ["config-4"]
  ∧ image_ids (deleteConfig "config-1" st).1 = ["image-5"]
  ∧ (deleteConfig "config-1" st).2 = [call_deleteBlobs ["image-3"]]
  ∧ blobs (runCalls (deleteConfig "config-1" st).2 two_blobs) !! "image-3"
    = None
  ∧ blobs (runCalls (deleteConfig "config-1" st).2 two_blobs) !! "image-5"
    = Some (blob_of_size 50)
  ∧ (deleteConfig "config-7" st).1 = st
  ∧ (deleteConfig "config-7" st).2 = []
  ∧ runCalls (deleteConfig "config-7" st).2 two_blobs = two_blobs.
Proof.
  cbv zeta.
  destruct (deleteConfig_cascade "config-7" (run two_configs initialState)
              two_blobs) as (_ & _ & _ & _ & Hnoop & Hreach).
  destruct Hnoop as (Hst & Hcalls & Hw).
  { apply Hreach. }
  { refine (bool_decide_unpack _ _). vm_compute. exact I. }
  do 5 (split; [vm_compute; reflexivity|]).
  split; [exact Hst|]. split; [exact Hcalls|exact Hw].
Defined.

(** *** Distinct identifiers *)

Lemma append_inj (p a b : string) : p +:+ a = p +:+ b → a = b.
Proof.
  induction p as [|ch p IH]; cbn; intros H; [done|]. inversion H. auto.
Qed.

Lemma minted_inj prefix (k k' : Z) :
  prefix +:+ pretty k = prefix +:+ pretty k' → k = k'.
Proof. intros H. apply append_inj in H. by apply (inj pretty). Qed.

Lemma minted_mono prefix (n n' : Z) s :
  n ≤ n' → minted prefix n s → minted prefix n' s.
Proof. intros Hle (k & -> & Hk). exists k. split; [done|lia]. Qed.

Lemma config_ids_confirm st cfg :
  previewConfig st = Some cfg →
  config_ids (confirmConfig st).2
  = config_ids st ++ ["config-" +:+ pretty (nodeIdCounter st + 1)].
Proof.
  intros Hp. rewrite (confirmConfig_Some _ cfg) by done.
  unfold config_ids. cbn [snd configNodes]. by rewrite map_app.
Qed.

Lemma image_ids_confirm st cfg :
  previewConfig st = Some cfg →
  image_ids (confirmConfig st).2
  = image_ids st
    ++ map (λ i, "image-" +:+ pretty (nodeIdCounter st + 2 + i))
         (seqZ 0 (cfg_batchCount cfg)).
Proof.
  intros Hp. rewrite (confirmConfig_Some _ cfg) by done.
  unfold image_ids, newImageNodes. cbn [snd imageNodes].
  by rewrite map_app, map_map.
Qed.

Lemma fresh_initial : fresh initialState.
Proof.
  unfold fresh, config_ids, image_ids. cbn.
  repeat split; try constructor; done.
Qed.

Lemma fresh_confirm st cfg :
  previewConfig st = Some cfg → fresh st → fresh (confirmConfig st).2.
Proof.
  intros Hp (Hc & Hnc & Hni & Hmc & Hmi & Hb).
  specialize (Hb cfg Hp).
  unfold fresh. rewrite (config_ids_confirm _ cfg), (image_ids_confirm _ cfg)
    by done.
  rewrite (confirmConfig_Some _ cfg) by done.
  cbn [snd nodeIdCounter previewConfig].
  split; [lia|]. split; [|split; [|split; [|split; [|done]]]].
  - apply NoDup_app. split; [done|]. split; [|apply NoDup_singleton].
    intros s Hs Hnew. apply list_elem_of_singleton in Hnew.
    rewrite Forall_forall in Hmc. destruct (Hmc s Hs) as (k & -> & Hk).
    apply minted_inj in Hnew. lia.
  - apply NoDup_app. split; [done|]. split.
    + intros s Hs Hnew. change (map ?f ?l) with (f <$> l) in Hnew.
      apply list_elem_of_fmap in Hnew as (i & E & Hi).
      apply elem_of_seqZ in Hi.
      rewrite Forall_forall in Hmi. destruct (Hmi s Hs) as (k & -> & Hk).
      apply minted_inj in E. lia.
    + change (map ?f ?l) with (f <$> l).
      apply NoDup_fmap_2; [|apply NoDup_seqZ].
      intros i j E. apply minted_inj in E. lia.
  - apply Forall_app. split.
    + eapply Forall_impl; [exact Hmc|]. intros s. apply minted_mono. lia.
    + apply Forall_singleton. eexists. split; [done|]. lia.
  - apply Forall_app. split.
    + eapply Forall_impl; [exact Hmi|]. intros s. apply minted_mono. lia.
    + apply Forall_forall. intros s Hs.
      change (map ?f ?l) with (f <$> l) in Hs.
      apply list_elem_of_fmap in Hs as (i & -> & Hi).
      apply elem_of_seqZ in Hi. eexists. split; [done|]. lia.
Qed.

Lemma fresh_step a st : batch_ok a → fresh st → fresh (step a st).1.
Proof.
  intros Hok Hf.
  assert (Hkeep : keeps_ids a → fresh (step a st).1).
  { intros Hk. destruct Hf as (Hc & Hnc & Hni & Hmc & Hmi & Hb).
    unfold fresh.
    destruct (step_keeps_ids a st Hk) as (-> & -> & _ & ->).
    repeat (split; [done|]). intros cfg Hcfg.
    apply step_preview in Hcfg as [Hold|(input & now & -> & ->)];
      [by apply Hb|done]. }
  destruct a; try (by apply Hkeep); clear Hkeep; cbn [step fst snd].
  - destruct (previewConfig st) as [cfg|] eqn:Hp;
      [by apply (fresh_confirm _ cfg)|by rewrite confirmConfig_None].
  - destruct Hf as (Hc & Hnc & Hni & Hmc & Hmi & Hb).
    unfold fresh, config_ids, image_ids, deleteConfig.
    cbn [fst set_nodes configNodes imageNodes nodeIdCounter previewConfig].
    split; [done|].
    split; [by apply NoDup_map_filter|].
    split; [by apply NoDup_map_filter|].
    split; [|split; [|done]]; apply Forall_forall; intros s Hs;
      apply elem_of_map_filter in Hs;
      [rewrite Forall_forall in Hmc; by apply Hmc
      |rewrite Forall_forall in Hmi; by apply Hmi].
  - unfold fresh, config_ids, image_ids. cbn.
    repeat split; try constructor; done.
Qed.

Lemma fresh_run acts st :
  Forall batch_ok acts → fresh st → fresh (run acts st).
Proof.
  revert st. induction acts as [|a acts IH]; intros st Hok Hf; [done|].
  apply Forall_cons in Hok as [Ha Hok].
  rewrite run_cons. by apply IH, fresh_step.
Qed.

Lemma fresh_node_ids st : fresh st → NoDup (node_ids st).
Proof.
  intros (_ & Hnc & Hni & Hmc & Hmi & _). unfold node_ids.
  apply NoDup_app. split; [done|]. split; [|done].
  intros s Hc Hi. rewrite Forall_forall in Hmc, Hmi.
  destruct (Hmc s Hc) as (k & -> & _). destruct (Hmi _ Hi) as (k' & E & _).
  cbn in E. discriminate E.
Qed.




End GraphStore.

(* ===================================================================== *)
(** ** Further properties of the blob cache *)
(* ===================================================================== *)

Section BlobCacheAccounting.

Implicit Types (w : World) (m : BlobMeta) (k : Z).

(** *** Sums over the records *)

Lemma sum_sizes_perm (l l' : list BlobMeta) :
  l ≡ₚ l' →
  foldr (λ m sum, meta_size m + sum) 0 l
  = foldr (λ m sum, meta_size m + sum) 0 l'.
Proof. induction 1; cbn; lia. Qed.

Lemma total_bytes_insert_fresh w m b c :
  meta w !! meta_id m = None →
  total_bytes {| blobs := b; meta := <[meta_id m := m]> (meta w);
                 console := c |}
  = meta_size m + total_bytes w.
Proof.
  intros H. unfold total_bytes, records. cbn [meta].
  rewrite (sum_sizes_perm _ (m :: (map_to_list (meta w)).*2)); [done|].
  change (m :: (map_to_list (meta w)).*2)
    with (((meta_id m, m) :: map_to_list (meta w)).*2).
  apply fmap_Permutation. by apply map_to_list_insert.
Qed.

Lemma total_bytes_delete w id m b c :
  meta w !! id = Some m →
  total_bytes {| blobs := b; meta := delete id (meta w); console := c |}
  = total_bytes w - meta_size m.
Proof.
  intros H. unfold total_bytes, records. cbn [meta].
  rewrite <- (sum_sizes_perm
                (m :: (map_to_list (delete id (meta w))).*2)
                ((map_to_list (meta w)).*2)).
  - cbn. lia.
  - change (m :: (map_to_list (delete id (meta w))).*2)
      with (((id, m) :: map_to_list (delete id (meta w))).*2).
    apply fmap_Permutation. by apply map_to_list_delete.
Qed.


Lemma total_bytes_insert w m b c :
  total_bytes {| blobs := b; meta := <[meta_id m := m]> (meta w);
                 console := c |}
  = meta_size m + total_bytes w
    - from_option meta_size 0 (meta w !! meta_id m).
Proof.
  destruct (meta w !! meta_id m) as [old|] eqn:E; cbn [from_option].
  - rewrite <- (insert_delete_eq (meta w)).
    pose proof (total_bytes_insert_fresh
                  {| blobs := b; meta := delete (meta_id m) (meta w);
                     console := c |} m b c) as H.
    cbn [meta] in H. rewrite H by apply lookup_delete_eq.
    rewrite (total_bytes_delete w _ old) by done. lia.
  - rewrite total_bytes_insert_fresh by done. lia.
Qed.

Lemma entry_count_insert w m b c :
  entry_count {| blobs := b; meta := <[meta_id m := m]> (meta w);
                 console := c |}
  = entry_count w + match meta w !! meta_id m with Some _ => 0 | None => 1 end.
Proof.
  unfold entry_count. cbn [meta].
  destruct (meta w !! meta_id m) as [old|] eqn:E.
  - rewrite map_size_insert_Some by done. lia.
  - rewrite map_size_insert_None by done. lia.
Qed.




Lemma getBlob_blobs id now w : blobs (getBlob id now w).2 = blobs w.
Proof.
  destruct (blobs w !! id) as [blob|] eqn:Hb; [|by rewrite getBlob_miss].
  destruct (meta w !! id) as [m|] eqn:Hm.
  - by rewrite (getBlob_hit _ _ _ blob m).
  - by rewrite (getBlob_no_meta _ _ _ blob).
Qed.

(** *** Storing, reading, deleting *)








(** *** Accounting *)


(** The counts and totals of three stored blobs of 10, 20 and 30 bytes. *)
Example three_entries_accounting :
  (getBlobCount three_entries).1 = 3
  ∧ (getTotalStorageSize three_entries).1 = 60
  ∧ (getTotalStorageSize (storeBlob "b" (blob_of_size 1) 7 7
                            three_entries).2).1 = 41
  ∧ (getTotalStorageSize (deleteBlob "c" three_entries).2).1 = 30.
Proof. vm_compute. done. Qed.

Lemma getBlob_keyed_eq id now w :
  keyed w →
  getBlob id now w
  = (blobs w !! id,
     match blobs w !! id, meta w !! id with
     | Some _, Some m =>
         {| blobs := blobs w;
            meta := <[id := {| meta_id := id; meta_size := meta_size m;
                               meta_createdAt := meta_createdAt m;
                               meta_lastAccessedAt := now |}]> (meta w);
            console := console w |}
     | _, _ => w
     end).
Proof.
  intros Hk.
  destruct (blobs w !! id) as [blob|] eqn:Hb; [|by rewrite getBlob_miss].
  destruct (meta w !! id) as [m|] eqn:Hm.
  - rewrite (getBlob_hit _ _ _ blob m) by done. by rewrite (Hk _ _ Hm).
  - by rewrite (getBlob_no_meta _ _ _ blob).
Qed.

Lemma getBlob_statistics id now w :
  keyed w →
  entry_count (getBlob id now w).2 = entry_count w
  ∧ total_bytes (getBlob id now w).2 = total_bytes w.
Proof.
  intros Hk. rewrite getBlob_keyed_eq by done. cbn [snd].
  destruct (blobs w !! id) as [blob|]; [|done].
  destruct (meta w !! id) as [m|] eqn:Hm; [|done].
  set (m' := {| meta_id := id; meta_size := meta_size m;
                meta_createdAt := meta_createdAt m;
                meta_lastAccessedAt := now |}).
  split.
  - rewrite (entry_count_insert w m'). cbn [meta_id m']. rewrite Hm. lia.
  - rewrite (total_bytes_insert w m'). cbn [meta_id meta_size m'].
    rewrite Hm. cbn. lia.
Qed.

(** X5.  Reading does not change what the cache reports about itself:
    after a [getBlob], of a stored id or not, the count, the byte total,
    the verdict of [checkStorageLimit] for every candidate and the result
    of [getStorageInfo] are the same as before. *)
Theorem getBlob_keeps_statistics (id : string) (now : Z) (w : World) :
  keyed w →
  let w1 := (getBlob id now w).2 in
  (getBlobCount w1).1 = (getBlobCount w).1
  ∧ (getTotalStorageSize w1).1 = (getTotalStorageSize w).1
  ∧ (∀ k, (checkStorageLimit k w1).1 = (checkStorageLimit k w).1)
  ∧ (getStorageInfo w1).1 = (getStorageInfo w).1.
Proof.
  intros Hk. cbv zeta.
  destruct (getBlob_statistics id now w Hk) as [Hc Ht].
  rewrite !getBlobCount_eq, !getTotalStorageSize_eq. cbn [fst].
  split; [done|]. split; [done|]. split.
  - intros k. rewrite !checkStorageLimit_eq. cbn [fst]. by rewrite Hc, Ht.
  - rewrite !getStorageInfo_eq. cbn [fst]. by rewrite Hc, Ht.
Qed.

Lemma getBlob_keeps_statistics_witness :
  (getTotalStorageSize (getBlob "b" 100 three_entries).2).1 = 60
  ∧ (getBlobCount (getBlob "b" 100 three_entries).2).1 = 3.
Proof.
  destruct (getBlob_keeps_statistics "b" 100 three_entries)
    as (Hc & Ht & _).
  { do 3 apply keyed_storeBlob. apply keyed_empty. }
  rewrite Hc, Ht. vm_compute. done.
Defined.

End BlobCacheAccounting.

Section BlobCacheCapacity.

Implicit Types (w : World) (m : BlobMeta) (k : Z).

(** *** Admission *)




(** *** The ceilings as an invariant *)















(** The bare [storeBlob] is not bound by the ceilings: it adds a 501st
    entry to the full cache. *)
Example storeBlob_bypasses_limits :
  (getBlobCount (storeBlob "image-501" (blob_of_size 1) 501 501
                   full_cache).2).1 = 501.
Proof. vm_compute. reflexivity. Qed.

(** *** Eviction, then the pending store *)






(** *** Least recently used *)







(** In the three-entry cache, where ["b"] was the oldest entry, reading
    ["b"] makes the eviction remove ["c"] and ["a"] instead. *)
Example read_protects_from_eviction :
  console (cleanupForNewBlob 4 4294967270 three_entries).2
  = [RemovedOldestBlob "b"; RemovedOldestBlob "c"]
  ∧ console (cleanupForNewBlob 4 4294967270
               (getBlob "b" 10 three_entries).2).2
    = [RemovedOldestBlob "c"; RemovedOldestBlob "a"].
Proof. vm_compute. done. Qed.

(** *** Warning and refusal *)



End BlobCacheCapacity.

(* ===================================================================== *)
(** ** Further properties of the graph store *)
(* ===================================================================== *)

Section GraphStoreCalls.

Implicit Types (st : FlowState) (cfg : ConfigData) (c : string).

(** *** Preview, confirmation, editing *)

(** X12.  A confirmation right after [setPreviewConfig] materialises what
    was previewed: the new configuration node carries the previewed prompt,
    size, batch count and seed, the time of the preview and the new id, and
    is no preview; every image node built copies the previewed prompt and
    size, is loading and has neither URL, blob, duration nor error.
    Previewing changes neither the nodes nor the counter, and a preview
    that was withdrawn confirms nothing. *)
Theorem preview_then_confirm (input : PreviewConfigInput) (now : Z)
    (st : FlowState) :
  let st1 := setPreviewConfig (Some input) now st in
  let st2 := (confirmConfig st1).2 in
  let newId := "config-" +:+ pretty (nodeIdCounter st + 1) in
  (configNodes st1 = configNodes st ∧ imageNodes st1 = imageNodes st
   ∧ nodeIdCounter st1 = nodeIdCounter st)
  ∧ (confirmConfig st1).1 = Some newId
  ∧ (∃ cnode,
       configNodes st2 = configNodes st ++ [cnode]
       ∧ node_data cnode
         = {| cfg_id := newId; cfg_prompt := in_prompt input;
              cfg_width := in_width input; cfg_height := in_height input;
              cfg_batchCount := in_batchCount input;
              cfg_seed := in_seed input; cfg_timestamp := now;
              cfg_isPreview := false |})
  ∧ (∃ inodes,
       imageNodes st2 = imageNodes st ++ inodes
       ∧ ∀ n, n ∈ inodes →
           node_id n = img_id (node_data n)
           ∧ img_prompt (node_data n) = in_prompt input
           ∧ img_width (node_data n) = in_width input
           ∧ img_height (node_data n) = in_height input
           ∧ img_isLoading (node_data n) = true
           ∧ img_imageUrl (node_data n) = None
           ∧ img_imageBlobId (node_data n) = None
           ∧ img_duration (node_data n) = None
           ∧ img_error (node_data n) = None)
  ∧ confirmConfig (setPreviewConfig None now st1)
    = (None, setPreviewConfig None now st1)
  ∧ configNodes (setPreviewConfig None now st1) = configNodes st
  ∧ imageNodes (setPreviewConfig None now st1) = imageNodes st.
Proof.
  cbv zeta. split; [done|].
  set (cfg := {| cfg_id := "preview-" +:+ pretty (nodeIdCounter st + 1);
                 cfg_prompt := in_prompt input;
                 cfg_width := in_width input; cfg_height := in_height input;
                 cfg_batchCount := in_batchCount input;
                 cfg_seed := in_seed input; cfg_timestamp := now;
                 cfg_isPreview := true |}).
  rewrite (confirmConfig_Some (setPreviewConfig (Some input) now st) cfg)
    by done.
  cbn [fst snd configNodes imageNodes setPreviewConfig nodeIdCounter].
  split; [done|]. split; [by eexists|]. split; [|done].
  eexists. split; [done|]. intros n Hn.
  apply list_elem_of_lookup in Hn as [i Hi].
  apply lookup_newImageNodes in Hi as [-> _]. done.
Qed.

Lemma preview_then_confirm_witness :
  map (λ n, (img_prompt (node_data n), img_isLoading (node_data n)))
    (imageNodes (confirmConfig previewed).2)
  = [ ("a lighthouse at dusk", true); ("a lighthouse at dusk", true);
      ("a lighthouse at dusk", true) ]
  ∧ ∀ n, n ∈ imageNodes (confirmConfig previewed).2 →
         img_width (node_data n) = 1024 ∧ img_imageBlobId (node_data n) = None.
Proof.
  destruct (preview_then_confirm (preview_of 3 10) 1700000000000
              initialState) as (_ & _ & _ & (inodes & Himg & Hall) & _).
  split; [vm_compute; reflexivity|].
  intros n Hn. change (setPreviewConfig (Some (preview_of 3 10))
                         1700000000000 initialState) with previewed in Himg.
  rewrite Himg in Hn. cbn [initialState imageNodes app] in Hn.
  destruct (Hall n Hn) as (_ & _ & Hw & _ & _ & _ & Hb & _).
  split; [exact Hw|exact Hb].
Defined.

Lemma find_app_new {A : Type} (p : A → bool) (l : list A) (a : A) :
  p a = true → (∀ b, b ∈ l → p b = false) → find p (l ++ [a]) = Some a.
Proof. intros. by apply find_first. Qed.

(** X13.  Along every run from the initial state whose previews have
    non-negative batch counts, [loadConfigForEditing] on the id that
    [confirmConfig] returned yields the data just confirmed and marks that
    configuration as the one being edited.  On an id that no configuration
    node has, it returns [null] and changes nothing; on the id of a
    configuration node it leaves nodes and counter alone, drops the
    preview and clears the modified flag. *)
Theorem confirm_then_load :
  (∀ acts cfg,
     Forall batch_ok acts →
     let st := run acts initialState in
     previewConfig st = Some cfg →
     ∃ id,
       (confirmConfig st).1 = Some id
       ∧ (loadConfigForEditing id (confirmConfig st).2).1
         = Some {| cfg_id := id; cfg_prompt := cfg_prompt cfg;
                   cfg_width := cfg_width cfg;
                   cfg_height := cfg_height cfg;
                   cfg_batchCount := cfg_batchCount cfg;
                   cfg_seed := cfg_seed cfg;
                   cfg_timestamp := cfg_timestamp cfg;
                   cfg_isPreview := false |}
       ∧ editingConfigId (loadConfigForEditing id (confirmConfig st).2).2
         = Some id)
  ∧ (∀ c st, c ∉ config_ids st → loadConfigForEditing c st = (None, st))
  ∧ (∀ c st,
       c ∈ config_ids st →
       let st1 := (loadConfigForEditing c st).2 in
       configNodes st1 = configNodes st ∧ imageNodes st1 = imageNodes st
       ∧ nodeIdCounter st1 = nodeIdCounter st
       ∧ previewConfig st1 = None ∧ editingConfigId st1 = Some c
       ∧ isEditingModified st1 = false).
Proof.
  split; [|split].
  - intros acts cfg Hok. cbv zeta. intros Hp.
    pose proof (fresh_run acts initialState Hok fresh_initial)
      as (Hc & _ & _ & Hmc & _ & _).
    set (st := run acts initialState) in *.
    exists ("config-" +:+ pretty (nodeIdCounter st + 1)).
    rewrite (confirmConfig_Some _ cfg) by done. cbn [fst snd].
    unfold loadConfigForEditing. cbn [configNodes].
    rewrite (find_app_new _ _ (newConfigNode st cfg)); [done| |].
    + by apply String.eqb_eq.
    + intros b Hb. apply eqb_false_iff. intros E.
      rewrite Forall_forall in Hmc.
      destruct (Hmc (node_id b)) as (k & Hk & Hle).
      { unfold config_ids. change (map ?f ?l) with (f <$> l).
        by apply list_elem_of_fmap_2. }
      rewrite E in Hk. apply minted_inj in Hk. lia.
  - intros c st Hno. unfold loadConfigForEditing.
    rewrite find_none; [done|]. intros b Hb. apply eqb_false_iff.
    intros E. apply Hno. rewrite <- E. unfold config_ids.
    change (map ?f ?l) with (f <$> l). by apply list_elem_of_fmap_2.
  - intros c st Hin. cbv zeta. unfold loadConfigForEditing.
    destruct (find _ _) as [cn|] eqn:Hf; [done|].
    exfalso. unfold config_ids in Hin.
    change (map ?f ?l) with (f <$> l) in Hin.
    apply list_elem_of_fmap in Hin as (n & -> & Hn).
    apply list_elem_of_In in Hn.
    pose proof (List.find_none _ _ Hf n Hn) as Hfalse. cbn in Hfalse.
    by rewrite String.eqb_refl in Hfalse.
Qed.

Lemma confirm_then_load_witness :
  (loadConfigForEditing "config-1" (confirmConfig previewed).2).1
  = Some {| cfg_id := "config-1"; cfg_prompt := "a lighthouse at dusk";
            cfg_width := 1024; cfg_height := 768; cfg_batchCount := 3;
            cfg_seed := of_Z 10; cfg_timestamp := 1700000000000;
            cfg_isPreview := false |}
  ∧ loadConfigForEditing "config-9" previewed = (None, previewed).
Proof.
  destruct confirm_then_load as (Hload & Hunknown & _).
  destruct (Hload [SetPreviewConfig (Some (preview_of 3 10)) 1700000000000]
              {| cfg_id := "preview-1"; cfg_prompt := "a lighthouse at dusk";
                 cfg_width := 1024; cfg_height := 768; cfg_batchCount := 3;
                 cfg_seed := of_Z 10; cfg_timestamp := 1700000000000;
                 cfg_isPreview := true |})
    as (id & Hid & Hdata & _).
  { repeat constructor. cbn. lia. }
  { reflexivity. }
  split.
  - assert (E : id = "config-1").
    { change (run [SetPreviewConfig (Some (preview_of 3 10)) 1700000000000]
                initialState) with previewed in Hid.
      assert (E' : (confirmConfig previewed).1 = Some "config-1")
        by (vm_compute; reflexivity).
      rewrite E' in Hid. by inversion Hid. }
    rewrite E in Hdata. exact Hdata.
  - apply Hunknown. intros H. cbn in H. by apply elem_of_nil in H.
Defined.

(** *** Deleting twice, updating what is not there *)

Lemma bool_filter_filter {A : Type} (p : A → bool) (l : list A) :
  List.filter p (List.filter p l) = List.filter p l.
Proof.
  apply bool_filter_id. intros a Ha.
  by apply list_elem_of_In, filter_In in Ha as [_ Ha].
Qed.

Lemma blobIdsOf_deleted c st : blobIdsOf c (deleteConfig c st).1 = [].
Proof.
  unfold blobIdsOf, deleteConfig. cbn [fst set_nodes imageNodes].
  assert (E : List.filter
                (λ n, String.eqb (img_configId (node_data n)) c
                      && truthy (img_imageBlobId (node_data n)))
                (List.filter
                   (λ n, negb (String.eqb (img_configId (node_data n)) c))
                   (imageNodes st)) = []).
  { induction (imageNodes st) as [|n l IH]; [done|]. cbn.
    destruct (String.eqb (img_configId (node_data n)) c) eqn:E; cbn;
      [done|]. by rewrite E. }
  by rewrite E.
Qed.

(** X14.  [deleteConfig] is idempotent: a second [deleteConfig] of the same
    id changes nothing and starts no cache call.  After the deletion
    [loadConfigForEditing] of that id returns [null], a drag of that id is
    ignored, and no edge of [getAllEdges] starts at that id. *)
Theorem deleteConfig_idempotent (c : string) (st : FlowState) :
  let st1 := (deleteConfig c st).1 in
  deleteConfig c st1 = (st1, [])
  ∧ loadConfigForEditing c st1 = (None, st1)
  ∧ (∀ x y, updateConfigPosition c x y st1 = st1)
  ∧ Forall (λ e, edge_source e ≠ c) (getAllEdges st1).
Proof.
  cbv zeta.
  assert (Hcfg : ∀ n, n ∈ configNodes (deleteConfig c st).1 →
                      String.eqb (node_id n) c = false).
  { intros n Hn. cbn in Hn. apply list_elem_of_In, filter_In in Hn as [_ Hn].
    by apply negb_true_iff in Hn. }
  split; [|split; [|split]].
  - unfold deleteConfig at 1. rewrite blobIdsOf_deleted. cbn [length].
    f_equal. cbn [deleteConfig fst set_nodes configNodes imageNodes].
    rewrite !bool_filter_filter. by destruct st.
  - unfold loadConfigForEditing. by rewrite find_none.
  - intros x y. unfold updateConfigPosition. by rewrite find_none.
  - apply Forall_forall. intros e He. unfold getAllEdges in He.
    change (map ?f ?l) with (f <$> l) in He.
    apply list_elem_of_fmap in He as (n & -> & Hn). cbn.
    cbn in Hn. apply list_elem_of_In, filter_In in Hn as [_ Hn].
    apply negb_true_iff in Hn. by apply String.eqb_neq.
Qed.

(** On the graph of two configurations: the first deletion purges a blob,
    the second does nothing. *)
Example deleteConfig_twice :
  let st := run two_configs initialState in
  (deleteConfig "config-1" st).2 = [call_deleteBlobs ["image-3"]]
  ∧ (deleteConfig "config-1" (deleteConfig "config-1" st).1).2 = []
  ∧ map edge_id (getAllEdges st)
    = [ "edge-config-1-image-2"; "edge-config-1-image-3";
        "edge-config-4-image-5" ]
  ∧ map edge_id (getAllEdges (deleteConfig "config-1" st).1)
    = [ "edge-config-4-image-5" ].
Proof. vm_compute. done. Qed.

Lemma map_if_none {A : Type} (b : A → bool) (g : A → A) (l : list A) :
  (∀ a, a ∈ l → b a = false) → map (λ a, if b a then g a else a) l = l.
Proof.
  induction l as [|a l IH]; intros H; [done|]. cbn.
  rewrite (H a) by left. f_equal. apply IH. intros a' Ha'. apply H.
  by right.
Qed.

(** X15.  [updateImageGenerated] and [updateImageError] on an id that no
    image node has change nothing.  On any id they leave the configuration
    nodes, the ids, owners and positions of the image nodes and the rest of
    the state as they were, and every image node with that id ends up not
    loading, with the given URL, blob reference and duration (or with the
    given error). *)
Theorem updateImage_frame (i : string) (st : FlowState) :
  (i ∉ image_ids st →
   (∀ u d b, updateImageGenerated i u d b st = st)
   ∧ (∀ e, updateImageError i e st = st))
  ∧ (∀ u d b,
       let st1 := updateImageGenerated i u d b st in
       configNodes st1 = configNodes st ∧ same_but_nodes st st1
       ∧ image_ids st1 = image_ids st
       ∧ map owner (imageNodes st1) = map owner (imageNodes st)
       ∧ map node_position (imageNodes st1)
         = map node_position (imageNodes st)
       ∧ ∀ n, n ∈ imageNodes st1 → node_id n = i →
           img_isLoading (node_data n) = false
           ∧ img_imageUrl (node_data n) = Some u
           ∧ img_imageBlobId (node_data n) = b
           ∧ img_duration (node_data n) = Some d)
  ∧ (∀ e,
       let st1 := updateImageError i e st in
       configNodes st1 = configNodes st ∧ same_but_nodes st st1
       ∧ image_ids st1 = image_ids st
       ∧ map owner (imageNodes st1) = map owner (imageNodes st)
       ∧ map node_position (imageNodes st1)
         = map node_position (imageNodes st)
       ∧ ∀ n, n ∈ imageNodes st1 → node_id n = i →
           img_isLoading (node_data n) = false
           ∧ img_error (node_data n) = Some e).
Proof.
  split; [|split].
  - intros Hno.
    assert (Hf : ∀ n, n ∈ imageNodes st → String.eqb (node_id n) i = false).
    { intros n Hn. apply eqb_false_iff. intros E. apply Hno. rewrite <- E.
      unfold image_ids. change (map ?f ?l) with (f <$> l).
      by apply list_elem_of_fmap_2. }
    split; [intros u d b|intros e];
      unfold updateImageGenerated, updateImageError;
      rewrite map_if_none by done; apply set_nodes_same.
  - intros u d b. cbv zeta. unfold updateImageGenerated, image_ids.
    cbn [set_nodes configNodes imageNodes].
    rewrite !map_if_same by done.
    repeat (split; [done|]). intros n Hn Hid.
    change (map ?f ?l) with (f <$> l) in Hn.
    apply list_elem_of_fmap in Hn as (n0 & -> & _).
    destruct (String.eqb (node_id n0) i) eqn:E; [done|].
    apply String.eqb_neq in E. done.
  - intros e. cbv zeta. unfold updateImageError, image_ids.
    cbn [set_nodes configNodes imageNodes].
    rewrite !map_if_same by done.
    repeat (split; [done|]). intros n Hn Hid.
    change (map ?f ?l) with (f <$> l) in Hn.
    apply list_elem_of_fmap in Hn as (n0 & -> & _).
    destruct (String.eqb (node_id n0) i) eqn:E; [done|].
    apply String.eqb_neq in E. done.
Qed.

Lemma updateImage_frame_witness :
  let st := run two_configs initialState in
  updateImageGenerated "image-9" "blob:9" "1s" (Some "image-9") st = st
  ∧ updateImageError "image-9" "timeout" st = st
  ∧ map (λ n, img_error (node_data n))
      (imageNodes (updateImageError "image-2" "timeout" st))
    = [Some "timeout"; None; None].
Proof.
  cbv zeta.
  destruct (updateImage_frame "image-9" (run two_configs initialState))
    as (Hnoop & _).
  destruct Hnoop as [Hg He].
  { refine (bool_decide_unpack _ _). vm_compute. exact I. }
  split; [apply Hg|]. split; [apply He|]. vm_compute. reflexivity.
Defined.

(** *** A registered blob is purged with its configuration *)



(** *** Dragging *)

Lemma find_map_same {A : Type} (p : A → bool) (f : A → A) (l : list A) :
  (∀ a, p (f a) = p a) → find p (map f l) = f <$> find p l.
Proof.
  intros Hp. induction l as [|a l IH]; [done|]. cbn.
  rewrite Hp. by destruct (p a).
Qed.

Lemma NoDup_map_eq {A B : Type} (f : A → B) (l : list A) (a b : A) :
  NoDup (map f l) → a ∈ l → b ∈ l → f a = f b → a = b.
Proof.
  induction l as [|x l IH]; intros Hnd Ha Hb E; [by apply elem_of_nil in Ha|].
  cbn in Hnd. apply NoDup_cons in Hnd as [Hx Hnd].
  apply elem_of_cons in Ha as [->|Ha]; apply elem_of_cons in Hb as [->|Hb].
  - done.
  - destruct Hx. rewrite E. change (map ?f ?l) with (f <$> l).
    by apply list_elem_of_fmap_2.
  - destruct Hx. rewrite <- E. change (map ?f ?l) with (f <$> l).
    by apply list_elem_of_fmap_2.
  - by apply IH.
Qed.

Lemma map_fix {A : Type} (f : A → A) (l : list A) :
  (∀ a, a ∈ l → f a = a) → map f l = l.
Proof.
  induction l as [|a l IH]; intros H; [done|]. cbn.
  rewrite (H a) by left. f_equal. apply IH. intros b Hb. apply H. by right.
Qed.

Lemma find_Some_elem {A : Type} (p : A → bool) (l : list A) (a : A) :
  find p l = Some a → a ∈ l ∧ p a = true.
Proof.
  intros H. apply find_some in H as [H1 H2]. split; [|done].
  by apply list_elem_of_In.
Qed.

(** On integer coordinates two drags of a configuration in a row amount
    to the second one, and a drag to the position the configuration already
    has changes nothing when the configuration ids are distinct. *)
Lemma updateConfigPosition_composes_integers (c : string) (st : FlowState) :
  (∀ x1 y1 x2 y2,
     updateConfigPosition c x2 y2 (updateConfigPosition c x1 y1 st)
     = updateConfigPosition c x2 y2 st)
  ∧ (NoDup (config_ids st) →
     ∀ cn, cn ∈ configNodes st → node_id cn = c →
       updateConfigPosition c (pos_x (node_position cn))
         (pos_y (node_position cn)) st = st
       ∧ ∀ x y,
           updateConfigPosition c (pos_x (node_position cn))
             (pos_y (node_position cn)) (updateConfigPosition c x y st)
           = st).
Proof.
  assert (Hcomp : ∀ x1 y1 x2 y2,
            updateConfigPosition c x2 y2 (updateConfigPosition c x1 y1 st)
            = updateConfigPosition c x2 y2 st).
  { intros x1 y1 x2 y2. unfold updateConfigPosition at 2 3.
    destruct (find _ (configNodes st)) as [cn|] eqn:Hf.
    - unfold updateConfigPosition. cbn [set_nodes configNodes imageNodes].
      rewrite find_map_same
        by (intros a; destruct (String.eqb (node_id a) c) eqn:E; done).
      rewrite Hf. cbn [fmap option_fmap option_map].
      apply find_Some_elem in Hf as [_ Hc]. rewrite Hc.
      cbn [with_position node_position pos_x pos_y set_nodes
             previewConfig editingConfigId isEditingModified
             lightboxImageId storageLimitState nodeIdCounter _hasHydrated].
      f_equal; rewrite map_map; apply map_ext; intros n.
      + by destruct (String.eqb (node_id n) c) eqn:E; cbn; rewrite ?E.
      + destruct (String.eqb (img_configId (node_data n)) c) eqn:E; cbn;
          rewrite ?E; [|done].
        unfold with_position. cbn. do 2 f_equal; lia.
    - unfold updateConfigPosition. by rewrite Hf. }
  split; [exact Hcomp|].
  intros Hnd cn Hcn Hid.
  assert (Hsame : updateConfigPosition c (pos_x (node_position cn))
                    (pos_y (node_position cn)) st = st).
  { unfold updateConfigPosition.
    destruct (find _ (configNodes st)) as [cn0|] eqn:Hf; [|done].
    apply find_Some_elem in Hf as [Hcn0 Hc0]. apply String.eqb_eq in Hc0.
    assert (cn0 = cn) as ->.
    { apply (NoDup_map_eq node_id (configNodes st)); try done. congruence. }
    rewrite !map_fix; [apply set_nodes_same| |].
    - intros n _. destruct (String.eqb _ c); [|done].
      destruct n as [? ? [px py] ? ?]. unfold with_position. cbn.
      do 2 f_equal; lia.
    - intros n Hn. destruct (String.eqb (node_id n) c) eqn:E; [|done].
      apply String.eqb_eq in E.
      assert (n = cn) as ->.
      { apply (NoDup_map_eq node_id (configNodes st)); try done.
        congruence. }
      destruct cn as [? ? [] ? ?]. done. }
  split; [done|]. intros x y. by rewrite Hcomp.
Qed.


End GraphStoreCalls.

(* ===================================================================== *)
(** * Dragging, with positions as numbers *)
(* ===================================================================== *)

Section Dragging.

Import FlowStore64.

Lemma find_of_node {D : Type} (p : string → bool)
    (l : list (FlowStore.Node D)) :
  find (λ n, p (node_id n)) (map of_node l)
  = of_node <$> find (λ n, p (FlowStore.node_id n)) l.
Proof.
  induction l as [|a l IH]; [done|]. cbn.
  destruct (p (FlowStore.node_id a)); [done|]. apply IH.
Qed.

Lemma within_weaken (b b' : Z) (st : FlowStore.FlowState) :
  b ≤ b' → within b st → within b' st.
Proof.
  intros Hb [Hc Hi]. split; intros n Hn.
  - destruct (Hc n Hn). lia.
  - destruct (Hi n Hn). lia.
Qed.

(** A drag to a position within [b] leaves the positions within [3 * b]. *)
Lemma within_updateConfigPosition (c : string) (x y b : Z)
    (st : FlowStore.FlowState) :
  within b st → Z.abs x ≤ b → Z.abs y ≤ b →
  within (3 * b) (FlowStore.updateConfigPosition c x y st).
Proof.
  intros Hw Hx Hy. unfold FlowStore.updateConfigPosition.
  destruct (find _ (FlowStore.configNodes st)) as [cn|] eqn:Hf.
  - apply find_Some_elem in Hf as [Hcn _].
    destruct Hw as [Hc Hi]. destruct (Hc cn Hcn) as [Hpx Hpy].
    split; cbn [FlowStore.set_nodes FlowStore.configNodes
                  FlowStore.imageNodes]; intros n Hn;
      change (map ?f ?l) with (f <$> l) in Hn;
      apply list_elem_of_fmap in Hn as (n0 & -> & Hn0).
    + destruct (Hc n0 Hn0).
      destruct (String.eqb (FlowStore.node_id n0) c); cbn; lia.
    + destruct (Hi n0 Hn0).
      destruct (String.eqb _ c); cbn; lia.
  - apply (within_weaken b); [lia|done].
Qed.

(** On integer coordinates that leave room for the sums, the function
    computes what [FlowStore.updateConfigPosition] computes on the
    integers. *)
Lemma updateConfigPosition_integers (c : string) (X Y b : Z)
    (st : FlowStore.FlowState) :
  within b st → Z.abs X ≤ b → Z.abs Y ≤ b → 3 * b < 2 ^ 53 →
  updateConfigPosition c (of_Z X) (of_Z Y) (of_state st)
  = of_state (FlowStore.updateConfigPosition c X Y st).
Proof.
  intros [Hc Hi] HX HY Hb.
  unfold updateConfigPosition, FlowStore.updateConfigPosition.
  cbn [of_state configNodes imageNodes].
  pose proof (find_of_node (λ s, String.eqb s c) (FlowStore.configNodes st))
    as Hfind.
  cbn beta in Hfind. rewrite Hfind. clear Hfind.
  destruct (find _ (FlowStore.configNodes st)) as [cn|] eqn:Hf;
    cbn [fmap option_fmap option_map]; [|done].
  apply find_Some_elem in Hf as [Hcn _]. destruct (Hc cn Hcn) as [Hpx Hpy].
  unfold set_nodes, of_state.
  cbn [configNodes imageNodes previewConfig editingConfigId
         isEditingModified lightboxImageId storageLimitState nodeIdCounter
         _hasHydrated FlowStore.set_nodes FlowStore.configNodes
         FlowStore.imageNodes FlowStore.previewConfig
         FlowStore.editingConfigId FlowStore.isEditingModified
         FlowStore.lightboxImageId FlowStore.storageLimitState
         FlowStore.nodeIdCounter FlowStore._hasHydrated].
  f_equal; rewrite !map_map.
  - apply map_ext. intros n. cbn [of_node node_id].
    by destruct (String.eqb (FlowStore.node_id n) c).
  - apply map_ext_in. intros n Hn. apply list_elem_of_In in Hn.
    destruct (Hi n Hn) as [Hnx Hny]. cbn [of_node node_data].
    destruct (String.eqb _ c); [|done].
    unfold with_position, FlowStore.with_position, of_node, of_position.
    cbn [node_id node_type node_position node_data node_draggable
           pos_x pos_y FlowStore.node_id FlowStore.node_type
           FlowStore.node_position FlowStore.node_data
           FlowStore.node_draggable FlowStore.pos_x FlowStore.pos_y].
    rewrite !sub_of_Z by lia. rewrite !add_of_Z by lia. done.
Qed.

(** C7, as the code has it.  When [c] is the id of a configuration node,
    at position [(px, py)] (the first such node of the list),
    [updateConfigPosition] puts the nodes with id [c] at [(x, y)] and every
    image node owned by
    [c], at [(nx, ny)], at [(nx + (x - px), ny + (y - py))], where [+] and
    [-] are the additions and subtractions of binary64 numbers, each
    rounded; no other node changes, no node changes anything but its
    position, and the rest of the state stays as it was.  When the
    coordinates are integers of magnitude at most [2^51] no sum is rounded,
    and the images move by exactly [(x - px, y - py)].  When no
    configuration node has id [c] the state is unchanged. *)
Theorem updateConfigPosition_translates (c : string) (x y : number)
    (st : FlowState) :
  let st' := updateConfigPosition c x y st in
  (∀ pre cn post,
     configNodes st = pre ++ cn :: post →
     node_id cn = c → (∀ n, n ∈ pre → node_id n ≠ c) →
     let dx := sub x (pos_x (node_position cn)) in
     let dy := sub y (pos_y (node_position cn)) in
     same_but_nodes64 st st'
     ∧ length (configNodes st') = length (configNodes st)
     ∧ length (imageNodes st') = length (imageNodes st)
     ∧ (∀ (i : nat) n, configNodes st !! i = Some n →
          ∃ n', configNodes st' !! i = Some n'
                ∧ same_but_position64 n n'
                ∧ (node_id n = c →
                   node_position n' = {| pos_x := x; pos_y := y |})
                ∧ (node_id n ≠ c → n' = n))
     ∧ (∀ (i : nat) n, imageNodes st !! i = Some n →
          ∃ n', imageNodes st' !! i = Some n'
                ∧ same_but_position64 n n'
                ∧ (owner64 n = c →
                   node_position n'
                   = {| pos_x := add (pos_x (node_position n)) dx;
                        pos_y := add (pos_y (node_position n)) dy |})
                ∧ (owner64 n ≠ c → n' = n))
     ∧ (∀ X Y PX PY : Z,
          x = of_Z X → y = of_Z Y →
          node_position cn = {| pos_x := of_Z PX; pos_y := of_Z PY |} →
          Z.abs X ≤ 2 ^ 51 → Z.abs Y ≤ 2 ^ 51 →
          Z.abs PX ≤ 2 ^ 51 → Z.abs PY ≤ 2 ^ 51 →
          ∀ (i : nat) n (NX NY : Z),
            imageNodes st !! i = Some n → owner64 n = c →
            node_position n = {| pos_x := of_Z NX; pos_y := of_Z NY |} →
            Z.abs NX ≤ 2 ^ 51 → Z.abs NY ≤ 2 ^ 51 →
            ∃ n', imageNodes st' !! i = Some n'
                  ∧ node_position n'
                    = {| pos_x := of_Z (NX + (X - PX));
                         pos_y := of_Z (NY + (Y - PY)) |}))
  ∧ ((∀ n, n ∈ configNodes st → node_id n ≠ c) → st' = st).
Proof.
  cbv zeta. split.
  - intros pre cn post Hl Hcn Hpre.
    assert (Him : ∀ (i : nat) n, imageNodes st !! i = Some n →
              ∃ n', imageNodes (updateConfigPosition c x y st) !! i = Some n'
                ∧ same_but_position64 n n'
                ∧ (owner64 n = c →
                   node_position n'
                   = {| pos_x := add (pos_x (node_position n))
                                   (sub x (pos_x (node_position cn)));
                        pos_y := add (pos_y (node_position n))
                                   (sub y (pos_y (node_position cn))) |})
                ∧ (owner64 n ≠ c → n' = n)).
    { unfold updateConfigPosition.
      rewrite Hl, (find_first _ pre cn post); cycle 1.
      { by apply String.eqb_eq. }
      { intros b Hb. by apply eqb_false_iff, Hpre. }
      rewrite <- Hl. cbn [configNodes imageNodes set_nodes].
      intros i n Hn. change (map ?f ?l) with (f <$> l).
      rewrite list_lookup_fmap, Hn. cbn. unfold owner64.
      destruct (String.eqb_spec (FlowStore.img_configId (node_data n)) c)
        as [E|E]; eexists; (split; [reflexivity|]); done. }
    split; [|split; [|split; [|split; [|split; [exact Him|]]]]].
    + unfold updateConfigPosition.
      rewrite Hl, (find_first _ pre cn post); cycle 1.
      { by apply String.eqb_eq. }
      { intros b Hb. by apply eqb_false_iff, Hpre. }
      done.
    + unfold updateConfigPosition.
      destruct (find _ (configNodes st)); [|done].
      cbn [configNodes set_nodes]. by rewrite length_map.
    + unfold updateConfigPosition.
      destruct (find _ (configNodes st)); [|done].
      cbn [imageNodes set_nodes]. by rewrite length_map.
    + unfold updateConfigPosition.
      rewrite Hl, (find_first _ pre cn post); cycle 1.
      { by apply String.eqb_eq. }
      { intros b Hb. by apply eqb_false_iff, Hpre. }
      rewrite <- Hl. cbn [configNodes imageNodes set_nodes].
      intros i n Hn. change (map ?f ?l) with (f <$> l).
      rewrite list_lookup_fmap, Hn. cbn.
      destruct (String.eqb_spec (node_id n) c) as [E|E];
        eexists; (split; [reflexivity|]); done.
    + intros X Y PX PY -> -> Hp HX HY HPX HPY i n NX NY Hn Ho Hnp HNX HNY.
      destruct (Him i n Hn) as (n' & Hn' & _ & Hpos & _).
      exists n'. split; [done|]. rewrite (Hpos Ho), Hp, Hnp.
      cbn [pos_x pos_y].
      assert (2 ^ 51 * 4 = 2 ^ 53) by done.
      rewrite !sub_of_Z by lia. rewrite !add_of_Z by lia. done.
  - intros Hno. unfold updateConfigPosition.
    rewrite find_none; [done|].
    intros b Hb. by apply eqb_false_iff, Hno.
Qed.

Lemma updateConfigPosition_translates_witness :
  let st := of_state (run at_origin initialState) in
  let st' := updateConfigPosition "config-1" (of_Z 10) (of_Z 20) st in
  map node_position (configNodes st)
  = [ {| pos_x := of_Z 0; pos_y := of_Z 0 |} ]
  ∧ map node_position (imageNodes st)
    = [ {| pos_x := of_Z 0; pos_y := of_Z 220 |};
        {| pos_x := of_Z 0; pos_y := of_Z 500 |} ]
  ∧ map node_position (configNodes st')
    = [ {| pos_x := of_Z 10; pos_y := of_Z 20 |} ]
  ∧ (∃ n', imageNodes st' !! 0%nat = Some n'
           ∧ node_position n'
             = {| pos_x := of_Z (0 + (10 - 0));
                  pos_y := of_Z (220 + (20 - 0)) |})
  ∧ (∃ n', imageNodes st' !! 1%nat = Some n'
           ∧ node_position n'
             = {| pos_x := of_Z (0 + (10 - 0));
                  pos_y := of_Z (500 + (20 - 0)) |})
  ∧ same_but_nodes64 st st'
  ∧ updateConfigPosition "config-9" (of_Z 10) (of_Z 20) st = st.
Proof.
  cbv zeta.
  destruct (updateConfigPosition_translates "config-1" (of_Z 10) (of_Z 20)
              (of_state (run at_origin initialState))) as [Hmove _].
  destruct (updateConfigPosition_translates "config-9" (of_Z 10) (of_Z 20)
              (of_state (run at_origin initialState))) as [_ Hnoop].
  pose (cn := of_node
                {| FlowStore.node_id := "config-1";
                   FlowStore.node_type := FlowStore.configNode;
                   FlowStore.node_position :=
                     {| FlowStore.pos_x := 0; FlowStore.pos_y := 0 |};
                   FlowStore.node_data :=
                     {| FlowStore.cfg_id := "config-1";
                        FlowStore.cfg_prompt := "a lighthouse at dusk";
                        FlowStore.cfg_width := 1024;
                        FlowStore.cfg_height := 768;
                        FlowStore.cfg_batchCount := 2;
                        FlowStore.cfg_seed := of_Z 10;
                        FlowStore.cfg_timestamp := 1700000000000;
                        FlowStore.cfg_isPreview := false |};
                   FlowStore.node_draggable := true |}).
  destruct (Hmove [] cn []) as (Hsame & _ & _ & _ & _ & Hint).
  { vm_compute. reflexivity. }
  { reflexivity. }
  { intros n Hn. by apply elem_of_nil in Hn. }
  assert (Hb : ∀ z, Z.abs z ≤ 1000 → Z.abs z ≤ 2 ^ 51).
  { intros z Hz. assert (1000 ≤ 2 ^ 51) by done. lia. }
  specialize (Hint 10 20 0 0 eq_refl eq_refl eq_refl).
  specialize (Hint ltac:(apply Hb; lia) ltac:(apply Hb; lia)
                ltac:(apply Hb; lia) ltac:(apply Hb; lia)).
  repeat (split; [vm_compute; reflexivity|]).
  split.
  { eapply (Hint 0%nat _ 0 220); [reflexivity|reflexivity|reflexivity| |];
      apply Hb; lia. }
  split.
  { eapply (Hint 1%nat _ 0 500); [reflexivity|reflexivity|reflexivity| |];
      apply Hb; lia. }
  split; [exact Hsame|].
  apply Hnoop. intros n Hn.
  change (configNodes (of_state (run at_origin initialState))) with [cn]
    in Hn.
  apply list_elem_of_singleton in Hn as ->. discriminate.
Defined.

(** C7, as the specification words it, fails for fractions: the
    differences and the sums are rounded.  The configuration at (100, 100)
    has its three images in its column, at x = 100.  After the drag to
    (0.1, 0.2) the configuration stands at x = 0.1, which is
    7205759403792794 * 2^-56, and the images at 100 + (0.1 - 100), which
    is 7205759403792384 * 2^-56 (0.09999999999999432): they have not
    moved by the same delta and have left the column. *)
Lemma updateConfigPosition_translates_counterexample :
  let st := of_state (FlowStore.confirmConfig previewed).2 in
  let st' := updateConfigPosition "config-1" (decimal 1 1) (decimal 2 1) st in
  config_xs st = [ of_Z 100 ]
  ∧ image_xs st = [ of_Z 100; of_Z 100; of_Z 100 ]
  ∧ config_xs st' = [ decimal 1 1 ]
  ∧ image_xs st'
    = [ SpecFloat.S754_finite false 7205759403792384 (-56);
        SpecFloat.S754_finite false 7205759403792384 (-56);
        SpecFloat.S754_finite false 7205759403792384 (-56) ]
  ∧ decimal 1 1 = SpecFloat.S754_finite false 7205759403792794 (-56).
Proof. vm_compute. repeat split. Qed.

(** X17.  On integer coordinates of magnitude at most [2^49], two drags of
    a configuration in a row amount to the second one: the images end where
    a single drag to the final position would have put them.  When the
    configuration ids are distinct, a drag to the position the
    configuration already has changes nothing, so dragging away and back
    restores the whole state. *)
Theorem updateConfigPosition_composes (c : string)
    (st : FlowStore.FlowState) :
  within (2 ^ 49) st →
  (∀ x1 y1 x2 y2,
     Z.abs x1 ≤ 2 ^ 49 → Z.abs y1 ≤ 2 ^ 49 →
     Z.abs x2 ≤ 2 ^ 49 → Z.abs y2 ≤ 2 ^ 49 →
     updateConfigPosition c (of_Z x2) (of_Z y2)
       (updateConfigPosition c (of_Z x1) (of_Z y1) (of_state st))
     = updateConfigPosition c (of_Z x2) (of_Z y2) (of_state st))
  ∧ (NoDup (config_ids st) →
     ∀ cn, cn ∈ FlowStore.configNodes st → FlowStore.node_id cn = c →
       let px := FlowStore.pos_x (FlowStore.node_position cn) in
       let py := FlowStore.pos_y (FlowStore.node_position cn) in
       updateConfigPosition c (of_Z px) (of_Z py) (of_state st) = of_state st
       ∧ ∀ x y,
           Z.abs x ≤ 2 ^ 49 → Z.abs y ≤ 2 ^ 49 →
           updateConfigPosition c (of_Z px) (of_Z py)
             (updateConfigPosition c (of_Z x) (of_Z y) (of_state st))
           = of_state st).
Proof.
  intros Hw.
  assert (H49 : 2 ^ 49 * 16 = 2 ^ 53) by done.
  destruct (updateConfigPosition_composes_integers c st) as [Hcomp Hback].
  assert (Htwo : ∀ x1 y1 x2 y2,
            Z.abs x1 ≤ 2 ^ 49 → Z.abs y1 ≤ 2 ^ 49 →
            Z.abs x2 ≤ 2 ^ 49 → Z.abs y2 ≤ 2 ^ 49 →
            updateConfigPosition c (of_Z x2) (of_Z y2)
              (updateConfigPosition c (of_Z x1) (of_Z y1) (of_state st))
            = of_state (FlowStore.updateConfigPosition c x2 y2 st)).
  { intros x1 y1 x2 y2 H1 H2 H3 H4.
    rewrite (updateConfigPosition_integers c x1 y1 (2 ^ 49)) by (done || lia).
    rewrite (updateConfigPosition_integers c x2 y2 (3 * 2 ^ 49)); try lia.
    - by rewrite Hcomp.
    - by apply within_updateConfigPosition. }
  split.
  - intros x1 y1 x2 y2 H1 H2 H3 H4. rewrite Htwo by done.
    by rewrite (updateConfigPosition_integers c x2 y2 (2 ^ 49))
      by (done || lia).
  - intros Hnd cn Hcn Hid. cbv zeta.
    destruct (Hback Hnd cn Hcn Hid) as [Hsame _].
    destruct Hw as [Hc Hi]. destruct (Hc cn Hcn) as [Hpx Hpy].
    split.
    + rewrite (updateConfigPosition_integers c _ _ (2 ^ 49))
        by (done || lia).
      by rewrite Hsame.
    + intros x y Hx Hy. rewrite Htwo by done. by rewrite Hsame.
Qed.

Lemma updateConfigPosition_composes_witness :
  let st := of_state (run at_origin initialState) in
  updateConfigPosition "config-1" (of_Z 0) (of_Z 0)
    (updateConfigPosition "config-1" (of_Z 640) (of_Z 480) st) = st
  ∧ updateConfigPosition "config-1" (of_Z 30) (of_Z 40)
      (updateConfigPosition "config-1" (of_Z 640) (of_Z 480) st)
    = updateConfigPosition "config-1" (of_Z 30) (of_Z 40) st.
Proof.
  cbv zeta.
  assert (Hb : ∀ z, Z.abs z ≤ 1000 → Z.abs z ≤ 2 ^ 49).
  { intros z Hz. assert (1000 ≤ 2 ^ 49) by done. lia. }
  destruct (updateConfigPosition_composes "config-1"
              (run at_origin initialState)) as [Hcomp Hback].
  { split; intros n Hn; vm_compute in Hn;
      repeat (apply elem_of_cons in Hn as [->|Hn]);
      try (by apply elem_of_nil in Hn);
      split; apply Hb; vm_compute; discriminate. }
  split; [|apply Hcomp; apply Hb; lia].
  pose (cn := {| FlowStore.node_id := "config-1";
                 FlowStore.node_type := FlowStore.configNode;
                 FlowStore.node_position :=
                   {| FlowStore.pos_x := 0; FlowStore.pos_y := 0 |};
                 FlowStore.node_data :=
                   {| FlowStore.cfg_id := "config-1";
                      FlowStore.cfg_prompt := "a lighthouse at dusk";
                      FlowStore.cfg_width := 1024;
                      FlowStore.cfg_height := 768;
                      FlowStore.cfg_batchCount := 2;
                      FlowStore.cfg_seed := of_Z 10;
                      FlowStore.cfg_timestamp := 1700000000000;
                      FlowStore.cfg_isPreview := false |};
                 FlowStore.node_draggable := true |}).
  destruct (Hback) with (cn := cn) as [_ Hbk].
  - apply NoDup_singleton.
  - left.
  - reflexivity.
  - apply (Hbk 640 480); apply Hb; lia.
Defined.

(** With fractions the sums are rounded and two drags are not the second
    one alone: after the drags to (0.1, 0.2) and then to (0.3, 0.4) the
    images stand at another x than after the single drag to (0.3, 0.4). *)
Example fractional_drags_do_not_compose :
  let st := of_state (FlowStore.confirmConfig previewed).2 in
  image_xs
    (updateConfigPosition "config-1" (decimal 3 1) (decimal 4 1)
       (updateConfigPosition "config-1" (decimal 1 1) (decimal 2 1) st))
  = [ SpecFloat.S754_finite false 5404319552844492 (-54);
      SpecFloat.S754_finite false 5404319552844492 (-54);
      SpecFloat.S754_finite false 5404319552844492 (-54) ]
  ∧ image_xs (updateConfigPosition "config-1" (decimal 3 1) (decimal 4 1) st)
    = [ SpecFloat.S754_finite false 5404319552844544 (-54);
        SpecFloat.S754_finite false 5404319552844544 (-54);
        SpecFloat.S754_finite false 5404319552844544 (-54) ].
Proof. vm_compute. done. Qed.

End Dragging.

Section GraphStoreInvariants.

Implicit Types (st : FlowState) (cfg : ConfigData) (c : string).

(** *** Families along a run *)

Lemma families_initial : families initialState.
Proof. split; intros n Hn; cbn in Hn; by apply elem_of_nil in Hn. Qed.

Lemma child_of_same (cn cn' : Node ConfigData) (n n' : Node ImageData) i :
  node_id cn' = node_id cn → node_data cn' = node_data cn →
  node_position cn' = node_position cn →
  node_id n' = node_id n → node_position n' = node_position n →
  img_id (node_data n') = img_id (node_data n) →
  img_configId (node_data n') = img_configId (node_data n) →
  img_seed (node_data n') = img_seed (node_data n) →
  img_prompt (node_data n') = img_prompt (node_data n) →
  img_width (node_data n') = img_width (node_data n) →
  img_height (node_data n') = img_height (node_data n) →
  child_of cn n i → child_of cn' n' i.
Proof.
  unfold child_of, owner.
  intros -> -> -> -> -> -> -> -> -> -> ->. done.
Qed.

Lemma families_same_nodes st st' :
  configNodes st' = configNodes st → imageNodes st' = imageNodes st →
  families st → families st'.
Proof. unfold families. by intros -> ->. Qed.

Lemma families_update_data i (f : ImageData → ImageData) st :
  (∀ d, img_id (f d) = img_id d ∧ img_configId (f d) = img_configId d
        ∧ img_seed (f d) = img_seed d ∧ img_prompt (f d) = img_prompt d
        ∧ img_width (f d) = img_width d ∧ img_height (f d) = img_height d) →
  families st →
  families
    (set_nodes st (configNodes st)
       (map (λ n, if String.eqb (node_id n) i
                  then with_data n (f (node_data n)) else n)
          (imageNodes st))).
Proof.
  intros Hf [Hc Hi]. split; [done|]. intros n' Hn'.
  cbn [set_nodes imageNodes configNodes] in *.
  change (map ?g ?l) with (g <$> l) in Hn'.
  apply list_elem_of_fmap in Hn' as (n & -> & Hn).
  destruct (Hi n Hn) as (Ht & cn & j & Hcn & Hch).
  destruct (String.eqb (node_id n) i); [|by eauto].
  split; [done|]. exists cn, j. split; [done|].
  destruct (Hf (node_data n)) as (? & ? & ? & ? & ? & ?).
  by apply (child_of_same cn cn n).
Qed.

Lemma families_confirm st cfg :
  previewConfig st = Some cfg → families st → families (confirmConfig st).2.
Proof.
  intros Hp [Hc Hi]. rewrite (confirmConfig_Some _ cfg) by done.
  split; cbn [snd configNodes imageNodes].
  - intros cn Hcn. apply elem_of_app in Hcn as [Hcn|Hcn]; [by apply Hc|].
    apply list_elem_of_singleton in Hcn as ->. done.
  - intros n Hn. apply elem_of_app in Hn as [Hn|Hn].
    + destruct (Hi n Hn) as (Ht & cn & j & Hcn & Hch).
      split; [done|]. exists cn, j. split; [|done].
      apply elem_of_app. by left.
    + apply list_elem_of_lookup in Hn as [j Hj].
      apply lookup_newImageNodes in Hj as [-> Hlt].
      split; [done|].
      exists (newConfigNode st cfg), (Z.of_nat j). split.
      { apply elem_of_app. right. left. }
      split; [cbn; lia|]. split.
      { exists (nodeIdCounter st + 1). split; [done|]. cbn.
        do 2 f_equal. lia. }
      done.
Qed.

Lemma families_delete c st : families st → families (deleteConfig c st).1.
Proof.
  intros [Hc Hi]. split; cbn [deleteConfig fst set_nodes configNodes
    imageNodes].
  - intros cn Hcn. apply list_elem_of_In, filter_In in Hcn as [Hcn _].
    by apply Hc, list_elem_of_In.
  - intros n Hn. apply list_elem_of_In, filter_In in Hn as [Hn Hne].
    apply list_elem_of_In in Hn.
    destruct (Hi n Hn) as (Ht & cn & j & Hcn & Hch).
    split; [done|]. exists cn, j. split; [|done].
    apply list_elem_of_In, filter_In. split; [by apply list_elem_of_In|].
    destruct Hch as (_ & _ & Hown & _). unfold owner in Hown.
    by rewrite <- Hown.
Qed.

Lemma families_drag c x y st :
  NoDup (config_ids st) → families st →
  families (updateConfigPosition c x y st).
Proof.
  intros Hnd [Hc Hi]. unfold updateConfigPosition.
  destruct (find _ (configNodes st)) as [cn0|] eqn:Hf; [|done].
  apply find_Some_elem in Hf as [Hcn0 Hid0]. apply String.eqb_eq in Hid0.
  split; cbn [set_nodes configNodes imageNodes].
  - intros cn' Hcn'. change (map ?g ?l) with (g <$> l) in Hcn'.
    apply list_elem_of_fmap in Hcn' as (cn & -> & Hcn).
    destruct (String.eqb (node_id cn) c); exact (Hc cn Hcn).
  - intros n' Hn'. change (map ?g ?l) with (g <$> l) in Hn'.
    apply list_elem_of_fmap in Hn' as (n & -> & Hn).
    destruct (Hi n Hn) as (Ht & cn & j & Hcn & Hch).
    pose proof Hch as (Hj & Hids & Hown & Hid & Hseed & Hpos & Hdata).
    unfold owner in Hown.
    destruct (String.eqb (img_configId (node_data n)) c) eqn:E.
    + apply String.eqb_eq in E.
      assert (cn = cn0) as ->.
      { apply (NoDup_map_eq node_id (configNodes st)); try done.
        congruence. }
      split; [done|].
      exists (with_position cn0 {| pos_x := x; pos_y := y |}), j.
      split.
      { change (map ?g ?l) with (g <$> l). apply list_elem_of_fmap.
        exists cn0. split; [|done]. rewrite Hid0.
        by rewrite String.eqb_refl. }
      split; [done|]. split; [done|]. split; [done|]. split; [done|].
      split; [done|]. split; [|done].
      cbn [with_position node_position pos_x pos_y]. rewrite Hpos. cbn.
      f_equal; lia.
    + split; [done|]. exists cn, j. split; [|done].
      change (map ?g ?l) with (g <$> l). apply list_elem_of_fmap.
      exists cn. split; [|done].
      apply String.eqb_neq in E.
      destruct (String.eqb (node_id cn) c) eqn:E'; [|done].
      apply String.eqb_eq in E'. congruence.
Qed.

Lemma families_step a st :
  NoDup (config_ids st) → families st → families (step a st).1.
Proof.
  intros Hnd Hf. destruct a; cbn [step fst snd].
  - destruct config; by apply (families_same_nodes st).
  - destruct (previewConfig st) as [cfg|] eqn:Hp;
      [by apply (families_confirm _ cfg)|by rewrite confirmConfig_None].
  - unfold loadConfigForEditing. destruct (find _ _); [|done].
    by apply (families_same_nodes st).
  - by apply (families_same_nodes st).
  - by apply (families_same_nodes st).
  - by apply families_drag.
  - by apply (families_update_data _
                (λ d, {| img_id := img_id d; img_configId := img_configId d;
                         img_prompt := img_prompt d;
                         img_width := img_width d;
                         img_height := img_height d;
                         img_seed := img_seed d; img_imageUrl := Some url;
                         img_imageBlobId := blobId;
                         img_duration := Some duration;
                         img_isLoading := false;
                         img_error := img_error d |})).
  - by apply (families_update_data _
                (λ d, {| img_id := img_id d; img_configId := img_configId d;
                         img_prompt := img_prompt d;
                         img_width := img_width d;
                         img_height := img_height d;
                         img_seed := img_seed d;
                         img_imageUrl := img_imageUrl d;
                         img_imageBlobId := img_imageBlobId d;
                         img_duration := img_duration d;
                         img_isLoading := false;
                         img_error := Some error |})).
  - by apply (families_same_nodes st).
  - by apply (families_same_nodes st).
  - by apply (families_same_nodes st).
  - by apply families_delete.
  - apply families_initial.
Qed.

Lemma families_run acts st :
  Forall batch_ok acts → fresh st → families st → families (run acts st).
Proof.
  revert st. induction acts as [|a acts IH]; intros st Hok Hfr Hfam; [done|].
  apply Forall_cons in Hok as [Ha Hok]. rewrite run_cons.
  apply IH; [done|by apply fresh_step|].
  apply families_step; [|done]. by destruct Hfr as (_ & ? & _).
Qed.

(** X18.  Deletions and updates never separate an image node from its
    configuration, and neither does a drag to integer coordinates.  Along
    every run from the initial state that makes no drag and whose previews
    have non-negative integer batch counts, each image node has its owner
    among the configuration nodes and sits in the owner's column,
    [220 + i * 280] below it, for a batch index [0 <= i < batchCount].
    When the positions of such a state are within [2^49], a drag to integer
    coordinates within [2^49], computed on binary64 numbers, leads to a
    state with integer positions of which the same holds. *)
Theorem images_stay_beneath (acts : list Action) :
  Forall batch_ok acts → Forall no_drag acts →
  let st := run acts initialState in
  beneath st
  ∧ ∀ c x y,
      within (2 ^ 49) st → Z.abs x ≤ 2 ^ 49 → Z.abs y ≤ 2 ^ 49 →
      ∃ st',
        FlowStore64.updateConfigPosition c (of_Z x) (of_Z y)
          (FlowStore64.of_state st)
        = FlowStore64.of_state st'
        ∧ beneath st'.
Proof.
  intros Hok _. cbv zeta.
  assert (Hb : ∀ acts', Forall batch_ok acts' →
                        beneath (run acts' initialState)).
  { intros acts' Hok' n Hn.
    destruct (families_run acts' initialState Hok' fresh_initial
                families_initial) as [_ Hi].
    destruct (Hi n Hn)
      as (_ & cn & i & Hcn & Hi' & _ & Hown & _ & _ & Hpos & _).
    by exists cn, i. }
  split; [by apply Hb|].
  intros c x y Hw Hx Hy.
  exists (updateConfigPosition c x y (run acts initialState)). split.
  - apply (updateConfigPosition_integers c x y (2 ^ 49)); try done.
  - specialize (Hb (acts ++ [UpdateConfigPosition c x y])).
    unfold run in Hb. rewrite foldl_app in Hb. apply Hb.
    apply Forall_app. split; [done|]. by repeat constructor.
Qed.

Lemma images_stay_beneath_witness :
  let st := run two_configs initialState in
  beneath st
  ∧ ∃ st',
      FlowStore64.updateConfigPosition "config-1" (of_Z 640) (of_Z 480)
        (FlowStore64.of_state st)
      = FlowStore64.of_state st'
      ∧ beneath st'.
Proof.
  cbv zeta.
  assert (Hb : ∀ z, Z.abs z ≤ 1000 → Z.abs z ≤ 2 ^ 49).
  { intros z Hz. assert (1000 ≤ 2 ^ 49) by done. lia. }
  destruct (images_stay_beneath two_configs) as [H1 H2].
  { repeat constructor; cbn; lia. }
  { repeat constructor. }
  split; [exact H1|].
  apply (H2 "config-1" 640 480); [|apply Hb; lia|apply Hb; lia].
  split; intros n Hn; vm_compute in Hn;
    repeat (apply elem_of_cons in Hn as [->|Hn]);
    try (by apply elem_of_nil in Hn);
    split; apply Hb; vm_compute; discriminate.
Defined.

(** The positions of that run: the configuration at (640, 480), its images
    220 and 500 below. *)
Example dragged_positions :
  let st := run (at_origin ++ [UpdateConfigPosition "config-1" 640 480])
              initialState in
  map node_position (configNodes st) = [ {| pos_x := 640; pos_y := 480 |} ]
  ∧ map node_position (imageNodes st)
    = [ {| pos_x := 640; pos_y := 700 |}; {| pos_x := 640; pos_y := 980 |} ].
Proof. vm_compute. done. Qed.

(** X19.  A confirmed configuration and its images stay in step: along
    every run from the initial state whose previews have non-negative
    integer batch counts, each configuration node carries its own id in its
    data and is no preview, and each image node carries its own id, is
    numbered [1 + i] after its owner, and has the owner's prompt and size
    and, as its seed, the binary64 sum of the owner's seed and [i], for a
    batch index [0 <= i < batchCount]. *)
Theorem images_copy_their_configuration (acts : list Action) :
  Forall batch_ok acts →
  let st := run acts initialState in
  (∀ cn, cn ∈ configNodes st →
     cfg_id (node_data cn) = node_id cn
     ∧ cfg_isPreview (node_data cn) = false)
  ∧ ∀ n, n ∈ imageNodes st →
      img_id (node_data n) = node_id n
      ∧ ∃ cn i k,
          cn ∈ configNodes st ∧ node_id cn = owner n
          ∧ 0 ≤ i < cfg_batchCount (node_data cn)
          ∧ node_id cn = "config-" +:+ pretty k
          ∧ node_id n = "image-" +:+ pretty (k + 1 + i)
          ∧ img_seed (node_data n) = add (cfg_seed (node_data cn)) (of_Z i)
          ∧ img_prompt (node_data n) = cfg_prompt (node_data cn)
          ∧ img_width (node_data n) = cfg_width (node_data cn)
          ∧ img_height (node_data n) = cfg_height (node_data cn).
Proof.
  intros Hok. cbv zeta.
  destruct (families_run acts initialState Hok fresh_initial
              families_initial) as [Hc Hi].
  split.
  - intros cn Hcn. destruct (Hc cn Hcn) as (? & ? & _). done.
  - intros n Hn.
    destruct (Hi n Hn)
      as (_ & cn & i & Hcn & Hi' & (k & Hk & Hk') & Hown & Hid & Hseed
            & _ & Hp & Hw & Hh).
    split; [done|]. by exists cn, i, k.
Qed.

Lemma images_copy_their_configuration_witness :
  let st := run two_configs initialState in
  Forall (λ n, img_id (node_data n) = node_id n) (imageNodes st).
Proof.
  cbv zeta. apply Forall_forall. intros n Hn.
  destruct (images_copy_their_configuration two_configs) as [_ Hi].
  { repeat constructor; cbn; lia. }
  by destruct (Hi n Hn) as [? _].
Defined.

(** *** Whole batches *)

Lemma children_ids_map c (f : Node ImageData → Node ImageData) st cs :
  (∀ n, owner (f n) = owner n ∧ node_id (f n) = node_id n) →
  children_ids c (set_nodes st cs (map f (imageNodes st)))
  = children_ids c st.
Proof.
  intros Hf. unfold children_ids. cbn [set_nodes imageNodes].
  induction (imageNodes st) as [|n l IH]; [done|]. cbn.
  destruct (Hf n) as [-> Hid].
  destruct (String.eqb (owner n) c); cbn; by rewrite ?Hid, IH.
Qed.

Lemma children_ids_app c st l1 l2 :
  imageNodes st = l1 ++ l2 →
  children_ids c st
  = map node_id (List.filter (λ n, String.eqb (owner n) c) l1)
    ++ map node_id (List.filter (λ n, String.eqb (owner n) c) l2).
Proof.
  intros E. unfold children_ids. by rewrite E, List.filter_app, map_app.
Qed.

Lemma bool_filter_none {A : Type} (p : A → bool) (l : list A) :
  (∀ a, a ∈ l → p a = false) → List.filter p l = [].
Proof.
  induction l as [|a l IH]; intros H; [done|]. cbn.
  rewrite (H a) by left. apply IH. intros b Hb. apply H. by right.
Qed.

Lemma whole_batches_initial : whole_batches initialState.
Proof. intros cn k Hcn. cbn in Hcn. by apply elem_of_nil in Hcn. Qed.

Lemma whole_batches_same st st' :
  configNodes st' = configNodes st → imageNodes st' = imageNodes st →
  whole_batches st → whole_batches st'.
Proof. unfold whole_batches, children_ids. by intros -> ->. Qed.

Lemma fresh_new_id st n :
  fresh st → n ∈ configNodes st →
  node_id n ≠ "config-" +:+ pretty (nodeIdCounter st + 1).
Proof.
  intros (_ & _ & _ & Hmc & _) Hn E. rewrite Forall_forall in Hmc.
  destruct (Hmc (node_id n)) as (k & Hk & Hle).
  { unfold config_ids. change (map ?f ?l) with (f <$> l).
    by apply list_elem_of_fmap_2. }
  rewrite E in Hk. apply minted_inj in Hk. lia.
Qed.

Lemma whole_batches_confirm st cfg :
  previewConfig st = Some cfg → fresh st → owners_present st →
  whole_batches st → whole_batches (confirmConfig st).2.
Proof.
  intros Hp Hfr Hown Hw cn k Hcn Hk.
  pose proof Hfr as (_ & _ & _ & _ & _ & Hb). specialize (Hb cfg Hp).
  rewrite (confirmConfig_Some _ cfg) in * by done.
  cbn [snd configNodes] in Hcn.
  rewrite (children_ids_app _ _ (imageNodes st) (newImageNodes st cfg))
    by done.
  apply elem_of_app in Hcn as [Hcn|Hcn].
  - destruct (Hw cn k Hcn Hk) as [Hb' Hids]. split; [done|].
    fold (children_ids (node_id cn) st). rewrite Hids.
    rewrite (bool_filter_none _ (newImageNodes st cfg)); [by rewrite app_nil_r|].
    intros n Hn. apply eqb_false_iff.
    apply list_elem_of_lookup in Hn as [i Hi].
    apply lookup_newImageNodes in Hi as [-> _]. cbn.
    intros E. by apply (fresh_new_id st cn).
  - apply list_elem_of_singleton in Hcn as ->. split; [done|].
    cbn [newConfigNode node_id node_data cfg_batchCount] in *.
    apply minted_inj in Hk as <-.
    rewrite (bool_filter_none _ (imageNodes st)).
    + rewrite bool_filter_id.
      * unfold newImageNodes. rewrite map_map. cbn. apply map_ext.
        intros i. do 2 f_equal. lia.
      * intros n Hn. apply String.eqb_eq.
        apply list_elem_of_lookup in Hn as [i Hi].
        by apply lookup_newImageNodes in Hi as [-> _].
    + intros n Hn. apply eqb_false_iff. intros E.
      specialize (Hown n Hn). rewrite E in Hown. unfold config_ids in Hown.
      change (map ?f ?l) with (f <$> l) in Hown.
      apply list_elem_of_fmap in Hown as (cn & Hid & Hcn).
      by apply (fresh_new_id st cn).
Qed.

Lemma whole_batches_delete c st :
  whole_batches st → whole_batches (deleteConfig c st).1.
Proof.
  intros Hw cn k Hcn Hk.
  cbn [deleteConfig fst set_nodes configNodes] in Hcn.
  apply list_elem_of_In, filter_In in Hcn as [Hcn Hne].
  apply list_elem_of_In in Hcn. apply negb_true_iff, String.eqb_neq in Hne.
  destruct (Hw cn k Hcn Hk) as [Hb Hids]. split; [done|].
  rewrite <- Hids. unfold children_ids, deleteConfig.
  cbn [fst set_nodes imageNodes]. f_equal.
  induction (imageNodes st) as [|n l IH]; [done|]. cbn. unfold owner in *.
  destruct (String.eqb (img_configId (node_data n)) c) eqn:E; cbn.
  - apply String.eqb_eq in E.
    destruct (String.eqb (img_configId (node_data n)) (node_id cn)) eqn:E';
      [|done].
    apply String.eqb_eq in E'. congruence.
  - by rewrite IH.
Qed.

Lemma whole_batches_step a st :
  fresh st → owners_present st → whole_batches st →
  whole_batches (step a st).1.
Proof.
  intros Hfr Hown Hw. destruct a; cbn [step fst snd].
  - destruct config; by apply (whole_batches_same st).
  - destruct (previewConfig st) as [cfg|] eqn:Hp;
      [by apply (whole_batches_confirm _ cfg)|by rewrite confirmConfig_None].
  - unfold loadConfigForEditing. destruct (find _ _); [|done].
    by apply (whole_batches_same st).
  - by apply (whole_batches_same st).
  - by apply (whole_batches_same st).
  - unfold updateConfigPosition. destruct (find _ _) as [cn0|]; [|done].
    intros cn k Hcn Hk. cbn [set_nodes configNodes] in Hcn.
    change (map ?g ?l) with (g <$> l) in Hcn.
    apply list_elem_of_fmap in Hcn as (cn1 & -> & Hcn1).
    rewrite children_ids_map
      by (intros n; by destruct (String.eqb (img_configId (node_data n)) _)).
    destruct (String.eqb (node_id cn1) configId); by apply (Hw cn1 k).
  - intros cn k Hcn Hk. unfold updateImageGenerated in *.
    rewrite children_ids_map
      by (intros n; by destruct (String.eqb (node_id n) _)).
    by apply Hw.
  - intros cn k Hcn Hk. unfold updateImageError in *.
    rewrite children_ids_map
      by (intros n; by destruct (String.eqb (node_id n) _)).
    by apply Hw.
  - by apply (whole_batches_same st).
  - by apply (whole_batches_same st).
  - by apply (whole_batches_same st).
  - by apply whole_batches_delete.
  - apply whole_batches_initial.
Qed.

Lemma whole_batches_run acts st :
  Forall batch_ok acts → fresh st → owners_present st → whole_batches st →
  whole_batches (run acts st).
Proof.
  revert st. induction acts as [|a acts IH]; intros st Hok Hfr Hown Hw;
    [done|].
  apply Forall_cons in Hok as [Ha Hok]. rewrite run_cons.
  apply IH; [done|by apply fresh_step|by apply owners_present_step|].
  by apply whole_batches_step.
Qed.

(** X20.  Batches stay whole: along every run from the initial state whose
    previews have non-negative integer batch counts, every configuration
    node of the graph owns exactly as many image nodes as its batch count,
    namely
    the ones numbered [1 + i] after it for [i = 0 .. batchCount - 1], in
    that order. *)
Theorem batches_stay_whole (acts : list Action) :
  Forall batch_ok acts →
  let st := run acts initialState in
  ∀ cn, cn ∈ configNodes st →
    ∃ k,
      node_id cn = "config-" +:+ pretty k
      ∧ children_ids (node_id cn) st
        = map (λ i, "image-" +:+ pretty (k + 1 + i))
            (seqZ 0 (cfg_batchCount (node_data cn)))
      ∧ Z.of_nat (length (children_ids (node_id cn) st))
        = cfg_batchCount (node_data cn).
Proof.
  intros Hok. cbv zeta. intros cn Hcn.
  pose proof (fresh_run acts initialState Hok fresh_initial) as Hfr.
  pose proof (whole_batches_run acts initialState Hok fresh_initial
                owners_present_initial whole_batches_initial) as Hw.
  destruct Hfr as (_ & _ & _ & Hmc & _). rewrite Forall_forall in Hmc.
  destruct (Hmc (node_id cn)) as (k & Hk & _).
  { unfold config_ids. change (map ?f ?l) with (f <$> l).
    by apply list_elem_of_fmap_2. }
  destruct (Hw cn k Hcn Hk) as [Hb Hids].
  exists k. split; [done|]. split; [done|].
  rewrite Hids, length_map, length_seqZ. lia.
Qed.

Lemma batches_stay_whole_witness :
  let st := run two_configs initialState in
  Forall (λ cn, Z.of_nat (length (children_ids (node_id cn) st))
                = cfg_batchCount (node_data cn))
    (configNodes st).
Proof.
  cbv zeta. apply Forall_forall. intros cn Hcn.
  destruct (batches_stay_whole two_configs) with (cn := cn)
    as (k & _ & _ & Hlen); [|done|done].
  repeat constructor; cbn; lia.
Defined.

(** The children of the two configurations of that run. *)
Example two_configs_children :
  let st := run two_configs initialState in
  children_ids "config-1" st = ["image-2"; "image-3"]
  ∧ children_ids "config-4" st = ["image-5"].
Proof. vm_compute. done. Qed.

End GraphStoreInvariants.

(* ===================================================================== *)
(** ** The views handed to the canvas *)
(* ===================================================================== *)

Section DerivedViews.

Implicit Types (st : FlowState) (cfg : ConfigData) (c : string).

(** *** The preview among the nodes *)

Lemma preview_numbered_initial : preview_numbered initialState.
Proof. intros cfg H. discriminate H. Qed.

Lemma preview_numbered_step a st :
  preview_numbered st → preview_numbered (step a st).1.
Proof.
  intros H cfg. destruct a; cbn [step fst snd].
  - destruct config; cbn; [by intros [= <-]|done].
  - destruct (previewConfig st) as [p|] eqn:Hp.
    + by rewrite (confirmConfig_Some _ p).
    + rewrite confirmConfig_None by done. exact (H cfg).
  - unfold loadConfigForEditing. destruct (find _ _); [done|exact (H cfg)].
  - exact (H cfg).
  - exact (H cfg).
  - unfold updateConfigPosition. destruct (find _ _); exact (H cfg).
  - exact (H cfg).
  - exact (H cfg).
  - exact (H cfg).
  - exact (H cfg).
  - exact (H cfg).
  - exact (H cfg).
  - done.
Qed.

Lemma preview_numbered_run acts st :
  preview_numbered st → preview_numbered (run acts st).
Proof.
  revert st. induction acts as [|a acts IH]; intros st H; [done|].
  rewrite run_cons. by apply IH, preview_numbered_step.
Qed.

Lemma getAllNodes_ids st :
  map any_id (getAllNodes st)
  = node_ids st
    ++ match previewConfig st with Some p => [cfg_id p] | None => [] end.
Proof.
  unfold getAllNodes, node_ids, config_ids, image_ids.
  destruct (previewConfig st); cbn;
    rewrite ?map_app, ?map_map, ?app_nil_r; done.
Qed.

(** X21.  The node list of the canvas.  With a preview, [getAllNodes] is
    the configuration nodes, then the image nodes, then one node for the
    preview that cannot be dragged, has the class ["preview-node"] and
    stands where [confirmConfig] will put the configuration node; without
    one it is the nodes of the graph.  Along every run from the initial
    state the preview has the id ["preview-N"] where [confirmConfig] will
    return ["config-N"]; when the previews have non-negative batch counts
    the ids of the list are pairwise distinct, the preview included. *)
Theorem getAllNodes_shows_preview :
  (∀ st cfg,
     previewConfig st = Some cfg →
     ∃ cn,
       configNodes (confirmConfig st).2 = configNodes st ++ [cn]
       ∧ getAllNodes st
         = map of_config (configNodes st) ++ map of_image (imageNodes st)
           ++ [ {| any_id := cfg_id cfg; any_type := configNode;
                   any_position := node_position cn;
                   any_data := data_config cfg; any_draggable := false;
                   any_className := Some "preview-node" |} ])
  ∧ (∀ st,
       previewConfig st = None →
       getAllNodes st
       = map of_config (configNodes st) ++ map of_image (imageNodes st))
  ∧ (∀ acts cfg,
       let st := run acts initialState in
       previewConfig st = Some cfg →
       cfg_id cfg = "preview-" +:+ pretty (nodeIdCounter st + 1)
       ∧ (confirmConfig st).1
         = Some ("config-" +:+ pretty (nodeIdCounter st + 1)))
  ∧ (∀ acts,
       Forall batch_ok acts →
       NoDup (map any_id (getAllNodes (run acts initialState)))).
Proof.
  split; [|split; [|split]].
  - intros st cfg Hp. exists (newConfigNode st cfg).
    rewrite (confirmConfig_Some _ cfg) by done. split; [done|].
    unfold getAllNodes. rewrite Hp. cbn. by rewrite <- app_assoc.
  - intros st Hp. unfold getAllNodes. by rewrite Hp.
  - intros acts cfg. cbv zeta. intros Hp.
    destruct (preview_numbered_run acts initialState
                preview_numbered_initial cfg Hp) as [Hid _].
    split; [done|]. by rewrite (confirmConfig_Some _ cfg).
  - intros acts Hok. rewrite getAllNodes_ids.
    pose proof (fresh_run acts initialState Hok fresh_initial) as Hfr.
    pose proof (preview_numbered_run acts initialState
                  preview_numbered_initial) as Hpn.
    destruct (previewConfig (run acts initialState)) as [p|] eqn:Hp;
      [|rewrite app_nil_r; by apply fresh_node_ids].
    apply NoDup_app. split; [by apply fresh_node_ids|].
    split; [|apply NoDup_singleton].
    intros s Hs Hin. apply list_elem_of_singleton in Hin as ->.
    destruct (Hpn p Hp) as [Hid _].
    destruct Hfr as (_ & _ & _ & Hmc & Hmi & _).
    rewrite Forall_forall in Hmc, Hmi. unfold node_ids in Hs.
    apply elem_of_app in Hs as [Hs|Hs].
    + destruct (Hmc _ Hs) as (k & E & _). rewrite Hid in E. discriminate E.
    + destruct (Hmi _ Hs) as (k & E & _). rewrite Hid in E. discriminate E.
Qed.

Lemma getAllNodes_shows_preview_witness :
  let st := run (two_configs
                 ++ [SetPreviewConfig (Some (preview_of 2 7)) 1700000001000])
              initialState in
  map any_id (getAllNodes st)
  = ["config-1"; "config-4"; "image-2"; "image-3"; "image-5"; "preview-6"]
  ∧ (confirmConfig st).1 = Some "config-6"
  ∧ NoDup (map any_id (getAllNodes st)).
Proof.
  cbv zeta.
  destruct getAllNodes_shows_preview as (_ & _ & Hnum & Hnd).
  split; [vm_compute; reflexivity|]. split.
  - edestruct (Hnum (two_configs
                     ++ [SetPreviewConfig (Some (preview_of 2 7))
                           1700000001000]))
      as [_ Hc]; [vm_compute; reflexivity|].
    rewrite Hc. vm_compute. reflexivity.
  - apply Hnd. repeat constructor; cbn; lia.
Defined.

(** *** The edges *)

Lemma no_dash_pretty_N_go (x : N) s : no_dash s → no_dash (pretty_N_go x s).
Proof.
  revert s. induction (N.lt_wf_0 x) as [x _ IH]; intros s Hs.
  assert (x = 0 ∨ 0 < x)%N as [->|?] by lia.
  - by rewrite pretty_N_go_0.
  - rewrite pretty_N_go_step by done. apply IH; [by apply N.div_lt|].
    split; [|done]. unfold pretty_N_char. by repeat case_match.
Qed.

Lemma no_dash_pretty (k : Z) : 0 ≤ k → no_dash (pretty k).
Proof.
  intros Hk. destruct k as [|p|p]; [by vm_compute|..|lia].
  change (pretty (Z.pos p)) with (pretty (N.pos p)).
  unfold pretty, pretty_N. destruct (decide _); [done|].
  by apply no_dash_pretty_N_go.
Qed.

Lemma split_at_dash a a' r r' :
  no_dash a → no_dash a' →
  a +:+ "-" +:+ r = a' +:+ "-" +:+ r' → a = a' ∧ r = r'.
Proof.
  revert a'. induction a as [|ch a IH]; intros [|ch' a'] Ha Ha' E.
  - injection E as E. by split.
  - injection E as E1 E2. destruct Ha' as [Hch _]. destruct Hch.
    by rewrite <- E1.
  - injection E as E1 E2. destruct Ha as [Hch _]. destruct Hch.
    by rewrite E1.
  - injection E as -> E. destruct Ha as [_ Ha], Ha' as [_ Ha'].
    by destruct (IH a' Ha Ha' E) as [-> ->].
Qed.

Lemma edge_id_parts a a' r r' :
  no_dash a → no_dash a' →
  "edge-" +:+ ("config-" +:+ a) +:+ "-" +:+ r
  = "edge-" +:+ ("config-" +:+ a') +:+ "-" +:+ r' →
  r = r'.
Proof.
  intros Ha Ha' E. apply append_inj in E.
  change ("config-" +:+ (a +:+ "-" +:+ r)
          = "config-" +:+ (a' +:+ "-" +:+ r')) in E.
  apply append_inj in E.
  by destruct (split_at_dash a a' r r' Ha Ha' E).
Qed.

Lemma edges_by_owner_and_id st st' :
  map owner (imageNodes st') = map owner (imageNodes st) →
  map node_id (imageNodes st') = map node_id (imageNodes st) →
  getAllEdges st' = getAllEdges st.
Proof.
  unfold getAllEdges, owner.
  generalize (imageNodes st') as l'. generalize (imageNodes st) as l.
  induction l as [|n l IH]; intros [|n' l'] Ho Hi; try done.
  cbn in *. injection Ho as -> Ho. injection Hi as -> Hi.
  by rewrite (IH l').
Qed.

Lemma getAllEdges_deleteConfig c st :
  getAllEdges (deleteConfig c st).1
  = List.filter (λ e, negb (String.eqb (edge_source e) c)) (getAllEdges st).
Proof.
  unfold getAllEdges, deleteConfig. cbn [fst set_nodes imageNodes].
  induction (imageNodes st) as [|n l IH]; [done|]. cbn.
  destruct (String.eqb (img_configId (node_data n)) c); cbn; by rewrite IH.
Qed.

(** X22.  The edges of the canvas.  Along every run from the initial
    state there is one edge per image node, in the order of the image
    nodes, and it starts at a configuration node of the graph; when the
    previews have non-negative batch counts the edge ids are pairwise
    distinct.  [deleteConfig] removes exactly the edges that start at the
    deleted configuration, and the calls that neither confirm nor delete
    leave the edges as they are. *)
Theorem getAllEdges_connect_the_graph :
  (∀ acts,
     let st := run acts initialState in
     map edge_target (getAllEdges st) = image_ids st
     ∧ ∀ e, e ∈ getAllEdges st → edge_source e ∈ config_ids st)
  ∧ (∀ acts,
       Forall batch_ok acts →
       NoDup (map edge_id (getAllEdges (run acts initialState))))
  ∧ (∀ c st,
       getAllEdges (deleteConfig c st).1
       = List.filter (λ e, negb (String.eqb (edge_source e) c))
           (getAllEdges st))
  ∧ (∀ a st, keeps_ids a → getAllEdges (step a st).1 = getAllEdges st).
Proof.
  split; [|split; [|split]].
  - intros acts. cbv zeta. split.
    + unfold getAllEdges, image_ids. by rewrite map_map.
    + intros e He. unfold getAllEdges in He.
      change (map ?f ?l) with (f <$> l) in He.
      apply list_elem_of_fmap in He as (n & -> & Hn). cbn.
      by apply (owners_present_run acts initialState owners_present_initial).
  - intros acts Hok.
    pose proof (fresh_run acts initialState Hok fresh_initial) as Hfr.
    pose proof (owners_present_run acts initialState owners_present_initial)
      as Hown.
    destruct Hfr as (_ & _ & Hni & Hmc & Hmi & _).
    rewrite Forall_forall in Hmc, Hmi.
    unfold getAllEdges. rewrite map_map. cbn.
    change (map ?f ?l) with (f <$> l).
    assert (Hnd : NoDup (imageNodes (run acts initialState))).
    { unfold image_ids in Hni. change (map ?f ?l) with (f <$> l) in Hni.
      by apply NoDup_fmap_1 in Hni. }
    apply NoDup_fmap_2_strong; [|done].
    intros n n' Hn Hn' E.
    destruct (Hmc _ (Hown n Hn)) as (k & Hk & Hk0 & _).
    destruct (Hmc _ (Hown n' Hn')) as (k' & Hk' & Hk0' & _).
    unfold owner in Hk, Hk'. rewrite Hk, Hk' in E.
    apply edge_id_parts in E; [|apply no_dash_pretty; lia..].
    unfold image_ids in Hni.
    apply list_elem_of_lookup in Hn as [i Hi], Hn' as [i' Hi'].
    assert (i = i') as <-.
    { apply (NoDup_lookup _ i i' (node_id n) Hni).
      - change (map ?f ?l) with (f <$> l). by rewrite list_lookup_fmap, Hi.
      - change (map ?f ?l) with (f <$> l).
        by rewrite list_lookup_fmap, Hi', E. }
    congruence.
  - apply getAllEdges_deleteConfig.
  - intros a st Hk.
    destruct (step_keeps_ids a st Hk) as (_ & Hi & Ho & _).
    by apply edges_by_owner_and_id.
Qed.

Lemma getAllEdges_connect_the_graph_witness :
  let st := run two_configs initialState in
  map edge_id (getAllEdges st)
  = ["edge-config-1-image-2"; "edge-config-1-image-3";
     "edge-config-4-image-5"]
  ∧ NoDup (map edge_id (getAllEdges st))
  ∧ getAllEdges (step (UpdateConfigPosition "config-1" 0 0) st).1
    = getAllEdges st.
Proof.
  cbv zeta. destruct getAllEdges_connect_the_graph as (_ & Hnd & _ & Hkeep).
  split; [vm_compute; reflexivity|]. split.
  - apply Hnd. repeat constructor; cbn; lia.
  - by apply Hkeep.
Defined.

End DerivedViews.

(* ===================================================================== *)
(** ** The life of the graph *)
(* ===================================================================== *)

Section GraphStoreLifecycle.

Implicit Types (st : FlowState) (cfg : ConfigData) (c s : string).

(** *** Starting over *)

Lemma same_graph_refl st : same_graph st st.
Proof. by repeat split. Qed.




(** The ids after a [clearAll] are those of a first run. *)
Example clearAll_then_two_configs :
  node_ids (run (two_configs ++ [ClearAll] ++ two_configs) initialState)
  = ["config-1"; "config-4"; "image-2"; "image-3"; "image-5"].
Proof. vm_compute. reflexivity. Qed.

(** *** Finished images *)

Lemma settled_step a st s :
  batch_ok a → a ≠ ClearAll → fresh st →
  settled s st → settled s (step a st).1.
Proof.
  intros Hok Hnc Hfr [Hm Hs].
  assert (Hmap : ∀ (f : Node ImageData → Node ImageData) cs,
             (∀ n, node_id (f n) = node_id n
                   ∧ (img_isLoading (node_data n) = false →
                      img_isLoading (node_data (f n)) = false)) →
             settled s (set_nodes st cs (map f (imageNodes st)))).
  { intros f cs Hf. split; [done|]. intros n' Hn' Hid.
    cbn [set_nodes imageNodes] in Hn'. change (map ?g ?l) with (g <$> l) in Hn'.
    apply list_elem_of_fmap in Hn' as (n & -> & Hn).
    destruct (Hf n) as [E Hl]. apply Hl, Hs; [done|]. by rewrite <- E. }
  destruct a; cbn [step fst snd]; try done.
  - destruct config; by split.
  - destruct (previewConfig st) as [cfg|] eqn:Hp;
      [|by rewrite confirmConfig_None].
    rewrite (confirmConfig_Some _ cfg) by done.
    pose proof Hfr as (_ & _ & _ & _ & _ & Hb). specialize (Hb cfg Hp).
    split; cbn [snd nodeIdCounter imageNodes].
    + apply (minted_mono _ (nodeIdCounter st)); [lia|done].
    + intros n Hn Hid. apply elem_of_app in Hn as [Hn|Hn]; [by apply Hs|].
      apply list_elem_of_lookup in Hn as [i Hi].
      apply lookup_newImageNodes in Hi as [-> _]. cbn in Hid.
      destruct Hm as (k & -> & Hk). apply minted_inj in Hid. lia.
  - unfold loadConfigForEditing. destruct (find _ _); by split.
  - unfold updateConfigPosition. destruct (find _ _) as [cn|]; [|by split].
    apply Hmap. intros n.
    by destruct (String.eqb (img_configId (node_data n)) _).
  - apply Hmap. intros n. by destruct (String.eqb (node_id n) _).
  - apply Hmap. intros n. by destruct (String.eqb (node_id n) _).
  - split; [done|]. intros n Hn. cbn [deleteConfig fst set_nodes imageNodes] in Hn.
    apply list_elem_of_In, filter_In in Hn as [Hn _].
    apply list_elem_of_In in Hn. by apply Hs.
Qed.

(** X24.  A finished image stays finished.  From a state with distinct
    minted ids in which the image [s] is in the graph and not loading,
    no sequence of calls other than [clearAll], with non-negative batch
    counts in the previews, leaves a node with the id [s] that is
    loading: the node is updated, moved or deleted, and its id is not
    minted a second time. *)
Theorem finished_stays_finished (acts : list Action) st s :
  Forall batch_ok acts → Forall (λ a, a ≠ ClearAll) acts →
  fresh st → s ∈ image_ids st →
  (∀ n, n ∈ imageNodes st → node_id n = s →
        img_isLoading (node_data n) = false) →
  ∀ n, n ∈ imageNodes (run acts st) → node_id n = s →
       img_isLoading (node_data n) = false.
Proof.
  intros Hok Hnc Hfr Hin Hs.
  assert (Hset : settled s st).
  { split; [|done]. destruct Hfr as (_ & _ & _ & _ & Hmi & _).
    rewrite Forall_forall in Hmi. by apply Hmi. }
  clear Hin Hs. revert st Hfr Hset.
  induction acts as [|a acts IH]; intros st Hfr [Hm Hs]; [done|].
  apply Forall_cons in Hok as [Ha Hok]. apply Forall_cons in Hnc as [Hna Hnc].
  rewrite run_cons. apply IH; [done|done|by apply fresh_step|].
  by apply settled_step.
Qed.

Lemma finished_stays_finished_witness :
  let st := run two_configs initialState in
  let acts := [ SetPreviewConfig (Some (preview_of 2 7)) 1700000001000;
                ConfirmConfig; UpdateConfigPosition "config-1" 0 0;
                UpdateImageError "image-3" "timeout" ] in
  Forall (λ n, node_id n = "image-3" → img_isLoading (node_data n) = false)
    (imageNodes (run acts st)).
Proof.
  cbv zeta. apply Forall_forall.
  apply (finished_stays_finished
           [ SetPreviewConfig (Some (preview_of 2 7)) 1700000001000;
             ConfirmConfig; UpdateConfigPosition "config-1" 0 0;
             UpdateImageError "image-3" "timeout" ]
           (run two_configs initialState) "image-3").
  - repeat constructor; cbn; lia.
  - repeat constructor; discriminate.
  - apply fresh_run; [repeat constructor; cbn; lia|apply fresh_initial].
  - refine (bool_decide_unpack _ _). vm_compute. exact I.
  - intros m Hm Hid. vm_compute in Hm.
    repeat (apply elem_of_cons in Hm as [->|Hm];
            [try discriminate Hid; try reflexivity|]).
    by apply elem_of_nil in Hm.
Defined.

(** *** The row of configurations *)

Lemma in_row_same st st' :
  configNodes st' = configNodes st → in_row st → in_row st'.
Proof. unfold in_row. by intros ->. Qed.

Lemma in_row_step a st : keeps_row a → in_row st → in_row (step a st).1.
Proof.
  intros Hk Hr. destruct a; cbn [step fst snd]; try done;
    try by apply (in_row_same st).
  - destruct config; by apply (in_row_same st).
  - destruct (previewConfig st) as [cfg|] eqn:Hp;
      [|by rewrite confirmConfig_None].
    rewrite (confirmConfig_Some _ cfg) by done. intros j cn.
    cbn [snd configNodes]. intros Hj.
    apply lookup_app_Some in Hj as [Hj|[Hlen Hj]]; [by apply Hr|].
    apply list_lookup_singleton_Some in Hj as [Hj <-].
    cbn [newConfigNode node_position]. unfold getNextConfigPosition.
    cbv zeta. unfold FIRST_CONFIG_X, FIRST_CONFIG_Y, CONFIG_SPACING.
    f_equal. lia.
  - unfold loadConfigForEditing. destruct (find _ _); [|done].
    by apply (in_row_same st).
Qed.

(** X28.  The configurations stand in a row.  Along every run from the
    initial state without [deleteConfig] and [updateConfigPosition], the
    configuration node at index [j] of the list is at
    [(100 + 350 * j, 100)], so that no two configuration nodes share a
    position, and the place that [getNextConfigPosition] gives to the next
    one is taken by none of them. *)
Theorem configs_stand_in_a_row (acts : list Action) :
  Forall keeps_row acts →
  let st := run acts initialState in
  (∀ (j : nat) cn, configNodes st !! j = Some cn →
     node_position cn = {| pos_x := 100 + Z.of_nat j * 350; pos_y := 100 |})
  ∧ NoDup (map node_position (configNodes st))
  ∧ (getNextConfigPosition st
     ∉ map node_position (configNodes st)).
Proof.
  intros Hk. cbv zeta.
  assert (Hr : in_row (run acts initialState)).
  { assert (H0 : in_row initialState).
    { intros j cn Hj. cbn in Hj. by rewrite lookup_nil in Hj. }
    revert H0. generalize initialState as st.
    induction acts as [|a acts IH]; intros st H0; [done|].
    apply Forall_cons in Hk as [Ha Hk]. rewrite run_cons.
    apply IH; [done|]. by apply in_row_step. }
  split; [exact Hr|]. split.
  - change (map ?f ?l) with (f <$> l). apply NoDup_alt.
    intros i j p. rewrite !list_lookup_fmap. intros Hi Hj.
    destruct (configNodes (run acts initialState) !! i) as [ci|] eqn:Eci;
      [|done].
    destruct (configNodes (run acts initialState) !! j) as [cj|] eqn:Ecj;
      [|done].
    cbn in Hi, Hj. rewrite (Hr i ci Eci) in Hi. rewrite (Hr j cj Ecj) in Hj.
    rewrite <- Hj in Hi. injection Hi as Hi. lia.
  - change (map ?f ?l) with (f <$> l). intros Hin.
    apply list_elem_of_fmap in Hin as (cn & Hpos & Hcn).
    apply list_elem_of_lookup in Hcn as [j Hj].
    pose proof (lookup_lt_Some _ _ _ Hj) as Hlt.
    rewrite (Hr j cn Hj) in Hpos. unfold getNextConfigPosition in Hpos.
    cbv zeta in Hpos.
    unfold FIRST_CONFIG_X, FIRST_CONFIG_Y, CONFIG_SPACING in Hpos.
    injection Hpos as Hpos. lia.
Qed.

Lemma configs_stand_in_a_row_witness :
  map node_position (configNodes (run two_configs initialState))
  = [ {| pos_x := 100; pos_y := 100 |}; {| pos_x := 450; pos_y := 100 |} ]
  ∧ NoDup (map node_position (configNodes (run two_configs initialState))).
Proof.
  destruct (configs_stand_in_a_row two_configs) as (_ & Hnd & _).
  { repeat constructor. }
  split; [vm_compute; reflexivity|exact Hnd].
Defined.

(** After a deletion the row has a gap and the count no longer gives a free
    place: the configuration confirmed next lands on an existing one. *)
Example confirm_after_delete_overlaps :
  let st := run confirm_after_delete initialState in
  map node_id (configNodes st) = ["config-3"; "config-5"]
  ∧ map node_position (configNodes st)
    = [ {| pos_x := 450; pos_y := 100 |}; {| pos_x := 450; pos_y := 100 |} ].
Proof. vm_compute. done. Qed.

End GraphStoreLifecycle.

(* ===================================================================== *)
(** ** Properties of the lightbox *)
(* ===================================================================== *)

Section LightboxNavigation.

Import Lightbox.

Implicit Types (st : FlowState) (n : Node ImageData) (w : World).

Lemma findIndex_range {A : Type} (p : A → bool) (l : list A) :
  -1 ≤ findIndex p l < Z.of_nat (length l).
Proof.
  induction l as [|a l IH]; cbn [findIndex length]; [lia|].
  destruct (p a); [lia|]. destruct (Z.ltb_spec (findIndex p l) 0); lia.
Qed.

Lemma findIndex_none {A : Type} (p : A → bool) (l : list A) :
  (∀ a, a ∈ l → p a = false) → findIndex p l = -1.
Proof.
  induction l as [|a l IH]; intros H; [done|]. cbn [findIndex].
  rewrite (H a) by left. rewrite IH; [done|].
  intros b Hb. apply H. by right.
Qed.

Lemma findIndex_at {A : Type} (p : A → bool) (l : list A) (i : nat) a :
  l !! i = Some a → p a = true →
  (∀ j b, (j < i)%nat → l !! j = Some b → p b = false) →
  findIndex p l = Z.of_nat i.
Proof.
  revert i. induction l as [|x l IH]; intros [|i] Hi Hp Hb; try done.
  - cbn in Hi. injection Hi as ->. cbn [findIndex]. by rewrite Hp.
  - cbn [findIndex]. rewrite (Hb 0%nat x) by (lia || done).
    rewrite (IH i); [|done|done|].
    + destruct (Z.ltb_spec (Z.of_nat i) 0); lia.
    + intros j b Hj Hjb. apply (Hb (S j) b); [lia|done].
Qed.

Lemma at_index_nat {A : Type} (l : list A) (i : nat) :
  at_index l (Z.of_nat i) = l !! i.
Proof.
  unfold at_index. destruct (Z.ltb_spec (Z.of_nat i) 0); [lia|].
  by rewrite Nat2Z.id.
Qed.

Lemma rem_wrap (a len : Z) :
  0 ≤ a < 2 * len → Z.rem a len = if a <? len then a else a - len.
Proof.
  intros H. rewrite Z.rem_mod_nonneg by lia.
  destruct (Z.ltb_spec a len); [apply Z.mod_small; lia|].
  symmetry. apply (Z.mod_unique a len 1); lia.
Qed.

Lemma shown_in_graph st n : n ∈ imagesWithUrls st → n ∈ imageNodes st.
Proof.
  intros H. apply list_elem_of_In, filter_In in H as [H _].
  by apply list_elem_of_In.
Qed.

Lemma shown_ids_NoDup st :
  NoDup (image_ids st) → NoDup (map node_id (imagesWithUrls st)).
Proof.
  unfold image_ids, imagesWithUrls.
  induction (imageNodes st) as [|n l IH]; [done|]. cbn.
  intros [Hn Hnd]%NoDup_cons. destruct (_ || _); [|by apply IH].
  cbn. apply NoDup_cons. split; [|by apply IH].
  intros Hin. by apply elem_of_map_filter in Hin.
Qed.

Lemma shown_index st (i : nat) n :
  NoDup (image_ids st) →
  imagesWithUrls st !! i = Some n → lightboxImageId st = Some (node_id n) →
  findIndex (is_id (lightboxImageId st)) (imagesWithUrls st) = Z.of_nat i.
Proof.
  intros Hnd Hi ->. apply (findIndex_at _ _ i n); [done|apply String.eqb_refl|].
  intros j b Hj Hjb. cbn. apply eqb_false_iff. intros E.
  pose proof (shown_ids_NoDup st Hnd) as Hnd'.
  assert (j = i); [|lia].
  apply (NoDup_lookup _ j i (node_id n) Hnd');
    change (map ?f ?l) with (f <$> l); rewrite list_lookup_fmap.
  - by rewrite Hjb, <- E.
  - by rewrite Hi.
Qed.

Lemma current_of_shown st n :
  NoDup (image_ids st) → n ∈ imagesWithUrls st →
  currentImage (setLightboxImage (Some (node_id n)) st) = Some n.
Proof.
  intros Hnd Hn. apply shown_in_graph in Hn.
  unfold currentImage. cbn [setLightboxImage lightboxImageId imageNodes].
  apply list_elem_of_split in Hn as (pre & post & E). rewrite E.
  apply find_first; [apply String.eqb_refl|].
  intros b Hb. cbn. apply eqb_false_iff. intros Eid.
  unfold image_ids in Hnd. rewrite E, map_app in Hnd. cbn in Hnd.
  apply NoDup_app in Hnd as (_ & Hdis & _). apply (Hdis (node_id b)).
  - change (map ?f ?l) with (f <$> l). by apply list_elem_of_fmap_2.
  - rewrite Eid. left.
Qed.

Lemma setLightboxImage_twice x y st :
  setLightboxImage x (setLightboxImage y st) = setLightboxImage x st.
Proof. done. Qed.

Lemma setLightboxImage_same st :
  setLightboxImage (lightboxImageId st) st = st.
Proof. by destruct st. Qed.

Lemma handleNext_at st (i : nat) n :
  let imgs := imagesWithUrls st in
  NoDup (image_ids st) →
  imgs !! i = Some n → lightboxImageId st = Some (node_id n) →
  (1 < length imgs)%nat →
  ∃ nx,
    imgs !! (if decide (S i = length imgs) then 0 else S i)%nat = Some nx
    ∧ handleNext st = Some (setLightboxImage (Some (node_id nx)) st).
Proof.
  cbv zeta. intros Hnd Hi Hl Hlen.
  pose proof (lookup_lt_Some _ _ _ Hi) as Hlt.
  unfold handleNext. cbv zeta. rewrite (shown_index st i n) by done.
  destruct (Z.leb_spec (Z.of_nat (length (imagesWithUrls st))) 1); [lia|].
  rewrite rem_wrap by lia.
  destruct (decide (S i = length (imagesWithUrls st))) as [E|E].
  - destruct (Z.ltb_spec (Z.of_nat i + 1)
                (Z.of_nat (length (imagesWithUrls st)))); [lia|].
    replace (Z.of_nat i + 1 - Z.of_nat (length (imagesWithUrls st)))
      with (Z.of_nat 0) by lia.
    rewrite at_index_nat.
    destruct (lookup_lt_is_Some_2 (imagesWithUrls st) 0%nat) as [nx Hnx];
      [lia|].
    exists nx. by rewrite Hnx.
  - destruct (Z.ltb_spec (Z.of_nat i + 1)
                (Z.of_nat (length (imagesWithUrls st)))); [|lia].
    replace (Z.of_nat i + 1) with (Z.of_nat (S i)) by lia.
    rewrite at_index_nat.
    destruct (lookup_lt_is_Some_2 (imagesWithUrls st) (S i)) as [nx Hnx];
      [lia|].
    exists nx. by rewrite Hnx.
Qed.

Lemma handlePrev_at st (i : nat) n :
  let imgs := imagesWithUrls st in
  NoDup (image_ids st) →
  imgs !! i = Some n → lightboxImageId st = Some (node_id n) →
  (1 < length imgs)%nat →
  ∃ pv,
    imgs !! (if decide (i = 0) then length imgs - 1 else i - 1)%nat = Some pv
    ∧ handlePrev st = Some (setLightboxImage (Some (node_id pv)) st).
Proof.
  cbv zeta. intros Hnd Hi Hl Hlen.
  pose proof (lookup_lt_Some _ _ _ Hi) as Hlt.
  unfold handlePrev. cbv zeta. rewrite (shown_index st i n) by done.
  destruct (Z.leb_spec (Z.of_nat (length (imagesWithUrls st))) 1); [lia|].
  rewrite rem_wrap by lia.
  destruct (decide (i = 0)%nat) as [E|E].
  - destruct (Z.ltb_spec (Z.of_nat i - 1
                          + Z.of_nat (length (imagesWithUrls st)))
                (Z.of_nat (length (imagesWithUrls st)))); [|lia].
    replace (Z.of_nat i - 1 + Z.of_nat (length (imagesWithUrls st)))
      with (Z.of_nat (length (imagesWithUrls st) - 1)) by lia.
    rewrite at_index_nat.
    destruct (lookup_lt_is_Some_2 (imagesWithUrls st)
                (length (imagesWithUrls st) - 1)) as [pv Hpv]; [lia|].
    exists pv. by rewrite Hpv.
  - destruct (Z.ltb_spec (Z.of_nat i - 1
                          + Z.of_nat (length (imagesWithUrls st)))
                (Z.of_nat (length (imagesWithUrls st)))); [lia|].
    replace (Z.of_nat i - 1 + Z.of_nat (length (imagesWithUrls st))
             - Z.of_nat (length (imagesWithUrls st)))
      with (Z.of_nat (i - 1)) by lia.
    rewrite at_index_nat.
    destruct (lookup_lt_is_Some_2 (imagesWithUrls st) (i - 1)) as [pv Hpv];
      [lia|].
    exists pv. by rewrite Hpv.
Qed.

Ltac split_ltb :=
  match goal with
  | |- context [(?a <? ?b)] => destruct (Z.ltb_spec a b)
  end.

Ltac same_index H i :=
  match type of H with
  | _ !! ?j = _ => replace j with i in H by lia; congruence
  end.

Lemma at_index_Some {A : Type} (l : list A) (r : Z) :
  0 ≤ r < Z.of_nat (length l) →
  ∃ a, at_index l r = Some a ∧ l !! Z.to_nat r = Some a.
Proof.
  intros Hr. unfold at_index. destruct (Z.ltb_spec r 0); [lia|].
  destruct (lookup_lt_is_Some_2 l (Z.to_nat r)) as [a Ha]; [lia|].
  by exists a.
Qed.

(** X25.  Navigation stays among the images that can be shown.  With at
    most one such image [handleNext] and [handlePrev] do nothing.  With
    two or more they never read past the list: each selects the id of an
    image that has a URL or a blob reference and changes nothing else.
    When the image of the lightbox is not one of those (or there is
    none), [handleNext] selects the first and [handlePrev] the last but
    one. *)
Theorem navigation_stays_among_shown st :
  let imgs := imagesWithUrls st in
  ((length imgs ≤ 1)%nat → handleNext st = Some st ∧ handlePrev st = Some st)
  ∧ ((1 < length imgs)%nat →
     ∃ nx pv,
       nx ∈ imgs ∧ pv ∈ imgs
       ∧ handleNext st = Some (setLightboxImage (Some (node_id nx)) st)
       ∧ handlePrev st = Some (setLightboxImage (Some (node_id pv)) st))
  ∧ ((1 < length imgs)%nat →
     (∀ n, n ∈ imgs → lightboxImageId st ≠ Some (node_id n)) →
     ∃ nx pv,
       imgs !! 0%nat = Some nx ∧ imgs !! (length imgs - 2)%nat = Some pv
       ∧ handleNext st = Some (setLightboxImage (Some (node_id nx)) st)
       ∧ handlePrev st = Some (setLightboxImage (Some (node_id pv)) st)).
Proof.
  cbv zeta. split; [|split].
  - intros Hlen. unfold handleNext, handlePrev. cbv zeta.
    by destruct (Z.leb_spec (Z.of_nat (length (imagesWithUrls st))) 1);
      [|lia].
  - intros Hlen.
    pose proof (findIndex_range (is_id (lightboxImageId st))
                  (imagesWithUrls st)) as Hidx.
    destruct (at_index_Some (imagesWithUrls st)
                (Z.rem (findIndex (is_id (lightboxImageId st))
                          (imagesWithUrls st) + 1)
                   (Z.of_nat (length (imagesWithUrls st)))))
      as (nx & Hnx & Hnx').
    { rewrite rem_wrap by lia. split_ltb; lia. }
    destruct (at_index_Some (imagesWithUrls st)
                (Z.rem (findIndex (is_id (lightboxImageId st))
                          (imagesWithUrls st) - 1
                        + Z.of_nat (length (imagesWithUrls st)))
                   (Z.of_nat (length (imagesWithUrls st)))))
      as (pv & Hpv & Hpv').
    { rewrite rem_wrap by lia. split_ltb; lia. }
    exists nx, pv.
    split; [by apply list_elem_of_lookup_2 in Hnx'|].
    split; [by apply list_elem_of_lookup_2 in Hpv'|].
    unfold handleNext, handlePrev. cbv zeta.
    destruct (Z.leb_spec (Z.of_nat (length (imagesWithUrls st))) 1); [lia|].
    by rewrite Hnx, Hpv.
  - intros Hlen Hnot.
    assert (Hidx : findIndex (is_id (lightboxImageId st)) (imagesWithUrls st)
                   = -1).
    { apply findIndex_none. intros n Hn. specialize (Hnot n Hn).
      destruct (lightboxImageId st) as [id|]; [|done]. cbn.
      apply eqb_false_iff. congruence. }
    destruct (lookup_lt_is_Some_2 (imagesWithUrls st) 0%nat) as [nx Hnx];
      [lia|].
    destruct (lookup_lt_is_Some_2 (imagesWithUrls st)
                (length (imagesWithUrls st) - 2)) as [pv Hpv]; [lia|].
    exists nx, pv. split; [done|]. split; [done|].
    unfold handleNext, handlePrev. cbv zeta. rewrite Hidx.
    destruct (Z.leb_spec (Z.of_nat (length (imagesWithUrls st))) 1); [lia|].
    rewrite !rem_wrap by lia.
    destruct (Z.ltb_spec (-1 + 1) (Z.of_nat (length (imagesWithUrls st))));
      [|lia].
    destruct (Z.ltb_spec (-1 - 1 + Z.of_nat (length (imagesWithUrls st)))
                (Z.of_nat (length (imagesWithUrls st)))); [|lia].
    change (-1 + 1) with (Z.of_nat 0).
    replace (-1 - 1 + Z.of_nat (length (imagesWithUrls st)))
      with (Z.of_nat (length (imagesWithUrls st) - 2)) by lia.
    by rewrite !at_index_nat, Hnx, Hpv.
Qed.

Lemma navigation_stays_among_shown_witness :
  let st := run two_configs initialState in
  lightboxImageId <$> handleNext st = Some (Some "image-3")
  ∧ lightboxImageId <$> handlePrev st = Some (Some "image-3").
Proof.
  cbv zeta.
  destruct (navigation_stays_among_shown (run two_configs initialState))
    as (_ & _ & Hout).
  destruct Hout as (nx & pv & Hnx & Hpv & -> & ->).
  - vm_compute. lia.
  - intros n Hn. vm_compute. discriminate.
  - vm_compute in Hnx, Hpv. injection Hnx as <-. injection Hpv as <-.
    split; reflexivity.
Defined.

(** X26.  Navigation follows the list and comes back.  When the ids of
    the image nodes are distinct and the lightbox shows the image at
    index [i] of the images that can be shown, of which there are two or
    more, [handleNext] selects the image at [i + 1], or the first after
    the last, and [handlePrev] the image at [i - 1], or the last before
    the first; the lightbox then shows that node, and the opposite call
    restores the state. *)
Theorem navigation_follows_the_list st (i : nat) n :
  let imgs := imagesWithUrls st in
  NoDup (image_ids st) →
  imgs !! i = Some n → lightboxImageId st = Some (node_id n) →
  (1 < length imgs)%nat →
  ∃ nx pv stn stp,
    imgs !! (if decide (S i = length imgs) then 0 else S i)%nat = Some nx
    ∧ imgs !! (if decide (i = 0) then length imgs - 1 else i - 1)%nat
      = Some pv
    ∧ handleNext st = Some stn ∧ currentImage stn = Some nx
    ∧ handlePrev st = Some stp ∧ currentImage stp = Some pv
    ∧ handlePrev stn = Some st ∧ handleNext stp = Some st.
Proof.
  cbv zeta. intros Hnd Hi Hl Hlen.
  pose proof (lookup_lt_Some _ _ _ Hi) as Hlt.
  destruct (handleNext_at st i n Hnd Hi Hl Hlen) as (nx & Hnx & Hnext).
  destruct (handlePrev_at st i n Hnd Hi Hl Hlen) as (pv & Hpv & Hprev).
  exists nx, pv, (setLightboxImage (Some (node_id nx)) st),
    (setLightboxImage (Some (node_id pv)) st).
  split; [done|]. split; [done|]. split; [done|].
  split; [apply current_of_shown; [done|by apply list_elem_of_lookup_2 in Hnx]|].
  split; [done|].
  split; [apply current_of_shown; [done|by apply list_elem_of_lookup_2 in Hpv]|].
  split.
  - destruct (handlePrev_at (setLightboxImage (Some (node_id nx)) st)
                (if decide (S i = length (imagesWithUrls st)) then 0 else S i)%nat
                nx Hnd Hnx eq_refl Hlen) as (n' & Hn' & ->).
    change (imagesWithUrls (setLightboxImage (Some (node_id nx)) st))
      with (imagesWithUrls st) in Hn'.
    assert (n' = n) as ->.
    { clear Hnx Hpv. repeat case_decide; try lia; same_index Hn' i. }
    by rewrite setLightboxImage_twice, <- Hl, setLightboxImage_same.
  - destruct (handleNext_at (setLightboxImage (Some (node_id pv)) st)
                (if decide (i = 0)%nat
                 then length (imagesWithUrls st) - 1 else i - 1)%nat
                pv Hnd Hpv eq_refl Hlen) as (n' & Hn' & ->).
    change (imagesWithUrls (setLightboxImage (Some (node_id pv)) st))
      with (imagesWithUrls st) in Hn'.
    assert (n' = n) as ->.
    { clear Hnx Hpv. repeat case_decide; try lia; same_index Hn' i. }
    by rewrite setLightboxImage_twice, <- Hl, setLightboxImage_same.
Qed.

Lemma navigation_follows_the_list_witness :
  let st := setLightboxImage (Some "image-5") (run two_configs initialState) in
  ∃ stn,
    handleNext st = Some stn ∧ lightboxImageId stn = Some "image-3"
    ∧ handlePrev stn = Some st.
Proof.
  cbv zeta.
  edestruct (navigation_follows_the_list
               (setLightboxImage (Some "image-5")
                  (run two_configs initialState)) 1%nat)
    as (nx & pv & stn & stp & _ & _ & Hn & _ & _ & _ & Hback & _).
  - refine (bool_decide_unpack _ _). vm_compute. exact I.
  - vm_compute. reflexivity.
  - reflexivity.
  - vm_compute. lia.
  - exists stn. split; [exact Hn|]. split; [|exact Hback].
    vm_compute in Hn. injection Hn as <-. reflexivity.
Defined.

(** *** What the lightbox displays *)



End LightboxNavigation.
